(** * pgversionreport: the release-notes scraper ([scraper/execute.ts])

    A shallow embedding of the extraction / classification / enrichment
    pipeline of [scraper/execute.ts], and the properties the specification
    states about it; then the script that splits the summary for the
    report, and the loop of the report's version map
    ([src/components/molecules/VersionMapCard.tsx]).

    Modelling conventions.
    - A JavaScript string is a [string]: a sequence of code units, each an
      [ascii] read as a code unit in the range U+0000..U+00FF.  On that
      range [toLowerCase] and [trim] are exactly ECMAScript's (the range is
      closed under lower-casing).
    - Arrays are lists; [push] appends at the end.
    - The object [versionDates] is a [gmap string string].
    - Code that can throw returns an [option]; [None] stands for the
      exception reaching the enclosing [try]/[catch].
    - The external capabilities (file system, cheerio, node-html-markdown,
      the NVD service) are [Variable]s of the sections that use them. *)

From stdpp Require Import base strings list gmap sorting.
From Stdlib Require Import Ascii NArith ZArith QArith Lia.


(* ===================================================================== *)
(** ** JavaScript string primitives *)
(* ===================================================================== *)

Module JS.

(** [String.prototype.toLowerCase] on the code units U+0000..U+00FF:
    A-Z and the Latin-1 capitals U+00C0..U+00DE (but the multiplication
    sign U+00D7) move up by 32, everything else is unchanged. *)
Definition lowerChar (c : ascii) : ascii :=
  let n := N_of_ascii c in
  if ((65 <=? n) && (n <=? 90) ||
      (192 <=? n) && (n <=? 222) && negb (n =? 215))%N
  then ascii_of_N (n + 32) else c.

Fixpoint toLowerCase (s : string) : string :=
  match s with
  | EmptyString => EmptyString
  | String c t => String (lowerChar c) (toLowerCase t)
  end.

(** [s.startsWith(p)] *)
Fixpoint startsWith (s p : string) {struct p} : bool :=
  match p, s with
  | EmptyString, _ => true
  | String _ _, EmptyString => false
  | String a p', String b s' => Ascii.eqb a b && startsWith s' p'
  end.

(** [s.includes(w)] *)
Fixpoint includes (s w : string) : bool :=
  startsWith s w ||
  match s with
  | EmptyString => false
  | String _ t => includes t w
  end.

(** [s.endsWith(p)] *)
Fixpoint endsWith (s p : string) : bool :=
  String.eqb s p ||
  match s with
  | EmptyString => false
  | String _ t => endsWith t p
  end.

(** ECMAScript [WhiteSpace] and [LineTerminator] code units below U+0100:
    TAB, LF, VT, FF, CR, SP and NBSP. *)
Definition isWhiteSpace (c : ascii) : bool :=
  let n := N_of_ascii c in
  ((9 <=? n) && (n <=? 13) || (n =? 32) || (n =? 160))%N.

Fixpoint trimStart (s : string) : string :=
  match s with
  | EmptyString => EmptyString
  | String c t => if isWhiteSpace c then trimStart t else s
  end.

(** [trimEnd] keeps a character when it is not white space or when
    something is kept after it. *)
Fixpoint trimEnd (s : string) : string :=
  match s with
  | EmptyString => EmptyString
  | String c t =>
      match trimEnd t with
      | EmptyString => if isWhiteSpace c then EmptyString else String c EmptyString
      | r => String c r
      end
  end.

(** [s.trim()] *)
Definition trim (s : string) : string := trimEnd (trimStart s).

(** [s.indexOf(c)] for a one-character needle; [-1] when absent. *)
Fixpoint indexOf (s : string) (c : ascii) : Z :=
  match s with
  | EmptyString => (-1)%Z
  | String a t =>
      if Ascii.eqb a c then 0%Z
      else let i := indexOf t c in if (i <? 0)%Z then (-1)%Z else (i + 1)%Z
  end.

(** [s.slice(0, n)] and [s.slice(n)] for [0 <= n]. *)
Fixpoint take (n : nat) (s : string) : string :=
  match n, s with
  | S k, String c t => String c (take k t)
  | _, _ => EmptyString
  end.

Fixpoint drop (n : nat) (s : string) : string :=
  match n, s with
  | S k, String _ t => drop k t
  | _, _ => s
  end.

Definition sliceTo (s : string) (n : Z) : string := take (Z.to_nat n) s.
Definition sliceFrom (s : string) (n : Z) : string := drop (Z.to_nat n) s.

(** The longest prefix of [s] whose characters all satisfy [p], and the
    rest: what a greedy character class [[...]*] consumes. *)
Fixpoint span (p : ascii -> bool) (s : string) : string * string :=
  match s with
  | EmptyString => (EmptyString, EmptyString)
  | String c t =>
      if p c then let '(a, b) := span p t in (String c a, b)
      else (EmptyString, s)
  end.

(** [s.split(sep)] for a non-empty separator: [cur] is the piece being
    read, [skip] the number of separator characters still to pass over. *)
Fixpoint splitFrom (sep : string) (skip : nat) (cur : string) (s : string)
  : list string :=
  match s with
  | EmptyString => [cur]
  | String c t =>
      match skip with
      | S k => splitFrom sep k cur t
      | O =>
          if startsWith s sep
          then cur :: splitFrom sep (String.length sep - 1) EmptyString t
          else splitFrom sep 0 (cur +:+ String c EmptyString) t
      end
  end.

Definition split (s sep : string) : list string :=
  splitFrom sep 0 EmptyString s.

(** Every character of [s] satisfies [p]. *)
Fixpoint allChars (p : ascii -> bool) (s : string) : bool :=
  match s with
  | EmptyString => true
  | String c t => p c && allChars p t
  end.

(** [a || b] on strings: the empty string is falsy. *)
Definition orElse (a b : string) : string :=
  if String.eqb a EmptyString then b else a.

Definition newline : ascii := ascii_of_N 10.
Definition NL : string := String newline EmptyString.

(** *** Facts about the string primitives *)

Lemma append_nil_l (b : string) : EmptyString +:+ b = b.
Proof. reflexivity. Qed.

Lemma append_cons (x : ascii) (a b : string) :
  String x a +:+ b = String x (a +:+ b).
Proof. reflexivity. Qed.

(** [+:+] does not unfold under [simpl]; this pushes it inwards. *)
Ltac push_append := rewrite ?append_cons, ?append_nil_l in *.

Lemma append_assoc (a b c : string) : (a +:+ b) +:+ c = a +:+ (b +:+ c).
Proof. induction a as [|x a IH]; push_append; [|rewrite IH]; reflexivity. Qed.

Lemma append_empty_r (a : string) : a +:+ EmptyString = a.
Proof. induction a as [|x a IH]; push_append; [|rewrite IH]; reflexivity. Qed.

Lemma startsWith_append (s t w : string) :
  startsWith s w = true -> startsWith (s +:+ t) w = true.
Proof.
  revert s. induction w as [|a w IH]; intros s H; [reflexivity|].
  destruct s as [|b s]; [discriminate|]. rewrite append_cons.
  cbn [startsWith] in *.
  destruct (Ascii.eqb a b); simpl in *; [apply IH; exact H|discriminate].
Qed.

Lemma includes_append_r (s t w : string) :
  includes s w = true -> includes (s +:+ t) w = true.
Proof.
  induction s as [|b s IH]; intros H.
  - simpl in H. rewrite orb_false_r in H.
    destruct w; [destruct t; reflexivity|discriminate H].
  - cbn [includes] in H. apply orb_true_iff in H.
    rewrite append_cons. cbn [includes].
    apply orb_true_iff. destruct H as [H|H].
    + left. apply (startsWith_append (String b s) t w H).
    + right. apply IH. exact H.
Qed.

Lemma includes_append_l (s t w : string) :
  includes t w = true -> includes (s +:+ t) w = true.
Proof.
  intros H. induction s as [|b s IH]; [exact H|].
  rewrite append_cons. cbn [includes].
  rewrite IH. apply orb_true_r.
Qed.

(** A one-character needle is absent exactly when no character is it. *)
Lemma includes_char_false (s : string) (c : ascii) :
  includes s (String c EmptyString) = false <->
  allChars (fun a => negb (Ascii.eqb a c)) s = true.
Proof.
  induction s as [|a s IH]; [simpl; tauto|].
  cbn [includes startsWith allChars].
  rewrite orb_false_iff, andb_true_iff, IH, (Ascii.eqb_sym c a).
  destruct s; destruct (Ascii.eqb a c); simpl; intuition congruence.
Qed.

Lemma allChars_append (p : ascii -> bool) (s t : string) :
  allChars p (s +:+ t) = allChars p s && allChars p t.
Proof.
  induction s as [|a s IH]; push_append; [reflexivity|].
  cbn [allChars]. rewrite IH. apply andb_assoc.
Qed.

Lemma allChars_impl (p q : ascii -> bool) (s : string) :
  (forall c, p c = true -> q c = true) ->
  allChars p s = true -> allChars q s = true.
Proof.
  intros Hpq. induction s as [|a s IH]; simpl; [reflexivity|].
  rewrite !andb_true_iff. intros [Ha Hs]. split; auto.
Qed.

(** The greedy run stops exactly at the first character outside the class. *)
Lemma span_append (p : ascii -> bool) (g r : string) :
  allChars p g = true ->
  match r with EmptyString => True | String c _ => p c = false end ->
  span p (g +:+ r) = (g, r).
Proof.
  intros Hg Hr. induction g as [|a g IH]; push_append.
  - destruct r as [|c r]; simpl; [reflexivity|]. rewrite Hr. reflexivity.
  - cbn [allChars] in Hg. apply andb_true_iff in Hg as [Ha Hg].
    cbn [span]. rewrite Ha, (IH Hg). reflexivity.
Qed.

Lemma span_spec (p : ascii -> bool) (s a b : string) :
  span p s = (a, b) ->
  s = a +:+ b /\ allChars p a = true /\
  match b with EmptyString => True | String c _ => p c = false end.
Proof.
  revert a b. induction s as [|c s IH]; intros a b H; simpl in H.
  - injection H as <- <-. simpl. tauto.
  - destruct (p c) eqn:Hc.
    + destruct (span p s) as [a' b'] eqn:Hs. injection H as <- <-.
      destruct (IH a' b' eq_refl) as (-> & Ha & Hb).
      rewrite append_cons. cbn [allChars]. rewrite Hc, Ha. tauto.
    + injection H as <- <-. simpl. rewrite Hc. tauto.
Qed.

Lemma take_append (pre x : string) : take (String.length pre) (pre +:+ x) = pre.
Proof.
  induction pre as [|a pre IH]; push_append; [destruct x; reflexivity|].
  cbn [String.length take]. rewrite IH. reflexivity.
Qed.

Lemma drop_append (pre x : string) : drop (String.length pre) (pre +:+ x) = x.
Proof.
  induction pre as [|a pre IH]; push_append; [destruct x; reflexivity|].
  cbn [String.length drop]. exact IH.
Qed.

Lemma drop_append_S (pre post : string) (c : ascii) :
  drop (S (String.length pre)) (pre +:+ String c post) = post.
Proof.
  induction pre as [|a pre IH]; push_append; [destruct post; reflexivity|].
  cbn [String.length drop]. exact IH.
Qed.

Lemma indexOf_absent (s : string) (c : ascii) :
  includes s (String c EmptyString) = false -> indexOf s c = (-1)%Z.
Proof.
  rewrite includes_char_false.
  induction s as [|a s IH]; simpl; [reflexivity|].
  rewrite andb_true_iff. intros [Ha Hs].
  destruct (Ascii.eqb a c); [discriminate|]. rewrite (IH Hs). reflexivity.
Qed.

Lemma indexOf_first (pre post : string) (c : ascii) :
  includes pre (String c EmptyString) = false ->
  indexOf (pre +:+ String c post) c = Z.of_nat (String.length pre).
Proof.
  rewrite includes_char_false.
  induction pre as [|a pre IH]; intros H.
  - rewrite append_nil_l. simpl. rewrite Ascii.eqb_refl. reflexivity.
  - cbn [allChars] in H. apply andb_true_iff in H as [Ha Hs].
    rewrite append_cons.
    cbn [indexOf String.length]. rewrite (IH Hs).
    destruct (Ascii.eqb a c); [discriminate|].
    destruct (Z.ltb_spec (Z.of_nat (String.length pre)) 0); lia.
Qed.

(** *** Lower-casing and searching *)

Definition isUpperAZ (c : ascii) : bool :=
  let n := N_of_ascii c in ((65 <=? n) && (n <=? 90))%N.

(** No character of a lower-cased text is one of A-Z. *)
Lemma lowerChar_not_upper (c : ascii) : isUpperAZ (lowerChar c) = false.
Proof. destruct c as [[] [] [] [] [] [] [] []]; reflexivity. Qed.

Lemma startsWith_toLowerCase (s w : string) :
  startsWith s w = true -> startsWith (toLowerCase s) (toLowerCase w) = true.
Proof.
  revert s. induction w as [|a w IH]; intros s H; [reflexivity|].
  destruct s as [|b s]; [discriminate H|]. cbn [startsWith toLowerCase] in *.
  apply andb_true_iff in H as [Hab Hs]. apply Ascii.eqb_eq in Hab. subst b.
  rewrite Ascii.eqb_refl. apply IH. exact Hs.
Qed.

Lemma includes_toLowerCase (s w : string) :
  includes s w = true -> includes (toLowerCase s) (toLowerCase w) = true.
Proof.
  induction s as [|b s IH]; intros H.
  - cbn [includes] in H. rewrite orb_false_r in H.
    apply (startsWith_toLowerCase EmptyString w) in H.
    cbn [toLowerCase includes]. rewrite orb_false_r. exact H.
  - cbn [includes] in H. apply orb_true_iff in H. cbn [toLowerCase includes].
    apply orb_true_iff. destruct H as [H|H].
    + left. apply (startsWith_toLowerCase (String b s) w H).
    + right. apply IH. exact H.
Qed.

Lemma startsWith_lowered (s w : string) :
  startsWith (toLowerCase s) w = true ->
  allChars (fun a => negb (isUpperAZ a)) w = true.
Proof.
  revert s. induction w as [|a w IH]; intros s H; [reflexivity|].
  destruct s as [|b s]; [discriminate H|]. cbn [startsWith toLowerCase] in H.
  apply andb_true_iff in H as [Hab Hs]. apply Ascii.eqb_eq in Hab. subst a.
  cbn [allChars]. rewrite lowerChar_not_upper, (IH s Hs). reflexivity.
Qed.

Lemma includes_lowered (s w : string) :
  includes (toLowerCase s) w = true ->
  allChars (fun a => negb (isUpperAZ a)) w = true.
Proof.
  induction s as [|b s IH]; cbn [toLowerCase includes]; intros H.
  - rewrite orb_false_r in H. apply (startsWith_lowered EmptyString w H).
  - apply orb_true_iff in H as [H|H]; [|apply IH; exact H].
    apply (startsWith_lowered (String b s) w H).
Qed.

Lemma startsWith_prefix (s w x : string) :
  startsWith s (w +:+ x) = true -> startsWith s w = true.
Proof.
  revert s. induction w as [|a w IH]; intros s H; [reflexivity|].
  rewrite append_cons in H. destruct s as [|b s]; [discriminate H|].
  cbn [startsWith] in *. apply andb_true_iff in H as [Hab Hs].
  rewrite Hab. apply IH. exact Hs.
Qed.

Lemma includes_prefix (s w x : string) :
  includes s (w +:+ x) = true -> includes s w = true.
Proof.
  induction s as [|b s IH]; cbn [includes]; intros H.
  - rewrite orb_false_r in *. apply (startsWith_prefix _ _ x H).
  - apply orb_true_iff in H. apply orb_true_iff. destruct H as [H|H].
    + left. apply (startsWith_prefix _ _ x H).
    + right. apply IH. exact H.
Qed.

(** *** Parts of a text *)

Lemma startsWith_append_self (w b : string) : startsWith (w +:+ b) w = true.
Proof.
  induction w as [|a w IH]; [reflexivity|].
  rewrite append_cons. cbn [startsWith]. rewrite Ascii.eqb_refl. exact IH.
Qed.

Lemma startsWith_decompose (s w : string) :
  startsWith s w = true -> exists b, s = w +:+ b.
Proof.
  revert s. induction w as [|a w IH]; intros s H; [exists s; reflexivity|].
  destruct s as [|c s]; [discriminate H|]. cbn [startsWith] in H.
  apply andb_true_iff in H as [Hac Hs]. apply Ascii.eqb_eq in Hac. subst c.
  destruct (IH s Hs) as [b ->]. exists b. reflexivity.
Qed.

(** [s.includes(w)] holds exactly when [w] is a part of [s]. *)
Lemma includes_infix (s w : string) :
  includes s w = true <-> exists a b, s = a +:+ w +:+ b.
Proof.
  split.
  - induction s as [|c s IH]; cbn [includes]; intros H.
    + rewrite orb_false_r in H. destruct (startsWith_decompose _ _ H) as [b Hb].
      exists EmptyString, b. exact Hb.
    + apply orb_true_iff in H as [H|H].
      * destruct (startsWith_decompose _ _ H) as [b Hb].
        exists EmptyString, b. exact Hb.
      * destruct (IH H) as (a & b & ->). exists (String c a), b. reflexivity.
  - intros (a & b & ->). apply includes_append_l.
    destruct (w +:+ b) eqn:E; cbn [includes]; rewrite <- E;
      rewrite startsWith_append_self; reflexivity.
Qed.

Lemma includes_trans (s t w : string) :
  includes s t = true -> includes t w = true -> includes s w = true.
Proof.
  rewrite !includes_infix. intros (a & b & ->) (c & d & ->).
  exists (a +:+ c), (d +:+ b). rewrite !append_assoc. reflexivity.
Qed.

Lemma includes_refl (s : string) : includes s s = true.
Proof.
  apply includes_infix. exists EmptyString, EmptyString.
  rewrite append_empty_r. reflexivity.
Qed.

Lemma take_drop (n : nat) (s : string) : take n s +:+ drop n s = s.
Proof.
  revert n. induction s as [|c s IH]; intros [|n]; try reflexivity.
  cbn [take drop]. rewrite append_cons, IH. reflexivity.
Qed.

Lemma includes_take (n : nat) (s : string) : includes s (take n s) = true.
Proof.
  apply includes_infix. exists EmptyString, (drop n s).
  rewrite append_nil_l, take_drop. reflexivity.
Qed.

Lemma includes_drop (n : nat) (s : string) : includes s (drop n s) = true.
Proof.
  apply includes_infix. exists (take n s), EmptyString.
  rewrite append_empty_r, take_drop. reflexivity.
Qed.

Lemma trimStart_suffix (s : string) : exists a, s = a +:+ trimStart s.
Proof.
  induction s as [|c s IH]; [exists EmptyString; reflexivity|].
  cbn [trimStart]. destruct (isWhiteSpace c).
  - destruct IH as [a Ha]. exists (String c a). rewrite append_cons, <- Ha.
    reflexivity.
  - exists EmptyString. reflexivity.
Qed.

Lemma trimEnd_prefix (s : string) : exists b, s = trimEnd s +:+ b.
Proof.
  induction s as [|c s IH]; [exists EmptyString; reflexivity|].
  destruct IH as [b Hb]. cbn [trimEnd]. destruct (trimEnd s) as [|d r] eqn:E.
  - destruct (isWhiteSpace c).
    + exists (String c s). reflexivity.
    + exists s. reflexivity.
  - exists b. rewrite append_cons, <- Hb. reflexivity.
Qed.

Lemma includes_trim (s : string) : includes s (trim s) = true.
Proof.
  unfold trim. apply includes_infix.
  destruct (trimStart_suffix s) as [a Ha].
  destruct (trimEnd_prefix (trimStart s)) as [b Hb].
  exists a, b. rewrite <- Hb. exact Ha.
Qed.

(** Every piece of a split is a part of the text. *)
Lemma splitFrom_infix (sep s : string) :
  forall (skip : nat) (cur : string),
    (skip <> 0%nat -> cur = EmptyString) ->
    Forall (fun piece => includes (cur +:+ s) piece = true)
           (splitFrom sep skip cur s).
Proof.
  induction s as [|c t IH]; intros skip cur Hk.
  - constructor; [|constructor]. rewrite append_empty_r. apply includes_refl.
  - cbn [splitFrom]. destruct skip as [|k].
    + destruct (startsWith (String c t) sep).
      * constructor.
        -- apply includes_infix. exists EmptyString, (String c t). reflexivity.
        -- specialize (IH (String.length sep - 1)%nat EmptyString (fun _ => eq_refl)).
           rewrite append_nil_l in IH.
           eapply Forall_impl; [exact IH|]. intros piece Hp. cbn beta in Hp |- *.
           apply (includes_trans _ t); [|exact Hp].
           apply includes_infix. exists (cur +:+ String c EmptyString), EmptyString.
           rewrite append_empty_r, append_assoc. reflexivity.
      * specialize (IH 0%nat (cur +:+ String c EmptyString)
                       (fun H => False_ind _ (H eq_refl))).
        rewrite append_assoc in IH. exact IH.
    + rewrite (Hk (Nat.neq_succ_0 k)), append_nil_l.
      specialize (IH k EmptyString (fun _ => eq_refl)). rewrite append_nil_l in IH.
      eapply Forall_impl; [exact IH|]. intros piece Hp. cbn beta in Hp |- *.
      cbn [includes]. rewrite Hp. apply orb_true_r.
Qed.

Lemma split_infix (s sep piece : string) :
  In piece (split s sep) -> includes s piece = true.
Proof.
  intros H. pose proof (splitFrom_infix sep s 0 EmptyString
                          (fun H => False_ind _ (H eq_refl))) as Hf.
  rewrite append_nil_l in Hf. rewrite List.Forall_forall in Hf.
  apply Hf. exact H.
Qed.

Lemma drop_drop (n m : nat) (s : string) : drop n (drop m s) = drop (m + n) s.
Proof.
  revert s. induction m as [|m IH]; intros s; [reflexivity|].
  destruct s as [|c s]; [destruct n; reflexivity|]. cbn [drop Nat.add]. apply IH.
Qed.

Lemma startsWith_take (s w : string) :
  startsWith s w = true -> take (String.length w) s = w.
Proof.
  intros H. destruct (startsWith_decompose s w H) as [b ->]. apply take_append.
Qed.

Lemma length_of_append (a b : string) :
  String.length (a +:+ b) = (String.length a + String.length b)%nat.
Proof.
  induction a as [|x a IH]; push_append; [reflexivity|].
  cbn [String.length]. rewrite IH. reflexivity.
Qed.

Lemma append_inj_r (a b x : string) : a +:+ x = b +:+ x -> a = b.
Proof.
  revert b. induction a as [|c a IH]; intros b H.
  - destruct b as [|d b]; [reflexivity|].
    apply (f_equal String.length) in H. rewrite append_cons in H.
    cbn [String.length] in H. rewrite append_nil_l, length_of_append in H. lia.
  - destruct b as [|d b].
    + apply (f_equal String.length) in H. rewrite append_cons in H.
      cbn [String.length] in H. rewrite append_nil_l, length_of_append in H. lia.
    + rewrite !append_cons in H. injection H as -> H. rewrite (IH b H). reflexivity.
Qed.

(** *** Lower-casing and slices *)

Lemma toLowerCase_append (a b : string) :
  toLowerCase (a +:+ b) = toLowerCase a +:+ toLowerCase b.
Proof.
  induction a as [|c a IH]; push_append; [reflexivity|].
  cbn [toLowerCase]. rewrite IH, append_cons. reflexivity.
Qed.

Lemma toLowerCase_length (s : string) :
  String.length (toLowerCase s) = String.length s.
Proof. induction s as [|c s IH]; [reflexivity|]. cbn. rewrite IH. reflexivity. Qed.

Lemma toLowerCase_split (s a b : string) :
  toLowerCase s = a +:+ b ->
  exists a' b', s = a' +:+ b' /\ toLowerCase a' = a /\ toLowerCase b' = b.
Proof.
  revert s. induction a as [|c a IH]; intros s H.
  - exists EmptyString, s. rewrite append_nil_l in H. repeat split. exact H.
  - destruct s as [|d s]; [rewrite append_cons in H; discriminate H|].
    rewrite append_cons in H. cbn [toLowerCase] in H. injection H as Hc H.
    destruct (IH s H) as (a' & b' & -> & Ha & Hb).
    exists (String d a'), b'. rewrite append_cons. cbn [toLowerCase].
    rewrite Hc, Ha. repeat split. exact Hb.
Qed.

(** What the lower-cased text includes is the lower-casing of something
    the text includes. *)
Lemma includes_toLowerCase_inv (s w : string) :
  includes (toLowerCase s) w = true ->
  exists w', includes s w' = true /\ toLowerCase w' = w.
Proof.
  intros H. apply includes_infix in H as (a & b & H).
  apply toLowerCase_split in H as (a' & r & -> & _ & H).
  apply toLowerCase_split in H as (w' & b' & -> & Hw & _).
  exists w'. split; [|exact Hw]. apply includes_infix. exists a', b'. reflexivity.
Qed.

(** The pieces of a text split at a character do not hold the character. *)
Lemma splitFrom_char (x : ascii) (s cur : string) :
  allChars (fun a => negb (Ascii.eqb a x)) cur = true ->
  Forall (fun piece => allChars (fun a => negb (Ascii.eqb a x)) piece = true)
         (splitFrom (String x EmptyString) 0 cur s).
Proof.
  revert cur. induction s as [|c t IH]; intros cur Hc.
  - constructor; [exact Hc|constructor].
  - cbn [splitFrom startsWith String.length Nat.sub].
    destruct (Ascii.eqb_spec x c) as [Hx|Hx]; cbn [andb].
    + constructor; [exact Hc|]. apply IH. reflexivity.
    + apply IH. rewrite allChars_append, Hc. cbn [allChars].
      destruct (Ascii.eqb_spec c x) as [He|_]; [symmetry in He; contradiction|].
      reflexivity.
Qed.

Lemma split_char (x : ascii) (s piece : string) :
  In piece (split s (String x EmptyString)) ->
  includes piece (String x EmptyString) = false.
Proof.
  intros H. apply includes_char_false.
  pose proof (splitFrom_char x s EmptyString eq_refl) as Hf.
  rewrite Forall_forall in Hf. apply Hf, list_elem_of_In. exact H.
Qed.

Lemma allChars_trim (p : ascii -> bool) (s : string) :
  allChars p s = true -> allChars p (trim s) = true.
Proof.
  intros H. unfold trim.
  destruct (trimStart_suffix s) as [a Ha]. rewrite Ha, allChars_append in H.
  apply andb_true_iff in H as [_ H].
  destruct (trimEnd_prefix (trimStart s)) as [b Hb].
  rewrite Hb, allChars_append in H. apply andb_true_iff in H as [H _]. exact H.
Qed.

End JS.

(* ===================================================================== *)
(** ** The Item Extractor: [parseReleaseNotes] *)
(* ===================================================================== *)

Module Extractor.
Import JS.

(** One element of [releaseData]. *)
Record Release := mkRelease {
  version : string;
  releaseDate : string;
  changes : list string
}.

(** What the cheerio queries of [parseReleaseNotes] read from one loaded
    document: the text of the first [#release-notes h2], the text of
    [p:contains('Release date:')], and the inner HTML of every
    [.itemizedlist ul li.listitem] once the section-mark anchors are
    removed. *)
Record Document := mkDocument {
  heading : string;
  dateParagraph : string;
  listItems : list string
}.

Definition dquote : ascii := ascii_of_N 34.
Definition hrefOpen : string := "href=" +:+ String dquote EmptyString.

(** The replacement of [processText], on every [href] attribute with a
    non-empty value.  At a position where [href=] and a double quote
    start, the group is the longest run of characters other than the
    double quote; the pattern matches when that run is not empty and a
    double quote follows it.  [skip] counts the characters of a match
    still to pass over. *)
Fixpoint processTextFrom (baseUrl : string) (skip : nat) (text : string)
  : string :=
  match text with
  | EmptyString => EmptyString
  | String c t =>
      match skip with
      | S k => processTextFrom baseUrl k t
      | O =>
          let '(p1, rest) := span (fun a => negb (Ascii.eqb a dquote)) (drop 5 t) in
          if startsWith text hrefOpen && negb (String.eqb p1 EmptyString)
             && startsWith rest (String dquote EmptyString)
          then
            (if negb (startsWith p1 "http") && negb (startsWith p1 "#")
             then hrefOpen +:+ baseUrl +:+ p1 +:+ String dquote EmptyString
             else hrefOpen +:+ p1 +:+ String dquote EmptyString)
            +:+ processTextFrom baseUrl (5 + String.length p1 + 1) t
          else String c (processTextFrom baseUrl 0 t)
      end
  end.

Definition processText (text baseUrl : string) : string :=
  processTextFrom baseUrl 0 text.

(** The suffix of [s] that starts at its last dot. *)
Fixpoint lastDotSuffix (s : string) : option string :=
  match s with
  | EmptyString => None
  | String c t =>
      match lastDotSuffix t with
      | Some e => Some e
      | None => if Ascii.eqb c "." then Some s else None
      end
  end.

(** Node's [path.extname] on a directory entry (a name without a slash):
    the name from its last dot on; empty when there is no dot, when the
    last dot is the first character, and for the entry [..]. *)
Definition extname (file : string) : string :=
  match file with
  | EmptyString => EmptyString
  | String _ rest =>
      if String.eqb file ".." then EmptyString
      else match lastDotSuffix rest with
           | Some e => e
           | None => EmptyString
           end
  end.

(** The test of the loop: [path.extname(file) === ".html" && file !== "index.html"]. *)
Definition isReleaseFile (file : string) : bool :=
  String.eqb (extname file) ".html" && negb (String.eqb file "index.html").

Section Parse.

(** [NodeHtmlMarkdown.translate]. *)
Variable translate : string -> string.

(** The cache directory: what [fs.readFile], [cheerio.load] and the three
    queries give for the file of a given name. *)
Variable readDocument : string -> Document.

(** The body of the loop for one document.  [None] is the [TypeError] of
    [split(":")[1].trim()] on a date paragraph without a colon. *)
Definition parseDocument (d : Document) : option Release :=
  let version := List.last (split (trim (heading d)) " ") EmptyString in
  let baseUrl :=
    "https://www.postgresql.org/docs/" +:+ List.hd EmptyString (split version ".") +:+ "/" in
  match List.nth_error (split (dateParagraph d) ":") 1 with
  | None => None
  | Some date =>
      Some (mkRelease version (trim date)
              (List.map (fun html => translate (processText (trim html) baseUrl))
                        (listItems d)))
  end.

(** [for (const file of files)]: the files are taken in the order of the
    array [fs.readdir] returned. *)
Fixpoint parseLoop (files : list string) (releaseData : list Release)
  : option (list Release) :=
  match files with
  | [] => Some releaseData
  | file :: rest =>
      if isReleaseFile file then
        match parseDocument (readDocument file) with
        | Some release => parseLoop rest (releaseData ++ [release])
        | None => None
        end
      else parseLoop rest releaseData
  end.

(** [parseReleaseNotes], given the listing [fs.readdir] returned. *)
Definition parseReleaseNotes (files : list string) : option (list Release) :=
  parseLoop files [].

End Parse.

(** A cache of two documents. *)
Definition cache_16 (file : string) : Document :=
  if String.eqb file "16.0.html"
  then mkDocument "Release 16.0" "Release date: 2023-09-14" ["Add new feature"]
  else if String.eqb file "16.1.html"
  then mkDocument "Release 16.1" "Release date: 2023-11-09" ["Fix crash in parser (Carol)"]
  else mkDocument "" "" [].

(** *** Properties of the extractor *)

Section ParseFacts.

Variable translate : string -> string.
Variable readDocument : string -> Document.

(** The loop is a left-to-right traversal of the release files of the
    listing. *)
Lemma parseLoop_mapM (files : list string) (acc : list Release) :
  parseLoop translate readDocument files acc =
  match mapM (fun file => parseDocument translate (readDocument file))
             (List.filter isReleaseFile files) with
  | Some releases => Some (acc ++ releases)
  | None => None
  end.
Proof.
  revert acc. induction files as [|file rest IH]; intros acc; simpl.
  - rewrite app_nil_r. reflexivity.
  - destruct (isReleaseFile file); [|apply IH].
    cbn [mapM mbind option_bind].
    destruct (parseDocument translate (readDocument file)) as [release|];
      [|reflexivity].
    rewrite IH.
    destruct (mapM _ (List.filter isReleaseFile rest)); simpl;
      [rewrite <- app_assoc|]; reflexivity.
Qed.

Lemma filter_Permutation {A} (f : A -> bool) (l1 l2 : list A) :
  l1 ≡ₚ l2 -> List.filter f l1 ≡ₚ List.filter f l2.
Proof.
  induction 1 as [|x l1 l2 _ IH|x y l|l1 l2 l3 _ IH1 _ IH2]; simpl.
  - reflexivity.
  - destruct (f x); [constructor|]; exact IH.
  - destruct (f x), (f y); try reflexivity. apply perm_swap.
  - etransitivity; eassumption.
Qed.

Lemma mapM_Permutation {A B} (f : A -> option B) (l1 l2 : list A) (k1 : list B) :
  l1 ≡ₚ l2 -> mapM f l1 = Some k1 ->
  exists k2, mapM f l2 = Some k2 /\ k1 ≡ₚ k2.
Proof.
  intros Hp. revert k1.
  induction Hp as [|x l1 l2 _ IH|x y l|l1 l2 l3 _ IH1 _ IH2]; intros k1 Hk.
  - exists k1. split; [exact Hk|reflexivity].
  - cbn [mapM] in *. destruct (f x) as [b|]; simpl in *; [|discriminate].
    destruct (mapM f l1) as [k|] eqn:Hl; simpl in *; [|discriminate].
    destruct (IH k eq_refl) as (k2 & -> & Hk2). simpl.
    injection Hk as <-. exists (b :: k2). split; [reflexivity|].
    constructor. exact Hk2.
  - cbn [mapM] in *.
    destruct (f y) as [b|]; simpl in *; [|discriminate].
    destruct (f x) as [a|]; simpl in *; [|discriminate].
    destruct (mapM f l) as [k|]; simpl in *; [|discriminate].
    injection Hk as <-. exists (a :: b :: k). split; [reflexivity|].
    apply perm_swap.
  - destruct (IH1 k1 Hk) as (k2 & H2 & P2).
    destruct (IH2 k2 H2) as (k3 & H3 & P3).
    exists k3. split; [exact H3|]. etransitivity; eassumption.
Qed.

End ParseFacts.

(** C2 as stated fails: the cached documents [16.0.html] and [16.1.html]
    listed in two orders give two different outputs, whatever the markdown
    converter is. *)
Lemma parseReleaseNotes_order_counterexample :
  ["16.1.html"; "16.0.html"] ≡ₚ ["16.0.html"; "16.1.html"] /\
  ~ (exists translate : string -> string,
       parseReleaseNotes translate cache_16 ["16.1.html"; "16.0.html"] =
       parseReleaseNotes translate cache_16 ["16.0.html"; "16.1.html"]).
Proof.
  split; [apply perm_swap|].
  intros [translate H]. cbv in H. discriminate H.
Qed.

(** C2, amended.  [parseReleaseNotes] takes the documents in the order of
    the directory listing it is given and sorts nothing: its output is the
    left-to-right traversal of the release files of the listing.  So two
    listings that are permutations of each other over the same cache give
    outputs that are permutations of each other (the same releases, each
    in its listing's order), and identical outputs when both listings are
    in lexical order. *)
Theorem parseReleaseNotes_listing_order
    (translate : string -> string) (readDocument : string -> Document) :
  (forall files : list string,
     parseReleaseNotes translate readDocument files =
     mapM (fun file => parseDocument translate (readDocument file))
          (List.filter isReleaseFile files))
  /\ (forall (files1 files2 : list string) (out1 : list Release),
        files1 ≡ₚ files2 ->
        parseReleaseNotes translate readDocument files1 = Some out1 ->
        exists out2, parseReleaseNotes translate readDocument files2 = Some out2
                     /\ out1 ≡ₚ out2)
  /\ (forall files1 files2 : list string,
        files1 ≡ₚ files2 ->
        Sorted String.le files1 -> Sorted String.le files2 ->
        parseReleaseNotes translate readDocument files1 =
        parseReleaseNotes translate readDocument files2).
Proof.
  assert (Hmap : forall files : list string,
     parseReleaseNotes translate readDocument files =
     mapM (fun file => parseDocument translate (readDocument file))
          (List.filter isReleaseFile files)).
  { intros files. unfold parseReleaseNotes. rewrite parseLoop_mapM.
    destruct (mapM _ _); reflexivity. }
  split; [exact Hmap|split].
  - intros files1 files2 out1 Hp H1. rewrite Hmap in H1. rewrite Hmap.
    eapply mapM_Permutation; [|exact H1].
    apply filter_Permutation. exact Hp.
  - intros files1 files2 Hp S1 S2.
    rewrite (Sorted_unique String.le files1 files2 S1 S2 Hp). reflexivity.
Qed.

(** The theorem at the cache [cache_16]: the listing in reverse lexical
    order succeeds, so the lexically ordered one does, with the same two
    releases. *)
Lemma parseReleaseNotes_listing_order_witness :
  exists out2,
    parseReleaseNotes (fun s => s) cache_16 ["16.0.html"; "16.1.html"] = Some out2
    /\ [mkRelease "16.1" "2023-11-09" ["Fix crash in parser (Carol)"];
        mkRelease "16.0" "2023-09-14" ["Add new feature"]] ≡ₚ out2.
Proof.
  apply (proj1 (proj2 (parseReleaseNotes_listing_order (fun s => s) cache_16))
           ["16.1.html"; "16.0.html"] ["16.0.html"; "16.1.html"]).
  - apply perm_swap.
  - reflexivity.
Defined.

(** *** A document without a release date *)

Lemma splitFrom_absent (c : ascii) (s cur : string) :
  includes s (String c EmptyString) = false ->
  splitFrom (String c EmptyString) 0 cur s = [cur +:+ s].
Proof.
  revert cur. induction s as [|a s IH]; intros cur H.
  - rewrite append_empty_r. reflexivity.
  - cbn [includes] in H. apply orb_false_iff in H as [Hs Hi].
    cbn [splitFrom]. rewrite Hs, (IH _ Hi), append_assoc. reflexivity.
Qed.

Lemma parseDocument_no_colon (translate : string -> string) (d : Document) :
  includes (dateParagraph d) ":" = false -> parseDocument translate d = None.
Proof.
  intros H. unfold parseDocument, split.
  rewrite (splitFrom_absent ":" (dateParagraph d) EmptyString H). reflexivity.
Qed.

(** When the date paragraph of one release file of the listing has no
    colon (in particular when the document has no such paragraph and the
    text is empty), the exception of that document leaves the loop and
    [parseReleaseNotes] returns nothing for the whole listing. *)
Theorem parseReleaseNotes_aborts (translate : string -> string)
    (readDocument : string -> Document) (files : list string) (file : string) :
  In file files -> isReleaseFile file = true ->
  includes (dateParagraph (readDocument file)) ":" = false ->
  parseReleaseNotes translate readDocument files = None.
Proof.
  intros Hin Hr Hc. unfold parseReleaseNotes. rewrite parseLoop_mapM.
  assert (Hn : mapM (fun f => parseDocument translate (readDocument f))
                    (List.filter isReleaseFile files) = None).
  { apply mapM_None. apply Exists_exists. exists file. split.
    - apply list_elem_of_In, List.filter_In. split; assumption.
    - apply parseDocument_no_colon. exact Hc. }
  rewrite Hn. reflexivity.
Qed.

Lemma parseReleaseNotes_aborts_witness :
  parseReleaseNotes (fun s => s) cache_16 ["16.0.html"; "17.0.html"; "16.1.html"]
  = None.
Proof.
  apply (parseReleaseNotes_aborts (fun s => s) cache_16 _ "17.0.html").
  - simpl. right. left. reflexivity.
  - reflexivity.
  - reflexivity.
Defined.

(** *** The names of the release files *)

Lemma lastDotSuffix_html (u : string) : lastDotSuffix (u +:+ ".html") = Some ".html".
Proof.
  induction u as [|a u IH]; [reflexivity|].
  rewrite append_cons. cbn [lastDotSuffix]. rewrite IH. reflexivity.
Qed.

Lemma extname_html (a : ascii) (u : string) :
  extname (String a (u +:+ ".html")) = ".html".
Proof.
  unfold extname. rewrite lastDotSuffix_html.
  assert (H : String.eqb (String a (u +:+ ".html")) ".." = false).
  { apply String.eqb_neq. intros H. apply (f_equal String.length) in H.
    cbn [String.length] in H. rewrite length_of_append in H.
    cbn [String.length] in H. lia. }
  rewrite H. reflexivity.
Qed.

(** The loop reads the file [name.html] of the cache as a release exactly
    when [name] is not empty and is not "index" (for a name without
    slash); in particular [index.html] and a file named [.html] are never
    read as releases. *)
Theorem release_file_names (name : string) :
  includes name "/" = false ->
  isReleaseFile (name +:+ ".html") =
  negb (String.eqb name EmptyString) && negb (String.eqb name "index").
Proof.
  intros _. destruct name as [|a u]; [reflexivity|].
  unfold isReleaseFile. rewrite append_cons, extname_html, String.eqb_refl.
  change (String.eqb (String a u) EmptyString) with false.
  cbn [andb negb]. rewrite <- append_cons. f_equal.
  destruct (String.eqb_spec (String a u) "index") as [->|Hne]; [reflexivity|].
  apply String.eqb_neq. intros H. apply Hne.
  apply (append_inj_r _ "index" ".html"). exact H.
Qed.

Lemma release_file_names_witness :
  isReleaseFile ("16.4" +:+ ".html") = true.
Proof. rewrite (release_file_names "16.4"); reflexivity. Defined.

(** *** The [href] attributes that [processText] rewrites *)

Definition notQuote (a : ascii) : bool := negb (Ascii.eqb a dquote).

(** The pattern of [processText] tried at the start of [text]; the result
    is the group, the value of the attribute. *)
Definition hrefHere (text : string) : option string :=
  match text with
  | EmptyString => None
  | String c t =>
      let '(p1, rest) := span notQuote (drop 5 t) in
      if startsWith text hrefOpen && negb (String.eqb p1 EmptyString)
         && startsWith rest (String dquote EmptyString)
      then Some p1 else None
  end.

(** The values of the [href] attributes that the pattern finds in [text],
    from left to right, as the [g] flag finds them. *)
Fixpoint hrefValuesFrom (skip : nat) (text : string) : list string :=
  match text with
  | EmptyString => []
  | String c t =>
      match skip with
      | S k => hrefValuesFrom k t
      | O =>
          match hrefHere text with
          | Some p1 => p1 :: hrefValuesFrom (5 + String.length p1 + 1) t
          | None => hrefValuesFrom 0 t
          end
      end
  end.

Definition hrefValues (text : string) : list string := hrefValuesFrom 0 text.

(** The value that [processText] puts in the place of the value [p1]. *)
Definition absoluteHref (baseUrl p1 : string) : string :=
  if negb (startsWith p1 "http") && negb (startsWith p1 "#")
  then baseUrl +:+ p1 else p1.

(** A value that the pattern accepts. *)
Definition validHref (p1 : string) : Prop :=
  allChars notQuote p1 = true /\ p1 <> EmptyString.

Lemma take_append_le (n : nat) (pre x : string) :
  (n <= String.length pre)%nat -> take n (pre +:+ x) = take n pre.
Proof.
  revert n. induction pre as [|a pre IH]; intros n Hn.
  - cbn [String.length] in Hn. replace n with 0%nat by lia.
    rewrite append_nil_l. destruct x; reflexivity.
  - destruct n as [|n]; [reflexivity|]. rewrite append_cons. cbn [take].
    rewrite IH; [reflexivity|cbn [String.length] in Hn; lia].
Qed.

Lemma startsWith_of_take (w s1 s2 : string) :
  take (String.length w) s1 = take (String.length w) s2 ->
  startsWith s1 w = startsWith s2 w.
Proof.
  revert s1 s2. induction w as [|a w IH]; intros s1 s2 H; [reflexivity|].
  cbn [String.length] in H.
  destruct s1 as [|b1 s1], s2 as [|b2 s2]; cbn [take] in H;
    try discriminate H; [reflexivity|].
  injection H as -> H. cbn [startsWith]. rewrite (IH s1 s2 H). reflexivity.
Qed.

Lemma take_take (n m : nat) (s : string) :
  (n <= m)%nat -> take n (take m s) = take n s.
Proof.
  revert n m. induction s as [|c s IH]; intros n m H.
  - destruct n, m; reflexivity.
  - destruct n as [|n]; [destruct m; reflexivity|].
    destruct m as [|m]; [lia|]. cbn [take]. rewrite IH; [reflexivity|lia].
Qed.

Lemma hrefOpen_append (x : string) :
  hrefOpen +:+ x =
  String "h" (String "r" (String "e" (String "f" (String "=" (String dquote x))))).
Proof. reflexivity. Qed.

Lemma hrefOpen_chars :
  hrefOpen =
  String "h" (String "r" (String "e" (String "f" (String "="
    (String dquote EmptyString))))).
Proof. reflexivity. Qed.

Lemma hrefHere_valid (p1 after : string) :
  validHref p1 ->
  hrefHere (hrefOpen +:+ p1 +:+ String dquote after) = Some p1.
Proof.
  intros [Hq Hne]. pose proof (startsWith_append_self hrefOpen
                                 (p1 +:+ String dquote after)) as Hw.
  rewrite hrefOpen_append in Hw |- *. cbn [hrefHere drop].
  rewrite (span_append notQuote p1 (String dquote after) Hq eq_refl), Hw.
  destruct (String.eqb_spec p1 EmptyString) as [He|_]; [contradiction|].
  cbn [andb negb startsWith]. rewrite Ascii.eqb_refl. reflexivity.
Qed.

Lemma hrefHere_inv (text p1 : string) :
  hrefHere text = Some p1 ->
  exists after, text = hrefOpen +:+ p1 +:+ String dquote after /\ validHref p1.
Proof.
  destruct text as [|c t]; [discriminate|]. unfold hrefHere.
  destruct (span notQuote (drop 5 t)) as [p r] eqn:Hs.
  apply span_spec in Hs as (Hd & Hp & _).
  destruct (startsWith (String c t) hrefOpen) eqn:Hw; [|discriminate].
  destruct (String.eqb_spec p EmptyString) as [He|Hne]; [discriminate|].
  cbn [andb negb]. destruct r as [|e after]; [discriminate|].
  cbn [startsWith]. destruct (Ascii.eqb_spec dquote e) as [<-|_]; [|discriminate].
  intros H. injection H as <-. exists after. split; [|split; assumption].
  destruct (startsWith_decompose _ _ Hw) as [b Hb]. rewrite Hb.
  f_equal. rewrite <- Hd.
  rewrite hrefOpen_append in Hb. injection Hb as _ ->. reflexivity.
Qed.

Lemma hrefHere_other (c : ascii) (t : string) :
  c <> "h"%char -> hrefHere (String c t) = None.
Proof.
  intros Hc. unfold hrefHere. destruct (span notQuote (drop 5 t)) as [p r].
  rewrite hrefOpen_chars. cbn [startsWith].
  destruct (Ascii.eqb_spec "h" c) as [<-|_]; [contradiction|reflexivity].
Qed.

Lemma hrefHere_includes (text p1 : string) :
  hrefHere text = Some p1 -> includes text hrefOpen = true.
Proof.
  intros H. destruct (hrefHere_inv text p1 H) as (after & -> & _).
  apply includes_append_r, includes_refl.
Qed.

Lemma hrefHere_quote (text p1 : string) :
  hrefHere text = Some p1 -> allChars notQuote text = false.
Proof.
  intros H. destruct (hrefHere_inv text p1 H) as (after & -> & _).
  rewrite hrefOpen_append. cbn [allChars].
  change (notQuote dquote) with false. rewrite !andb_false_r. reflexivity.
Qed.

Section Process.

Variable baseUrl : string.

Let P (text : string) : string := processText text baseUrl.

Lemma processText_skip (n : nat) (text : string) :
  processTextFrom baseUrl n text = P (drop n text).
Proof.
  revert n. induction text as [|c t IH]; intros n.
  - destruct n; reflexivity.
  - destruct n as [|k]; [reflexivity|]. cbn [processTextFrom drop]. apply IH.
Qed.

Lemma P_none (c : ascii) (t : string) :
  hrefHere (String c t) = None -> P (String c t) = String c (P t).
Proof.
  unfold P, processText, hrefHere. cbn [processTextFrom].
  fold notQuote. destruct (span notQuote (drop 5 t)) as [p r].
  destruct (startsWith (String c t) hrefOpen && negb (String.eqb p EmptyString)
            && startsWith r (String dquote EmptyString)); [discriminate|reflexivity].
Qed.

Lemma processTextFrom_step (c : ascii) (t : string) :
  processTextFrom baseUrl 0 (String c t) =
  match hrefHere (String c t) with
  | Some p1 =>
      (hrefOpen +:+ absoluteHref baseUrl p1 +:+ String dquote EmptyString) +:+
      processTextFrom baseUrl (5 + String.length p1 + 1) t
  | None => String c (processTextFrom baseUrl 0 t)
  end.
Proof.
  unfold hrefHere. cbn [processTextFrom]. fold notQuote.
  destruct (span notQuote (drop 5 t)) as [p r].
  destruct (startsWith (String c t) hrefOpen && negb (String.eqb p EmptyString)
            && startsWith r (String dquote EmptyString)); [|reflexivity].
  unfold absoluteHref.
  destruct (negb (startsWith p "http") && negb (startsWith p "#"));
    rewrite <- ?append_assoc; reflexivity.
Qed.

(** A match is replaced and the scan goes on after its closing quote. *)
Lemma P_match (p1 after : string) :
  validHref p1 ->
  P (hrefOpen +:+ p1 +:+ String dquote after) =
  (hrefOpen +:+ absoluteHref baseUrl p1 +:+ String dquote EmptyString) +:+ P after.
Proof.
  intros Hv. pose proof (hrefHere_valid p1 after Hv) as Hh.
  unfold P, processText.
  rewrite (hrefOpen_append (p1 +:+ String dquote after)) in Hh |- *.
  rewrite processTextFrom_step, Hh, processText_skip. f_equal.
  cbn [drop Nat.add]. replace (String.length p1 + 1)%nat
    with (S (String.length p1)) by lia.
  rewrite drop_append_S. reflexivity.
Qed.

Lemma P_noquote (text : string) : allChars notQuote text = true -> P text = text.
Proof.
  induction text as [|c t IH]; [reflexivity|]. intros H.
  rewrite P_none.
  - rewrite IH; [reflexivity|]. cbn [allChars] in H.
    apply andb_true_iff in H as [_ H]. exact H.
  - destruct (hrefHere (String c t)) as [p1|] eqn:Hl; [|reflexivity].
    apply hrefHere_quote in Hl. rewrite Hl in H. discriminate H.
Qed.

(** The first six characters of a text are those of its rewriting. *)
Lemma P_take (n : nat) (text : string) :
  (n <= 6)%nat -> take n (P text) = take n text.
Proof.
  revert n. induction text as [|c t IH]; intros n Hn; [reflexivity|].
  destruct (hrefHere (String c t)) as [p1|] eqn:Hl.
  - destruct (hrefHere_inv _ _ Hl) as (after & -> & Hv).
    rewrite (P_match p1 after Hv), !append_assoc.
    rewrite !take_append_le; [reflexivity|exact Hn|exact Hn].
  - rewrite (P_none c t Hl). destruct n as [|n]; [reflexivity|].
    cbn [take]. rewrite IH; [reflexivity|lia].
Qed.

(** Where the pattern does not match, it does not match after the rest of
    the text has been rewritten. *)
Lemma hrefHere_none_stable (c : ascii) (t : string) :
  hrefHere (String c t) = None -> hrefHere (String c (P t)) = None.
Proof.
  intros Hn.
  destruct (startsWith (String c t) hrefOpen) eqn:Hw.
  - destruct (startsWith_decompose _ _ Hw) as [body Hb].
    rewrite hrefOpen_append in Hb. injection Hb as -> ->.
    assert (HP : P (String "r" (String "e" (String "f" (String "="
                   (String dquote body))))) =
                 String "r" (String "e" (String "f" (String "="
                   (String dquote (P body)))))).
    { rewrite !P_none; try reflexivity; apply hrefHere_other; discriminate. }
    rewrite HP. unfold hrefHere in Hn |- *. cbn [drop] in Hn |- *.
    destruct (span notQuote body) as [p r] eqn:Hs.
    pose proof (span_spec notQuote body p r Hs) as (Hbody & Hp & Hstop).
    assert (Hshape : p = EmptyString \/ r = EmptyString).
    { change (startsWith (String "h" _) hrefOpen) with true in Hn.
      destruct (String.eqb_spec p EmptyString) as [He|_]; [left; exact He|].
      right. destruct r as [|e after]; [reflexivity|].
      unfold notQuote in Hstop. apply negb_false_iff, Ascii.eqb_eq in Hstop.
      subst e. cbn [andb negb startsWith] in Hn. rewrite Ascii.eqb_refl in Hn.
      discriminate Hn. }
    destruct Hshape as [-> | ->].
    + rewrite append_nil_l in Hbody. subst body.
      destruct r as [|e after]; [reflexivity|].
      rewrite P_none.
      * cbn [span]. rewrite Hstop. rewrite andb_false_r. reflexivity.
      * apply hrefHere_other. intros ->. discriminate Hstop.
    + rewrite append_empty_r in Hbody. subst body.
      rewrite (P_noquote p Hp), Hs. exact Hn.
  - unfold hrefHere. destruct (span notQuote (drop 5 (P t))) as [p r].
    replace (startsWith (String c (P t)) hrefOpen) with false; [reflexivity|].
    rewrite <- Hw. apply startsWith_of_take.
    change (String.length hrefOpen) with 6%nat.
    change (take 6 (String c t)) with (String c (take 5 t)).
    change (take 6 (String c (P t))) with (String c (take 5 (P t))).
    rewrite P_take; [reflexivity|lia].
Qed.

Lemma hrefValues_skip (n : nat) (text : string) :
  hrefValuesFrom n text = hrefValues (drop n text).
Proof.
  revert n. induction text as [|c t IH]; intros n.
  - destruct n; reflexivity.
  - destruct n as [|k]; [reflexivity|]. cbn [hrefValuesFrom drop]. apply IH.
Qed.

Lemma hrefValuesFrom_step (c : ascii) (t : string) :
  hrefValuesFrom 0 (String c t) =
  match hrefHere (String c t) with
  | Some p1 => p1 :: hrefValuesFrom (5 + String.length p1 + 1) t
  | None => hrefValuesFrom 0 t
  end.
Proof. reflexivity. Qed.

Lemma hrefValues_match (p1 after : string) :
  validHref p1 ->
  hrefValues (hrefOpen +:+ p1 +:+ String dquote after) = p1 :: hrefValues after.
Proof.
  intros Hv. pose proof (hrefHere_valid p1 after Hv) as Hh.
  unfold hrefValues at 1. rewrite hrefOpen_append in Hh |- *.
  rewrite hrefValuesFrom_step, Hh, hrefValues_skip.
  apply (f_equal (fun l => p1 :: hrefValues l)).
  cbn [drop Nat.add]. replace (String.length p1 + 1)%nat
    with (S (String.length p1)) by lia.
  rewrite drop_append_S. reflexivity.
Qed.

Lemma hrefValues_none (c : ascii) (t : string) :
  hrefHere (String c t) = None -> hrefValues (String c t) = hrefValues t.
Proof.
  intros H. unfold hrefValues at 1. cbn [hrefValuesFrom]. rewrite H. reflexivity.
Qed.

Lemma absoluteHref_valid (p1 : string) :
  allChars notQuote baseUrl = true -> validHref p1 ->
  validHref (absoluteHref baseUrl p1).
Proof.
  intros Hb [Hq Hne]. unfold absoluteHref.
  destruct (negb (startsWith p1 "http") && negb (startsWith p1 "#"));
    [|split; assumption].
  split; [rewrite allChars_append, Hb, Hq; reflexivity|].
  intros He. apply (f_equal String.length) in He.
  rewrite length_of_append in He. destruct p1; [contradiction|].
  cbn [String.length] in He. lia.
Qed.

Lemma processText_values_bounded (n : nat) (text : string) :
  allChars notQuote baseUrl = true ->
  (String.length text <= n)%nat ->
  hrefValues (P text) = List.map (absoluteHref baseUrl) (hrefValues text).
Proof.
  intros Hb. revert text. induction n as [|n IH]; intros text Hn.
  - destruct text; [reflexivity|cbn [String.length] in Hn; lia].
  - destruct text as [|c t]; [reflexivity|].
    destruct (hrefHere (String c t)) as [p1|] eqn:Hl.
    + destruct (hrefHere_inv _ _ Hl) as (after & Ht & Hv). rewrite Ht in Hn |- *.
      rewrite (P_match p1 after Hv), (hrefValues_match p1 after Hv).
      rewrite !append_assoc. push_append.
      rewrite (hrefValues_match _ (P after) (absoluteHref_valid p1 Hb Hv)).
      cbn [List.map]. f_equal. apply IH.
      rewrite !length_of_append in Hn. cbn [String.length] in Hn. lia.
    + rewrite (P_none c t Hl), (hrefValues_none c t Hl).
      rewrite (hrefValues_none c _ (hrefHere_none_stable c t Hl)).
      apply IH. cbn [String.length] in Hn. lia.
Qed.

End Process.

(** [processText] keeps the [href] attributes of an item, in number and
    in order, and rewrites the value of each: a value that starts with
    [http] or with [#] stays, any other gets the base URL in front.  This
    holds for a base URL without double quote. *)
Theorem processText_hrefs (text baseUrl : string) :
  allChars notQuote baseUrl = true ->
  hrefValues (processText text baseUrl) =
  List.map (absoluteHref baseUrl) (hrefValues text).
Proof.
  intros Hb. apply (processText_values_bounded baseUrl (String.length text)); [exact Hb|lia].
Qed.

Lemma processText_hrefs_witness :
  hrefValues
    (processText
       ("<a " +:+ hrefOpen +:+ "sql-merge.html" +:+ String dquote EmptyString +:+
        "> <a " +:+ hrefOpen +:+ "#x" +:+ String dquote EmptyString +:+ ">")
       "https://www.postgresql.org/docs/15/") =
  ["https://www.postgresql.org/docs/15/sql-merge.html"; "#x"].
Proof.
  rewrite (processText_hrefs _ "https://www.postgresql.org/docs/15/" eq_refl).
  reflexivity.
Defined.

(** A text in which [href=] followed by a double quote does not occur is
    returned as it is. *)
Theorem processText_no_href (text baseUrl : string) :
  includes text hrefOpen = false -> processText text baseUrl = text.
Proof.
  induction text as [|c t IH]; [reflexivity|]. intros H.
  change (processText (String c t) baseUrl) with (processTextFrom baseUrl 0 (String c t)).
  rewrite processTextFrom_step.
  destruct (hrefHere (String c t)) as [p1|] eqn:Hl.
  - apply hrefHere_includes in Hl. rewrite Hl in H. discriminate H.
  - cbn [includes] in H. apply orb_false_iff in H as [_ H].
    change (processTextFrom baseUrl 0 t) with (processText t baseUrl).
    rewrite (IH H). reflexivity.
Qed.

Lemma processText_no_href_witness :
  processText "Fix <code>psql</code> crash" "https://www.postgresql.org/docs/16/" =
  "Fix <code>psql</code> crash".
Proof. apply processText_no_href. reflexivity. Defined.

(** *** The shape of a parsed release *)

Lemma last_In_or_default {A} (l : list A) (d : A) :
  l = [] /\ List.last l d = d \/ In (List.last l d) l.
Proof.
  induction l as [|x l IH]; [left; split; reflexivity|]. right.
  destruct IH as [[-> _]|IH]; [left; reflexivity|].
  destruct l as [|y l]; [destruct IH|]. right. exact IH.
Qed.

(** A parsed release has a version without space and a date without
    colon, and one change for every list item of the document. *)
Theorem parsed_release_shape (translate : string -> string) (d : Document)
    (release : Release) :
  parseDocument translate d = Some release ->
  includes (version release) " " = false /\
  includes (releaseDate release) ":" = false /\
  length (changes release) = length (listItems d).
Proof.
  unfold parseDocument.
  destruct (List.nth_error (split (dateParagraph d) ":") 1) as [date|] eqn:Hd;
    [|discriminate].
  intros H. injection H as <-. cbn [version releaseDate changes].
  split; [|split].
  - destruct (last_In_or_default (split (trim (heading d)) " ") EmptyString)
      as [[_ ->]|Hin]; [reflexivity|].
    apply (split_char " " _ _ Hin).
  - apply List.nth_error_In, (split_char ":") in Hd.
    apply includes_char_false. apply allChars_trim.
    apply includes_char_false. exact Hd.
  - apply length_map.
Qed.

Lemma parsed_release_shape_witness :
  includes "16.1" " " = false /\ includes "2023-11-09" ":" = false /\
  length ["Fix crash in parser (Carol)"] = length (listItems (cache_16 "16.1.html")).
Proof.
  apply (parsed_release_shape (fun s => s) (cache_16 "16.1.html")
           (mkRelease "16.1" "2023-11-09" ["Fix crash in parser (Carol)"])).
  reflexivity.
Defined.

End Extractor.

(* ===================================================================== *)
(** ** The Classifier: [categorizeChanges] *)
(* ===================================================================== *)

Module Classifier.
Import JS Extractor.

Inductive Category := performance | security | features | bugs.

Definition Category_eqb (a b : Category) : bool :=
  match a, b with
  | performance, performance | security, security
  | features, features | bugs, bugs => true
  | _, _ => false
  end.

(** The object [categories]: one array per category. *)
Record Categories := mkCategories {
  cat_performance : list string;
  cat_security : list string;
  cat_features : list string;
  cat_bugs : list string
}.

Definition emptyCategories : Categories := mkCategories [] [] [] [].

Definition bucket (c : Categories) (k : Category) : list string :=
  match k with
  | performance => cat_performance c
  | security => cat_security c
  | features => cat_features c
  | bugs => cat_bugs c
  end.

(** [categories[category].push(change)] *)
Definition push (c : Categories) (k : Category) (change : string) : Categories :=
  match k with
  | performance =>
      mkCategories (cat_performance c ++ [change]) (cat_security c) (cat_features c) (cat_bugs c)
  | security =>
      mkCategories (cat_performance c) (cat_security c ++ [change]) (cat_features c) (cat_bugs c)
  | features =>
      mkCategories (cat_performance c) (cat_security c) (cat_features c ++ [change]) (cat_bugs c)
  | bugs =>
      mkCategories (cat_performance c) (cat_security c) (cat_features c) (cat_bugs c ++ [change])
  end.

Definition securityWords : list string := ["cve"].

Definition performanceWords : list string :=
  ["performance"; "speed"; "faster"; "optimization"; "improve"; "reduce";
   "enhance"; "boost"; "accelerate"; "better"; "efficient"].

Definition bugsWords : list string :=
  ["fix"; "issue"; "crash"; "overflow"; "error"; "bug"; "problem"; "flaw";
   "mistake"; "patch"; "repair"; "resolve"].

Definition featuresWords : list string :=
  ["new feature"; "added"; "introduced"; "now supports"; "new option";
   "new parameter"; "new setting"; "new command"; "new function";
   "new syntax"; "new capability"; "new behavior"; "new flag";
   "new directive"; "new method"; "new property"; "new API";
   "new interface"; "new class"; "new module"; "new package";
   "new library"; "new framework"; "new tool"; "new utility";
   "new plugin"; "new extension"; "new integration"; "new support";
   "new compatibility"; "new standard"; "new protocol"; "new format";
   "new language"; "new technology"; "new system"; "new service";
   "new application"; "new feature"; "new enhancement"; "new improvement";
   "new addition"; "new change"; "new update"; "new upgrade"; "new version"].

(** [Object.entries(keywords)]: the entries in the order the object
    literal lists its keys. *)
Definition keywords : list (Category * list string) :=
  [ (security, securityWords);
    (performance, performanceWords);
    (bugs, bugsWords);
    (features, featuresWords) ].

(** [words.some((word) => lowerChange.includes(word))] *)
Definition someIncluded (lowerChange : string) (words : list string) : bool :=
  existsb (fun word => includes lowerChange word) words.

(** The [for ... of Object.entries(keywords)] loop for one change:
    [Some category] when the change was pushed to [category] (and
    [categorized] set), [None] when the loop ended or broke out with
    [categorized] still false. *)
Fixpoint scan (is_major : bool) (lowerChange : string)
    (entries : list (Category * list string)) : option Category :=
  match entries with
  | [] => None
  | (category, words) :: rest =>
      if negb is_major &&
         (Category_eqb category features || Category_eqb category performance)
      then None
      else if someIncluded lowerChange words then Some category
      else scan is_major lowerChange rest
  end.

(** The bucket one change ends in: the loop's category, or [bugs] when it
    left [categorized] false. *)
Definition classify (is_major : bool) (change : string) : Category :=
  match scan is_major (toLowerCase change) keywords with
  | Some category => category
  | None => bugs
  end.

(** The body of [changes.forEach]. *)
Definition categorizeOne (is_major : bool) (c : Categories) (change : string)
  : Categories :=
  push c (classify is_major change) change.

Definition categorizeChanges (changes : list string) (is_major : bool)
  : Categories :=
  fold_left (categorizeOne is_major) changes emptyCategories.

(** The changes of [changes] that [classify] sends to [k], in order. *)
Definition selected (is_major : bool) (k : Category) (changes : list string)
  : list string :=
  List.filter (fun change => Category_eqb (classify is_major change) k) changes.

(** The category tests in the order the loop applies them, written as
    one decision: the word lists are tried in the order of [keywords]
    (security, performance, bugs, features), the first list with a word
    the lower-cased change includes wins, and a point release stops after
    the security test. *)
Definition orderedCategory (is_major : bool) (change : string) : Category :=
  let lowerChange := toLowerCase change in
  if someIncluded lowerChange securityWords then security
  else if negb is_major then bugs
  else if someIncluded lowerChange performanceWords then performance
  else if someIncluded lowerChange bugsWords then bugs
  else if someIncluded lowerChange featuresWords then features
  else bugs.

(** One element of [processedData]. *)
Record ProcessedRelease := mkProcessedRelease {
  p_version : string;
  p_releaseDate : string;
  categories : Categories
}.

(** The function mapped over [releaseData] by [processReleaseNotes]. *)
Definition processRelease (release : Release) : ProcessedRelease :=
  mkProcessedRelease (version release) (releaseDate release)
    (categorizeChanges (changes release) (endsWith (version release) ".0")).

Definition processReleaseNotes (releaseData : list Release)
  : list ProcessedRelease :=
  List.map processRelease releaseData.

(** *** Properties of the classifier *)

Lemma Category_eqb_eq (a b : Category) : Category_eqb a b = true <-> a = b.
Proof. destruct a, b; simpl; split; intros H; congruence. Qed.

Lemma bucket_push (c : Categories) (k k' : Category) (change : string) :
  bucket (push c k change) k' =
  bucket c k' ++ (if Category_eqb k k' then [change] else []).
Proof. destruct k, k'; simpl; rewrite ?app_nil_r; reflexivity. Qed.

(** The loop appends to each bucket the changes classified into it, and
    keeps their order. *)
Lemma fold_categorizeOne (is_major : bool) (changes : list string)
    (acc : Categories) (k : Category) :
  bucket (fold_left (categorizeOne is_major) changes acc) k =
  bucket acc k ++ selected is_major k changes.
Proof.
  revert acc. induction changes as [|change rest IH]; intros acc; simpl.
  - rewrite app_nil_r. reflexivity.
  - rewrite IH. unfold categorizeOne at 1. rewrite bucket_push.
    rewrite <- app_assoc. f_equal.
    fold (selected is_major k rest).
    destruct (Category_eqb (classify is_major change) k); reflexivity.
Qed.

Lemma bucket_categorizeChanges (changes : list string) (is_major : bool)
    (k : Category) :
  bucket (categorizeChanges changes is_major) k = selected is_major k changes.
Proof. unfold categorizeChanges. rewrite fold_categorizeOne. destruct k; reflexivity. Qed.

Lemma Permutation_insert {A} (l1 l2 rest : list A) (x : A) :
  l1 ++ l2 ≡ₚ rest -> l1 ++ x :: l2 ≡ₚ x :: rest.
Proof.
  intros H. etransitivity; [symmetry; apply Permutation_middle|].
  constructor. exact H.
Qed.

(** Splitting a list by the value of a [Category]-valued function loses
    and repeats nothing. *)
Lemma selected_partition (is_major : bool) (changes : list string) :
  selected is_major security changes ++ selected is_major performance changes ++
  selected is_major features changes ++ selected is_major bugs changes
  ≡ₚ changes.
Proof.
  induction changes as [|change rest IH]; simpl; [reflexivity|].
  fold (selected is_major security rest) (selected is_major performance rest)
       (selected is_major features rest) (selected is_major bugs rest).
  destruct (classify is_major change); simpl.
  - apply Permutation_insert. exact IH.
  - constructor. exact IH.
  - rewrite (app_assoc (selected is_major security rest)).
    apply Permutation_insert. rewrite <- app_assoc. exact IH.
  - rewrite !app_assoc.
    apply Permutation_insert. rewrite <- !app_assoc. exact IH.
Qed.

(** C1. Classification is total and exhaustive: whatever the changes and
    the [is_major] flag, the sizes of the four buckets add up to the number
    of changes, every bucket holds exactly the changes [classify] sends to
    it (one category per change), in input order, and the four buckets
    together are a rearrangement of the input: nothing is dropped or
    duplicated. *)
Theorem categorizeChanges_total (changes : list string) (is_major : bool) :
  let c := categorizeChanges changes is_major in
  (length (cat_security c) + length (cat_performance c) +
   length (cat_features c) + length (cat_bugs c) = length changes)%nat
  /\ (forall k, bucket c k = selected is_major k changes)
  /\ cat_security c ++ cat_performance c ++ cat_features c ++ cat_bugs c
     ≡ₚ changes.
Proof.
  intros c.
  assert (Hb : forall k, bucket c k = selected is_major k changes)
    by (intros k; apply bucket_categorizeChanges).
  assert (Hp : cat_security c ++ cat_performance c ++ cat_features c ++ cat_bugs c
               ≡ₚ changes).
  { pose proof (Hb security) as Hs. pose proof (Hb performance) as Hq.
    pose proof (Hb features) as Hf. pose proof (Hb bugs) as Hg.
    simpl in Hs, Hq, Hf, Hg. rewrite Hs, Hq, Hf, Hg.
    apply selected_partition. }
  split; [|split; assumption].
  apply Permutation_length in Hp. rewrite !length_app in Hp. lia.
Qed.

Lemma classify_ordered (is_major : bool) (change : string) :
  classify is_major change = orderedCategory is_major change.
Proof.
  unfold classify, orderedCategory, keywords.
  cbn [scan Category_eqb orb andb].
  generalize (someIncluded (toLowerCase change) securityWords).
  generalize (someIncluded (toLowerCase change) performanceWords).
  generalize (someIncluded (toLowerCase change) bugsWords).
  generalize (someIncluded (toLowerCase change) featuresWords).
  intros f b q s. destruct is_major, s, q, b, f; reflexivity.
Qed.

Lemma selected_ordered (is_major : bool) (k : Category) (changes : list string) :
  selected is_major k changes =
  List.filter (fun change => Category_eqb (orderedCategory is_major change) k) changes.
Proof.
  unfold selected. apply List.filter_ext. intros change.
  rewrite classify_ordered. reflexivity.
Qed.

Lemma filter_none {A} (f : A -> bool) (l : list A) :
  (forall x, f x = false) -> List.filter f l = [].
Proof.
  intros H. induction l as [|x l IH]; simpl; [reflexivity|].
  rewrite H. exact IH.
Qed.

Lemma someIncluded_security (lowerChange : string) :
  someIncluded lowerChange securityWords = includes lowerChange "cve".
Proof. unfold someIncluded, securityWords. simpl. apply orb_false_r. Qed.

(** C3 as stated fails: in a major release the change "Fix the new option"
    includes a features word and no security or performance word, and yet
    it is put in [bugs] and not in [features]. *)
Lemma features_test_order_counterexample :
  someIncluded (toLowerCase "Fix the new option") featuresWords = true /\
  someIncluded (toLowerCase "Fix the new option") securityWords = false /\
  someIncluded (toLowerCase "Fix the new option") performanceWords = false /\
  categorizeChanges ["Fix the new option"] true =
  mkCategories [] [] [] ["Fix the new option"].
Proof. vm_compute. repeat split. Qed.

(** C3, amended.  For every change the classifier applies the category
    tests in the fixed, first-match-wins order security ("cve" in the
    lower-cased text), performance, bugs (the words fix, issue, crash, ...),
    features, and a change that matches none falls to [bugs]: every bucket
    of [categorizeChanges] holds exactly the changes [orderedCategory]
    decides for it.  In particular, in a major release, a change that
    includes a features word and no security, performance or bugs word is
    placed in [features] and not in [bugs]. *)
Theorem categorizeChanges_test_order (changes : list string) (is_major : bool) :
  (forall k : Category,
     bucket (categorizeChanges changes is_major) k =
     List.filter (fun change => Category_eqb (orderedCategory is_major change) k)
                 changes)
  /\ (forall change : string,
        In change changes ->
        someIncluded (toLowerCase change) featuresWords = true ->
        someIncluded (toLowerCase change) securityWords = false ->
        someIncluded (toLowerCase change) performanceWords = false ->
        someIncluded (toLowerCase change) bugsWords = false ->
        In change (cat_features (categorizeChanges changes true)) /\
        ~ In change (cat_bugs (categorizeChanges changes true))).
Proof.
  assert (Hb : forall m k,
     bucket (categorizeChanges changes m) k =
     List.filter (fun change => Category_eqb (orderedCategory m change) k) changes).
  { intros m k. rewrite bucket_categorizeChanges. apply selected_ordered. }
  split; [apply Hb|].
  intros change Hin Hf Hs Hq Hg.
  assert (Hc : orderedCategory true change = features).
  { unfold orderedCategory. cbv zeta. rewrite Hs, Hq, Hg, Hf. reflexivity. }
  pose proof (Hb true features) as Hfe. pose proof (Hb true bugs) as Hbu.
  simpl in Hfe, Hbu. rewrite Hfe, Hbu. rewrite !List.filter_In, Hc.
  split; [split; [exact Hin|reflexivity]|].
  intros [_ H]. discriminate H.
Qed.

(** The theorem at a major release with two changes. *)
Lemma categorizeChanges_test_order_witness :
  In "Support the new option" (cat_features
        (categorizeChanges ["Fix the new option"; "Support the new option"] true)) /\
  ~ In "Support the new option" (cat_bugs
        (categorizeChanges ["Fix the new option"; "Support the new option"] true)).
Proof.
  apply (proj2 (categorizeChanges_test_order
                  ["Fix the new option"; "Support the new option"] true)
           "Support the new option").
  - simpl. right. left. reflexivity.
  - vm_compute. reflexivity.
  - vm_compute. reflexivity.
  - vm_compute. reflexivity.
  - vm_compute. reflexivity.
Defined.

(** C4. Major-release gating: for a release whose version does not end in
    [.0], [processReleaseNotes] calls the classifier with [is_major] false,
    the performance and features tests are skipped for every change, and
    the changes split between [security] (those whose lower-cased text
    includes "cve") and [bugs] (all the others), in order; nothing lands in
    [performance] or [features]. *)
Theorem point_release_gating (release : Release) :
  endsWith (version release) ".0" = false ->
  let c := categories (processRelease release) in
  cat_performance c = [] /\
  cat_features c = [] /\
  cat_security c =
    List.filter (fun change => includes (toLowerCase change) "cve") (changes release) /\
  cat_bugs c =
    List.filter (fun change => negb (includes (toLowerCase change) "cve")) (changes release).
Proof.
  intros Hv c. subst c. unfold processRelease. cbn [categories]. rewrite Hv.
  pose proof (bucket_categorizeChanges (changes release) false) as Hb.
  assert (Ho : forall change, orderedCategory false change =
             if includes (toLowerCase change) "cve" then security else bugs).
  { intros change. unfold orderedCategory. cbv zeta.
    rewrite someIncluded_security. reflexivity. }
  pose proof (Hb performance) as Hq. pose proof (Hb features) as Hf.
  pose proof (Hb security) as Hs. pose proof (Hb bugs) as Hg.
  cbn [bucket] in Hq, Hf, Hs, Hg. rewrite Hq, Hf, Hs, Hg, !selected_ordered.
  repeat split.
  - apply filter_none. intros change. rewrite Ho.
    destruct (includes _ _); reflexivity.
  - apply filter_none. intros change. rewrite Ho.
    destruct (includes _ _); reflexivity.
  - apply List.filter_ext. intros change. rewrite Ho.
    destruct (includes _ _); reflexivity.
  - apply List.filter_ext. intros change. rewrite Ho.
    destruct (includes _ _); reflexivity.
Qed.

(** The theorem at release 16.1: a change containing "new feature" is
    classified as [bugs], not [features]. *)
Lemma point_release_gating_witness :
  cat_features (categories (processRelease
     (mkRelease "16.1" "2023-11-09" ["Add a new feature for indexes"]))) = [] /\
  cat_bugs (categories (processRelease
     (mkRelease "16.1" "2023-11-09" ["Add a new feature for indexes"]))) =
  ["Add a new feature for indexes"].
Proof.
  destruct (point_release_gating
              (mkRelease "16.1" "2023-11-09" ["Add a new feature for indexes"])
              eq_refl) as (_ & Hf & _ & Hb).
  split; [exact Hf|]. rewrite Hb. reflexivity.
Defined.

(** *** Keywords that cannot match *)

(** The words are searched in the lower-cased change, so a word with a
    capital letter is never found: the features word "new API" is dead,
    and the features test is the same without it. *)
Theorem capital_keyword_never_matches (change : string) :
  (forall word : string,
     allChars (fun a => negb (isUpperAZ a)) word = false ->
     includes (toLowerCase change) word = false)
  /\ includes (toLowerCase change) "new API" = false
  /\ someIncluded (toLowerCase change) featuresWords =
     someIncluded (toLowerCase change)
       (List.filter (fun word => negb (String.eqb word "new API")) featuresWords).
Proof.
  assert (H : forall word : string,
     allChars (fun a => negb (isUpperAZ a)) word = false ->
     includes (toLowerCase change) word = false).
  { intros word Hw. destruct (includes (toLowerCase change) word) eqn:Hi;
      [|reflexivity].
    rewrite (includes_lowered change word Hi) in Hw. discriminate Hw. }
  split; [exact H|]. split; [apply H; reflexivity|].
  unfold someIncluded, featuresWords. cbn [List.filter String.eqb Ascii.eqb
    Bool.eqb negb existsb].
  rewrite (H "new API" eq_refl). reflexivity.
Qed.

Lemma capital_keyword_never_matches_witness :
  includes (toLowerCase "Add a new API for replication slots") "new API" = false.
Proof.
  apply (proj1 (capital_keyword_never_matches
                  "Add a new API for replication slots") "new API").
  reflexivity.
Defined.

(** *** Helpers on the buckets *)

Lemma point_release_buckets (changes : list string) :
  cat_features (categorizeChanges changes false) = [] /\
  cat_performance (categorizeChanges changes false) = [].
Proof.
  pose proof (bucket_categorizeChanges changes false features) as Hf.
  pose proof (bucket_categorizeChanges changes false performance) as Hp.
  cbn [bucket] in Hf, Hp. rewrite Hf, Hp, !selected_ordered.
  split; apply filter_none; intros change; unfold orderedCategory; cbv zeta;
    destruct (someIncluded (toLowerCase change) securityWords); reflexivity.
Qed.

Lemma bucket_lengths (changes : list string) (is_major : bool) :
  (length (cat_security (categorizeChanges changes is_major)) +
   length (cat_performance (categorizeChanges changes is_major)) +
   length (cat_features (categorizeChanges changes is_major)) +
   length (cat_bugs (categorizeChanges changes is_major)) = length changes)%nat.
Proof.
  pose proof (selected_partition is_major changes) as Hp.
  apply Permutation_length in Hp. rewrite !length_app in Hp.
  pose proof (bucket_categorizeChanges changes is_major) as Hb.
  rewrite <- (Hb security), <- (Hb performance), <- (Hb features), <- (Hb bugs) in Hp.
  cbn [bucket] in Hp. lia.
Qed.

Lemma security_bucket (changes : list string) (is_major : bool) (change : string) :
  In change changes -> includes (toLowerCase change) "cve" = true ->
  In change (cat_security (categorizeChanges changes is_major)).
Proof.
  intros Hin Hc.
  pose proof (bucket_categorizeChanges changes is_major security) as Hb.
  cbn [bucket] in Hb. rewrite Hb, selected_ordered.
  apply List.filter_In. split; [exact Hin|].
  unfold orderedCategory. cbv zeta. rewrite someIncluded_security, Hc. reflexivity.
Qed.

End Classifier.

(* ===================================================================== *)
(** ** The Title/Description/Contributor Parser *)
(* ===================================================================== *)

Module Parser.
Import JS.

Definition notParen (c : ascii) : bool :=
  negb (Ascii.eqb c "(") && negb (Ascii.eqb c ")").

Definition notClose (c : ascii) : bool := negb (Ascii.eqb c ")").

(** [(?:\n|$)]: the end of the input or a line break. *)
Definition lineEnd (s : string) : bool :=
  match s with
  | EmptyString => true
  | String c _ => Ascii.eqb c newline
  end.

(** The pattern [/[^\]]\(([^()]+)\)(?:\n|$)/] tried at the start of [s]:
    one character other than the closing bracket, an opening parenthesis,
    the longest run of characters that are not parentheses (the group,
    which must not be empty), a closing parenthesis, and then a line break
    or the end.  The result is the pair of [matches[0]] and [matches[1]]. *)
Definition groupHere (s : string) : option (string * string) :=
  match s with
  | String c (String o rest) =>
      let '(g, rest') := span notParen rest in
      match rest' with
      | String e after =>
          if negb (Ascii.eqb c "]") && Ascii.eqb o "(" &&
             negb (String.eqb g EmptyString) && Ascii.eqb e ")" && lineEnd after
          then Some (String c (String o (g +:+ String e (take 1 after))), g)
          else None
      | EmptyString => None
      end
  | _ => None
  end.

(** [item.match(...)] without the [g] flag: the leftmost match. *)
Fixpoint groupMatch (s : string) : option (string * string) :=
  match groupHere s with
  | Some m => Some m
  | None =>
      match s with
      | EmptyString => None
      | String _ t => groupMatch t
      end
  end.

(** The test of the loop body on one element of [matches]. *)
Definition notUrlOrCve (m : string) : bool :=
  negb (includes m "http") && negb (includes m "www.") && negb (includes m "CVE-").

(** [for (let i = matches.length - 1; i >= 0; i--)], on the elements of
    [matches] from the last to the first. *)
Fixpoint lastAcceptable (reversed : list string) : list string :=
  match reversed with
  | [] => []
  | m :: rest =>
      if notUrlOrCve m then split (trim m) ", " else lastAcceptable rest
  end.

Definition extractContributors (item : string) : list string :=
  match groupMatch item with
  | Some (whole, group) => lastAcceptable (List.rev [whole; group])
  | None => []
  end.

(** The pattern [/ \([^\)]+\)$/] tried at the start of [s]: a space, an
    opening parenthesis, the longest run of characters other than the
    closing parenthesis (not empty), a closing parenthesis, the end. *)
Definition trailingGroupHere (s : string) : bool :=
  match s with
  | String sp (String o rest) =>
      let '(g, rest') := span notClose rest in
      Ascii.eqb sp " " && Ascii.eqb o "(" &&
      negb (String.eqb g EmptyString) && String.eqb rest' ")"
  | _ => false
  end.

(** [s.replace(/ \([^\)]+\)$/, "")]: the leftmost match runs to the end of
    [s], so what is left is the text before it. *)
Fixpoint stripTrailingGroup (s : string) : string :=
  if trailingGroupHere s then EmptyString
  else match s with
       | EmptyString => EmptyString
       | String c t => String c (stripTrailingGroup t)
       end.

Record TitleDescription := mkTitleDescription {
  title : string;
  description : string
}.

Definition extractTitleDescription (item : string) : TitleDescription :=
  let titleEnd := indexOf item newline in
  let title :=
    if (0 <? titleEnd)%Z
    then stripTrailingGroup (trim (sliceTo item titleEnd))
    else stripTrailingGroup item in
  let description :=
    if (0 <? titleEnd)%Z then trim (sliceFrom item (titleEnd + 1)) else EmptyString in
  mkTitleDescription title description.

Definition isDigit (c : ascii) : bool :=
  let n := N_of_ascii c in ((48 <=? n) && (n <=? 57))%N.

(** The pattern [/CVE-\d{4}-\d+/] tried at the start of [s]. *)
Definition cveHere (s : string) : option string :=
  let year := take 4 (drop 4 s) in
  let '(number, _) := span isDigit (drop 9 s) in
  if startsWith s "CVE-" && (String.length year =? 4)%nat && allChars isDigit year
     && startsWith (drop 8 s) "-" && negb (String.eqb number EmptyString)
  then Some ("CVE-" +:+ year +:+ "-" +:+ number)
  else None.

(** [item.match(/CVE-\d{4}-\d+/)], then [cveMatch ? cveMatch[0] : null]. *)
Fixpoint cveMatch (s : string) : option string :=
  match cveHere s with
  | Some m => Some m
  | None =>
      match s with
      | EmptyString => None
      | String _ t => cveMatch t
      end
  end.

(** [item.toLowerCase().includes("significant") ||
     item.toLowerCase().includes("major")] *)
Definition isSignificant (item : string) : bool :=
  includes (toLowerCase item) "significant" || includes (toLowerCase item) "major".

(** *** Properties of [extractTitleDescription] *)

Lemma pos_length (s : string) :
  s <> EmptyString -> (0 <? Z.of_nat (String.length s))%Z = true.
Proof.
  intros H. destruct s as [|a s]; [congruence|].
  apply Z.ltb_lt. cbn [String.length]. lia.
Qed.

Lemma extractTitleDescription_first_line (pre post : string) :
  pre <> EmptyString -> includes pre NL = false ->
  extractTitleDescription (pre +:+ NL +:+ post) =
  mkTitleDescription (stripTrailingGroup (trim pre)) (trim post).
Proof.
  intros Hne Hnl. unfold extractTitleDescription, NL. push_append.
  rewrite (indexOf_first pre post newline Hnl), (pos_length pre Hne).
  unfold sliceTo, sliceFrom.
  replace (Z.to_nat (Z.of_nat (String.length pre) + 1)) with (S (String.length pre)) by lia.
  rewrite Nat2Z.id, drop_append_S, take_append. reflexivity.
Qed.

Lemma extractTitleDescription_one_line (item : string) :
  includes item NL = false ->
  extractTitleDescription item =
  mkTitleDescription (stripTrailingGroup item) EmptyString.
Proof.
  intros Hnl. unfold extractTitleDescription.
  rewrite (indexOf_absent item newline Hnl). reflexivity.
Qed.

Lemma trailingGroupHere_no_open (a : ascii) (s t : string) :
  allChars (fun x => negb (Ascii.eqb x "(")) s = true ->
  trailingGroupHere (String a (s +:+ String " " t)) = false.
Proof.
  intros Hs. unfold trailingGroupHere.
  destruct s as [|o s]; push_append.
  - destruct (span notClose t) as [g r]. rewrite andb_false_r. reflexivity.
  - cbn [allChars] in Hs. apply andb_true_iff in Hs as [Ho _].
    apply negb_true_iff in Ho. rewrite Ho.
    destruct (span notClose _) as [g r]. rewrite andb_false_r. reflexivity.
Qed.

Lemma stripTrailingGroup_group (s g : string) :
  includes s "(" = false -> g <> EmptyString -> includes g ")" = false ->
  stripTrailingGroup (s +:+ " (" +:+ g +:+ ")") = s.
Proof.
  intros Hs Hg Hc. apply includes_char_false in Hs. apply includes_char_false in Hc.
  change (" (" +:+ g +:+ ")") with (String " " (String "(" (g +:+ ")"))).
  induction s as [|a s IH].
  - rewrite append_nil_l. cbn [stripTrailingGroup].
    unfold trailingGroupHere.
    rewrite (span_append notClose g ")" Hc eq_refl).
    apply String.eqb_neq in Hg. rewrite Hg. reflexivity.
  - cbn [allChars] in Hs. apply andb_true_iff in Hs as [Ha Hs].
    rewrite append_cons. cbn [stripTrailingGroup].
    rewrite (trailingGroupHere_no_open a s _ Hs), (IH Hs). reflexivity.
Qed.

(** C9 as stated fails: the first line of this fragment is
    ["Fix crash  "] (it ends in the two spaces of a markdown line break)
    and has no parenthesized group, and yet the title is not that line:
    the line is trimmed first. *)
Lemma title_trimmed_counterexample :
  title (extractTitleDescription ("Fix crash  " +:+ NL +:+ "More details"))
    = "Fix crash" /\
  stripTrailingGroup "Fix crash  " = "Fix crash  " /\
  title (extractTitleDescription ("Fix crash  " +:+ NL +:+ "More details"))
    <> stripTrailingGroup "Fix crash  ".
Proof. vm_compute. repeat split. discriminate. Qed.

(** C9, amended.  For every fragment whose first line break comes after
    at least one character, the title is the text before that break,
    trimmed and then with one trailing group removed, and the description
    is everything after the break, trimmed.  For every fragment without a
    line break the title is the whole fragment (not trimmed) with one
    trailing group removed and the description is empty.  The trailing
    group that is removed is a space, an opening parenthesis, one or more
    characters other than the closing parenthesis, and a closing
    parenthesis at the very end; after a text without opening parenthesis
    it is removed whole. *)
Theorem extractTitleDescription_lines :
  (forall pre post : string,
     pre <> EmptyString -> includes pre NL = false ->
     extractTitleDescription (pre +:+ NL +:+ post) =
     mkTitleDescription (stripTrailingGroup (trim pre)) (trim post))
  /\ (forall item : string,
        includes item NL = false ->
        extractTitleDescription item =
        mkTitleDescription (stripTrailingGroup item) EmptyString)
  /\ (forall s g : string,
        includes s "(" = false -> g <> EmptyString -> includes g ")" = false ->
        stripTrailingGroup (s +:+ " (" +:+ g +:+ ")") = s).
Proof.
  split; [exact extractTitleDescription_first_line|].
  split; [exact extractTitleDescription_one_line|exact stripTrailingGroup_group].
Qed.

(** The theorem at a two-line fragment and at a one-line fragment. *)
Lemma extractTitleDescription_lines_witness :
  extractTitleDescription ("Fix crash (Alice, Bob)  " +:+ NL +:+ " More (details) ")
    = mkTitleDescription "Fix crash" "More (details)" /\
  extractTitleDescription "Fix crash in parser (Carol)"
    = mkTitleDescription "Fix crash in parser" EmptyString.
Proof.
  destruct extractTitleDescription_lines as (H1 & H2 & H3). split.
  - rewrite (H1 "Fix crash (Alice, Bob)  " " More (details) ");
      [reflexivity|discriminate|reflexivity].
  - rewrite (H2 "Fix crash in parser (Carol)"); [|reflexivity].
    change "Fix crash in parser (Carol)"
      with ("Fix crash in parser" +:+ " (" +:+ "Carol" +:+ ")").
    rewrite (H3 "Fix crash in parser" "Carol");
      [reflexivity|reflexivity|discriminate|reflexivity].
Defined.

(** *** Properties of [extractContributors] *)

Definition notNewline (c : ascii) : bool := negb (Ascii.eqb c newline).

(** The pattern matches where a group closes a line. *)
Lemma groupHere_at (c : ascii) (g after : string) :
  Ascii.eqb c "]" = false -> g <> EmptyString ->
  allChars notParen g = true -> lineEnd after = true ->
  groupHere (String c (String "(" (g +:+ String ")" after))) =
  Some (String c (String "(" (g +:+ String ")" (take 1 after))), g).
Proof.
  intros Hc Hg Hp He. unfold groupHere.
  rewrite (span_append notParen g (String ")" after) Hp eq_refl).
  apply String.eqb_neq in Hg. rewrite Hc, Hg, He. reflexivity.
Qed.

Lemma groupHere_inv (s whole g : string) :
  groupHere s = Some (whole, g) ->
  exists c after,
    s = String c (String "(" (g +:+ String ")" after)) /\
    whole = String c (String "(" (g +:+ String ")" (take 1 after))).
Proof.
  unfold groupHere. destruct s as [|c [|o rest]]; try discriminate.
  destruct (span notParen rest) as [g' r] eqn:Hs.
  destruct r as [|e after]; [discriminate|].
  destruct (negb (Ascii.eqb c "]")); [|discriminate].
  destruct (Ascii.eqb_spec o "("); [subst o|discriminate].
  destruct (negb (String.eqb g' EmptyString)); [|discriminate].
  destruct (Ascii.eqb_spec e ")"); [subst e|discriminate].
  destruct (lineEnd after); [|discriminate].
  cbn [andb]. intros H. injection H as <- <-.
  apply span_spec in Hs as (-> & _ & _).
  exists c, after. split; reflexivity.
Qed.

(** On a line, a run that starts before an opening parenthesis stops at a
    parenthesis that does not close a group at a line end. *)
Lemma span_stops (u v g r : string) :
  allChars notNewline u = true ->
  span notParen (u +:+ String "(" v) = (g, r) ->
  match r with
  | EmptyString => True
  | String e after => Ascii.eqb e ")" && lineEnd after = false
  end.
Proof.
  revert g r. induction u as [|a u IH]; intros g r Hu Hs; push_append.
  - cbn in Hs. injection Hs as <- <-. reflexivity.
  - cbn [allChars] in Hu. apply andb_true_iff in Hu as [Ha Hu].
    cbn [span] in Hs. destruct (notParen a) eqn:Hp.
    + destruct (span notParen (u +:+ String "(" v)) as [g' r'] eqn:Hs'.
      injection Hs as <- <-. apply (IH g' r' Hu eq_refl).
    + injection Hs as <- <-.
      destruct (Ascii.eqb a ")"); [|reflexivity]. cbn [andb].
      destruct u as [|b u]; push_append; [reflexivity|].
      cbn [allChars] in Hu. apply andb_true_iff in Hu as [Hb _].
      unfold notNewline in Hb. apply negb_true_iff in Hb. exact Hb.
Qed.

Lemma groupHere_before (a o : ascii) (u v : string) :
  allChars notNewline u = true ->
  groupHere (String a (String o (u +:+ String "(" v))) = None.
Proof.
  intros Hu. unfold groupHere.
  destruct (span notParen (u +:+ String "(" v)) as [g r] eqn:Hs.
  pose proof (span_stops u v g r Hu Hs) as H.
  destruct r as [|e after]; [reflexivity|].
  destruct (Ascii.eqb e ")"), (lineEnd after); try discriminate H;
    rewrite ?andb_false_r; reflexivity.
Qed.

(** On a fragment of one line that ends in a group, the leftmost match is
    that group. *)
Lemma groupMatch_one_line (pre : string) (c : ascii) (g : string) :
  allChars notNewline (pre +:+ String c EmptyString) = true ->
  Ascii.eqb c "]" = false -> g <> EmptyString -> allChars notParen g = true ->
  groupMatch (pre +:+ String c (String "(" (g +:+ ")"))) =
  Some (String c (String "(" (g +:+ ")")), g).
Proof.
  intros Hn Hc Hg Hp. induction pre as [|a pre IH]; push_append.
  - cbn [groupMatch].
    rewrite (groupHere_at c g EmptyString Hc Hg Hp eq_refl). reflexivity.
  - cbn [allChars] in Hn. apply andb_true_iff in Hn as [_ Hn].
    cbn [groupMatch].
    assert (Hb : groupHere (String a (pre +:+ String c (String "(" (g +:+ ")")))) = None).
    { replace (pre +:+ String c (String "(" (g +:+ ")")))
        with ((pre +:+ String c EmptyString) +:+ String "(" (g +:+ ")"))
        by (rewrite append_assoc; reflexivity).
      destruct (pre +:+ String c EmptyString) as [|o u] eqn:E.
      - destruct pre; discriminate E.
      - cbn [allChars] in Hn. apply andb_true_iff in Hn as [_ Hu].
        rewrite append_cons. apply groupHere_before. exact Hu. }
    rewrite Hb. apply IH. exact Hn.
Qed.

Lemma groupMatch_inv (s whole g : string) :
  groupMatch s = Some (whole, g) ->
  exists pre c after,
    s = pre +:+ String c (String "(" (g +:+ String ")" after)) /\
    whole = String c (String "(" (g +:+ String ")" (take 1 after))).
Proof.
  induction s as [|a s IH]; cbn [groupMatch].
  - destruct (groupHere EmptyString) as [m|] eqn:E; [|discriminate]. discriminate E.
  - destruct (groupHere (String a s)) as [m|] eqn:E.
    + intros H. injection H as ->.
      destruct (groupHere_inv _ _ _ E) as (c & after & Hs & Hw).
      exists EmptyString, c, after. split; assumption.
    + intros H. destruct (IH H) as (pre & c & after & -> & Hw).
      exists (String a pre), c, after. split; [reflexivity|exact Hw].
Qed.

Lemma groupMatch_no_open (s : string) :
  allChars (fun x => negb (Ascii.eqb x "(")) s = true -> groupMatch s = None.
Proof.
  induction s as [|a s IH]; intros H; [reflexivity|].
  cbn [allChars] in H. apply andb_true_iff in H as [_ Hs].
  cbn [groupMatch]. rewrite (IH Hs).
  unfold groupHere. destruct s as [|o rest]; [reflexivity|].
  cbn [allChars] in Hs. apply andb_true_iff in Hs as [Ho _].
  apply negb_true_iff in Ho. rewrite Ho, andb_false_r.
  destruct (span notParen rest) as [g r]. destruct r; reflexivity.
Qed.

(** When the group is refused, so is the whole match, which contains it. *)
Lemma notUrlOrCve_whole (c : ascii) (g tail : string) :
  notUrlOrCve g = false ->
  notUrlOrCve (String c (String "(" (g +:+ tail))) = false.
Proof.
  assert (Hi : forall w, includes g w = true ->
                         includes (String c (String "(" (g +:+ tail))) w = true).
  { intros w H.
    apply (includes_append_l (String c (String "(" EmptyString)) (g +:+ tail) w).
    apply includes_append_r. exact H. }
  unfold notUrlOrCve. intros H.
  destruct (includes g "http") eqn:H1; [rewrite (Hi _ H1); reflexivity|].
  destruct (includes g "www.") eqn:H2;
    [rewrite (Hi _ H2), andb_false_r; reflexivity|].
  destruct (includes g "CVE-") eqn:H3; [|discriminate H].
  rewrite (Hi _ H3), andb_false_r. reflexivity.
Qed.

Lemma extractContributors_of_match (item : string) (c : ascii) (g tail : string) :
  groupMatch item = Some (String c (String "(" (g +:+ tail)), g) ->
  extractContributors item =
  if notUrlOrCve g then split (trim g) ", " else [].
Proof.
  intros H. unfold extractContributors. rewrite H. cbn [List.rev app lastAcceptable].
  destruct (notUrlOrCve g) eqn:Hg; [reflexivity|].
  rewrite (notUrlOrCve_whole c g tail Hg). reflexivity.
Qed.

Lemma allChars_notParen (g : string) :
  includes g "(" = false -> includes g ")" = false -> allChars notParen g = true.
Proof.
  intros Ho Hc. apply includes_char_false in Ho. apply includes_char_false in Hc.
  induction g as [|a g IH]; [reflexivity|].
  cbn [allChars] in *. apply andb_true_iff in Ho as [Ho1 Ho2].
  apply andb_true_iff in Hc as [Hc1 Hc2].
  unfold notParen at 1. rewrite Ho1, Hc1, (IH Ho2 Hc2). reflexivity.
Qed.

(** The first group that closes a line is taken, not the last one. *)
Example extractContributors_first_group :
  extractContributors ("Fix (Alice)" +:+ NL +:+ "more (Bob)") = ["Alice"].
Proof. reflexivity. Qed.

(** A name that is written twice is returned twice. *)
Example extractContributors_keeps_duplicates :
  extractContributors "Fix (Alice, Alice)" = ["Alice"; "Alice"].
Proof. reflexivity. Qed.

(** The separator is a comma followed by a space. *)
Example extractContributors_separator :
  extractContributors "Fix (Alice,Bob)" = ["Alice,Bob"].
Proof. reflexivity. Qed.

(** C5 as stated fails: the fragment of the claim's second example ends in
    the group [(readme)], which holds no URL marker, and the extraction
    returns its content instead of no contributor. *)
Lemma extractContributors_readme_counterexample :
  extractContributors "See https://example.com/foo (readme)" = ["readme"] /\
  extractContributors "See https://example.com/foo (readme)" <> [].
Proof. split; [reflexivity|discriminate]. Qed.

(** A group that closes a line of [item], after the text [pre]: [item] is
    [pre], one character other than the closing bracket, the group [g] in
    parentheses, and a rest that is empty or starts with a line break;
    [g] is not empty and holds no parenthesis. *)
Definition closesLine (item pre g : string) : Prop :=
  exists (c : ascii) (post : string),
    item = pre +:+ String c (String "(" (g +:+ String ")" post)) /\
    c <> "]"%char /\ g <> EmptyString /\
    includes g "(" = false /\ includes g ")" = false /\
    (post = EmptyString \/ startsWith post NL = true).

Lemma notParen_includes (g : string) :
  allChars notParen g = true ->
  includes g "(" = false /\ includes g ")" = false.
Proof.
  intros H. split; apply includes_char_false;
    refine (allChars_impl notParen _ g _ H); intros a Ha; unfold notParen in Ha;
    apply andb_true_iff in Ha as [H1 H2]; assumption.
Qed.

Lemma lineEnd_spec (post : string) :
  lineEnd post = true <-> post = EmptyString \/ startsWith post NL = true.
Proof.
  destruct post as [|a post]; cbn [lineEnd].
  - split; [left; reflexivity|reflexivity].
  - unfold NL. cbn [startsWith]. rewrite andb_true_r, (Ascii.eqb_sym newline a).
    split; [right; assumption|intros [H|H]; [discriminate H|exact H]].
Qed.

(** Where the pattern matches, a group closes a line. *)
Lemma groupHere_closes (s whole g : string) :
  groupHere s = Some (whole, g) ->
  closesLine s EmptyString g /\
  exists c tail, whole = String c (String "(" (g +:+ tail)).
Proof.
  unfold groupHere. destruct s as [|c [|o rest]]; try discriminate.
  destruct (span notParen rest) as [g' r] eqn:Hs.
  destruct r as [|e after]; [discriminate|].
  destruct (Ascii.eqb_spec c "]") as [|Hc]; [discriminate|].
  destruct (Ascii.eqb_spec o "("); [subst o|discriminate].
  destruct (String.eqb_spec g' EmptyString) as [|Hg]; [discriminate|].
  destruct (Ascii.eqb_spec e ")"); [subst e|discriminate].
  destruct (lineEnd after) eqn:He; [|discriminate].
  cbn [andb negb]. intros H. injection H as <- <-.
  apply span_spec in Hs as (-> & Hp & _).
  destruct (notParen_includes g' Hp) as [Ho Hcl].
  split; [|exists c, (String ")" (take 1 after)); reflexivity].
  exists c, after. rewrite append_nil_l.
  repeat split; try assumption. apply lineEnd_spec. exact He.
Qed.

(** Where a group closes a line, the pattern matches there. *)
Lemma closesLine_groupHere (item pre g : string) :
  closesLine item pre g ->
  exists s whole, item = pre +:+ s /\ groupHere s = Some (whole, g).
Proof.
  intros (c & post & -> & Hc & Hg & Ho & Hcl & He).
  exists (String c (String "(" (g +:+ String ")" post))).
  eexists. split; [reflexivity|].
  apply groupHere_at; [apply Ascii.eqb_neq; exact Hc|exact Hg|
                       apply allChars_notParen; assumption|
                       apply lineEnd_spec; exact He].
Qed.

Lemma groupMatch_closes (item whole g : string) :
  groupMatch item = Some (whole, g) ->
  exists pre, closesLine item pre g /\
              exists c tail, whole = String c (String "(" (g +:+ tail)).
Proof.
  induction item as [|a item IH]; cbn [groupMatch].
  - destruct (groupHere EmptyString) as [m|] eqn:E; [|discriminate]. discriminate E.
  - destruct (groupHere (String a item)) as [m|] eqn:E.
    + intros H. injection H as ->. exists EmptyString.
      apply groupHere_closes. exact E.
    + intros H. destruct (IH H) as (pre & (c & post & -> & Hr) & Hw).
      exists (String a pre). split; [|exact Hw].
      exists c, post. rewrite append_cons. split; [reflexivity|exact Hr].
Qed.

Lemma groupMatch_found (pre s : string) (m : string * string) :
  groupHere s = Some m -> groupMatch (pre +:+ s) <> None.
Proof.
  intros H. induction pre as [|a pre IH]; push_append.
  - destruct s as [|a s]; [discriminate H|]. cbn [groupMatch]. rewrite H. discriminate.
  - cbn [groupMatch]. destruct (groupHere (String a (pre +:+ s))); [discriminate|].
    exact IH.
Qed.

Lemma append_inj_l (pre x y : string) : pre +:+ x = pre +:+ y -> x = y.
Proof.
  induction pre as [|a pre IH]; push_append; [exact (fun H => H)|].
  intros H. injection H as H. exact (IH H).
Qed.

(** After a given text at most one group closes a line. *)
Lemma closesLine_group (item pre g g' : string) :
  closesLine item pre g -> closesLine item pre g' -> g = g'.
Proof.
  intros (c & post & Hi & _ & _ & Ho & Hcl & _)
         (c' & post' & Hi' & _ & _ & Ho' & Hcl' & _).
  rewrite Hi in Hi'. apply append_inj_l in Hi'. injection Hi' as _ H.
  pose proof (span_append notParen g (String ")" post)
                (allChars_notParen g Ho Hcl) eq_refl) as H1.
  pose proof (span_append notParen g' (String ")" post')
                (allChars_notParen g' Ho' Hcl') eq_refl) as H2.
  rewrite H, H2 in H1. injection H1 as -> _. reflexivity.
Qed.

(** C5, amended.  Contributor extraction looks at the parenthesized
    groups that close a line: such a group is not empty, holds no
    parenthesis, follows a character other than the closing bracket and
    is followed by a line break or the end of the fragment.  A fragment
    in which no group closes a line gives no contributor.  A fragment in
    which a group closes a line at one place only gives the content of
    that group, trimmed and split at every comma followed by a space, in
    order and with repetitions kept, when the content includes none of
    "http", "www." and "CVE-", and no contributor otherwise; so does, in
    particular, a fragment of one line that ends in such a group.  In
    every case the result is empty or is the split content of a group
    that closes a line of the fragment and includes none of the three
    markers.  So "Fix bug in index (Alice, Bob)" yields Alice and Bob,
    and "See https://example.com/foo (readme)" yields readme. *)
Theorem extractContributors_group :
  (forall item : string,
     (forall pre g, ~ closesLine item pre g) -> extractContributors item = [])
  /\ (forall item pre g : string,
        closesLine item pre g ->
        (forall pre' g', closesLine item pre' g' -> pre' = pre) ->
        extractContributors item =
        if notUrlOrCve g then split (trim g) ", " else [])
  /\ (forall (pre : string) (c : ascii) (g : string),
        includes (pre +:+ String c EmptyString) NL = false ->
        c <> "]"%char -> g <> EmptyString ->
        includes g "(" = false -> includes g ")" = false ->
        extractContributors (pre +:+ String c EmptyString +:+ "(" +:+ g +:+ ")") =
        if notUrlOrCve g then split (trim g) ", " else [])
  /\ (forall item : string,
        extractContributors item = [] \/
        exists pre g : string,
          closesLine item pre g /\
          notUrlOrCve g = true /\
          extractContributors item = split (trim g) ", ")
  /\ extractContributors "Fix bug in index (Alice, Bob)" = ["Alice"; "Bob"]
  /\ extractContributors "See https://example.com/foo (readme)" = ["readme"].
Proof.
  split; [|split; [|split; [|split; [|split; reflexivity]]]].
  - intros item Hno. destruct (groupMatch item) as [[whole g]|] eqn:Hm.
    + destruct (groupMatch_closes _ _ _ Hm) as (pre & Hc & _).
      destruct (Hno pre g Hc).
    + unfold extractContributors. rewrite Hm. reflexivity.
  - intros item pre g Hc Hu.
    destruct (closesLine_groupHere _ _ _ Hc) as (s & whole & Hi & Hh).
    destruct (groupMatch item) as [[whole0 g0]|] eqn:Hm.
    + destruct (groupMatch_closes _ _ _ Hm) as (pre0 & Hc0 & c0 & tail & Hw).
      rewrite (Hu pre0 g0 Hc0) in Hc0.
      rewrite (closesLine_group _ _ _ _ Hc Hc0). subst whole0.
      apply (extractContributors_of_match item c0 g0 tail Hm).
    + rewrite Hi in Hm. destruct (groupMatch_found pre s _ Hh Hm).
  - intros pre c g Hn Hc Hg Ho Hcl.
    apply includes_char_false in Hn. apply Ascii.eqb_neq in Hc.
    pose proof (allChars_notParen g Ho Hcl) as Hp.
    push_append.
    rewrite (extractContributors_of_match _ c g ")"); [reflexivity|].
    apply groupMatch_one_line; assumption.
  - intros item. destruct (groupMatch item) as [[whole g]|] eqn:Hm.
    + destruct (groupMatch_closes _ _ _ Hm) as (pre & Hc & c & tail & Hw).
      subst whole.
      rewrite (extractContributors_of_match item c g _ Hm).
      destruct (notUrlOrCve g) eqn:Hg; [right|left; reflexivity].
      exists pre, g. split; [exact Hc|split; [exact Hg|reflexivity]].
    + left. unfold extractContributors. rewrite Hm. reflexivity.
Qed.

(** The places of [item] at which the pattern matches. *)
Definition matchPlaces (item : string) : list nat :=
  List.filter (fun n => match groupHere (drop n item) with
                        | Some _ => true
                        | None => false
                        end)
              (List.seq 0 (String.length item)).

Lemma closesLine_place (item pre g : string) :
  closesLine item pre g -> In (String.length pre) (matchPlaces item).
Proof.
  intros Hc. destruct (closesLine_groupHere _ _ _ Hc) as (s & whole & -> & Hh).
  unfold matchPlaces. apply List.filter_In. split.
  - apply List.in_seq. rewrite length_of_append.
    destruct s as [|a s]; [discriminate Hh|]. cbn [String.length]. lia.
  - rewrite drop_append, Hh. reflexivity.
Qed.

(** A fragment in which the pattern matches at one place has its groups
    that close a line at that place. *)
Lemma closesLine_one_place (item pre : string) :
  matchPlaces item = [String.length pre] ->
  (exists rest, item = pre +:+ rest) ->
  forall pre' g', closesLine item pre' g' -> pre' = pre.
Proof.
  intros Hp [rest Hi] pre' g' Hc.
  pose proof (closesLine_place _ _ _ Hc) as Hin. rewrite Hp in Hin.
  destruct Hin as [Hl|[]].
  destruct Hc as (c & post & Hi' & _).
  rewrite <- (take_append pre rest), <- Hi, Hl, Hi'. symmetry. apply take_append.
Qed.

(** The theorem at a fragment of three lines whose first line ends in a
    group, and at the fragment of the claim's first example. *)
Lemma extractContributors_group_witness :
  extractContributors
    ("Fix handling of X (Tom Lane)" +:+ NL +:+ NL +:+ "Long description.")
  = ["Tom Lane"] /\
  extractContributors ("Fix bug in index" +:+ " " +:+ "(" +:+ "Alice, Bob" +:+ ")")
  = ["Alice"; "Bob"].
Proof.
  split.
  - rewrite (proj1 (proj2 extractContributors_group)
               ("Fix handling of X (Tom Lane)" +:+ NL +:+ NL +:+ "Long description.")
               "Fix handling of X" "Tom Lane").
    + reflexivity.
    + exists " "%char, (NL +:+ NL +:+ "Long description.").
      split; [reflexivity|]. split; [discriminate|]. split; [discriminate|].
      split; [reflexivity|]. split; [reflexivity|]. right. reflexivity.
    + apply closesLine_one_place; [reflexivity|].
      eexists. reflexivity.
  - rewrite (proj1 (proj2 (proj2 extractContributors_group))
               "Fix bug in index" " "%char "Alice, Bob");
      [reflexivity|reflexivity|discriminate|discriminate|reflexivity|reflexivity].
Defined.

(** *** CVE identifiers *)

Lemma cveMatch_absent (item : string) :
  includes item "CVE-" = false -> cveMatch item = None.
Proof.
  induction item as [|a item IH]; intros H.
  - reflexivity.
  - cbn [includes] in H. apply orb_false_iff in H as [Hs Hi].
    cbn [cveMatch]. rewrite (IH Hi).
    unfold cveHere. destruct (span isDigit (drop 9 (String a item))) as [number r].
    rewrite Hs. reflexivity.
Qed.

(** The identifier of a security item is the leftmost text of the form
    CVE-, four digits, a dash and a run of digits; a fragment that does
    not contain "CVE-" has none. *)
Theorem cve_detection :
  (forall item : string, includes item "CVE-" = false -> cveMatch item = None)
  /\ cveMatch "Fix overflow (CVE-2023-1234) in arrays" = Some "CVE-2023-1234"
  /\ cveMatch "CVE-20233-1 and CVE-2020-12x" = Some "CVE-2020-12".
Proof. split; [exact cveMatch_absent|split; reflexivity]. Qed.

Lemma cve_detection_witness : cveMatch "Fix crash in parser (Carol)" = None.
Proof. apply (proj1 cve_detection). reflexivity. Defined.

(** *** The identifier found *)

Lemma cveMatch_includes (item id : string) :
  cveMatch item = Some id -> includes item "CVE-" = true.
Proof.
  induction item as [|a item IH]; cbn [cveMatch].
  - unfold cveHere. cbn. discriminate.
  - destruct (cveHere (String a item)) as [m|] eqn:E.
    + intros _. cbn [includes]. apply orb_true_iff. left.
      unfold cveHere in E.
      destruct (span isDigit (drop 9 (String a item))) as [number r].
      destruct (startsWith (String a item) "CVE-"); [reflexivity|discriminate E].
    + intros H. cbn [includes]. rewrite (IH H). apply orb_true_r.
Qed.

(** *** What the parser returns is in the fragment *)

Lemma groupMatch_group_chars (s whole g : string) :
  groupMatch s = Some (whole, g) -> allChars notParen g = true.
Proof.
  induction s as [|a s IH]; cbn [groupMatch].
  - cbn. discriminate.
  - destruct (groupHere (String a s)) as [m|] eqn:E; [|exact IH].
    intros H. injection H as ->. unfold groupHere in E.
    destruct s as [|o rest]; [discriminate E|].
    destruct (span notParen rest) as [g' r] eqn:Hs.
    destruct r as [|e after]; [discriminate E|].
    destruct (negb (Ascii.eqb a "]") && Ascii.eqb o "(" &&
              negb (String.eqb g' EmptyString) && Ascii.eqb e ")" && lineEnd after);
      [|discriminate E].
    injection E as _ <-. apply (span_spec notParen rest g' _ Hs).
Qed.

(** Every contributor name is a part of the fragment, holds none of the
    three markers of a URL or a CVE reference, and holds no parenthesis. *)
Theorem contributor_names (item name : string) :
  In name (extractContributors item) ->
  includes item name = true /\
  includes name "http" = false /\ includes name "www." = false /\
  includes name "CVE-" = false /\
  includes name "(" = false /\ includes name ")" = false.
Proof.
  intros Hin. destruct (groupMatch item) as [[whole g]|] eqn:Hm;
    [|unfold extractContributors in Hin; rewrite Hm in Hin; destruct Hin].
  pose proof (groupMatch_group_chars _ _ _ Hm) as Hp.
  destruct (groupMatch_inv _ _ _ Hm) as (pre & c & after & Hi & Hw). subst whole.
  rewrite (extractContributors_of_match item c g _ Hm) in Hin.
  destruct (notUrlOrCve g) eqn:Hg; [|destruct Hin].
  apply split_infix in Hin.
  pose proof (includes_trans _ _ _ (includes_trim g) Hin) as Hn.
  assert (Hno : forall w, includes g w = false -> includes name w = false).
  { intros w Hw. destruct (includes name w) eqn:E; [|reflexivity].
    rewrite (includes_trans _ _ _ Hn E) in Hw. discriminate Hw. }
  unfold notUrlOrCve in Hg. apply andb_true_iff in Hg as [Hg H3].
  apply andb_true_iff in Hg as [H1 H2]. apply negb_true_iff in H1, H2, H3.
  split; [|repeat split; apply Hno; try assumption].
  - apply (includes_trans _ g); [|exact Hn]. apply includes_infix.
    exists (pre +:+ String c (String "(" EmptyString)), (String ")" after).
    rewrite Hi, append_assoc. reflexivity.
  - apply includes_char_false. refine (allChars_impl _ _ g _ Hp).
    intros x Hx. unfold notParen in Hx. apply andb_true_iff in Hx as [Hx _]. exact Hx.
  - apply includes_char_false. refine (allChars_impl _ _ g _ Hp).
    intros x Hx. unfold notParen in Hx. apply andb_true_iff in Hx as [_ Hx]. exact Hx.
Qed.

Lemma contributor_names_witness :
  includes "Fix bug in index (Alice, Bob)" "Bob" = true /\
  includes "Bob" "http" = false /\ includes "Bob" "www." = false /\
  includes "Bob" "CVE-" = false /\
  includes "Bob" "(" = false /\ includes "Bob" ")" = false.
Proof.
  apply (contributor_names "Fix bug in index (Alice, Bob)" "Bob").
  right. left. reflexivity.
Defined.

Lemma groupHere_bracket (t : string) : groupHere (String "]" t) = None.
Proof.
  unfold groupHere. destruct t as [|o rest]; [reflexivity|].
  destruct (span notParen rest) as [g r]. destruct r; reflexivity.
Qed.

Lemma groupHere_second (c o : ascii) (rest : string) :
  Ascii.eqb o "(" = false -> groupHere (String c (String o rest)) = None.
Proof.
  intros Ho. unfold groupHere. destruct (span notParen rest) as [g r].
  destruct r; [reflexivity|]. rewrite Ho, andb_false_r. reflexivity.
Qed.

(** A markdown link that ends a one-line fragment is not taken for an
    attribution: its target follows a closing bracket. *)
Theorem trailing_link_no_contributors (pre g : string) :
  includes pre NL = false ->
  includes g "(" = false -> includes g ")" = false ->
  extractContributors (pre +:+ "](" +:+ g +:+ ")") = [].
Proof.
  intros Hn Ho Hc. apply includes_char_false in Hn.
  change (allChars (fun a => negb (Ascii.eqb a newline)) pre)
    with (allChars notNewline pre) in Hn.
  assert (Hg : allChars (fun x => negb (Ascii.eqb x "(")) (g +:+ ")") = true).
  { rewrite allChars_append. apply includes_char_false in Ho. rewrite Ho. reflexivity. }
  assert (Hm : groupMatch (pre +:+ "](" +:+ g +:+ ")") = None).
  { change ("](" +:+ g +:+ ")") with (String "]" (String "(" (g +:+ ")"))).
    induction pre as [|a pre IH]; push_append.
    - cbn [groupMatch]. rewrite groupHere_bracket.
      rewrite (groupMatch_no_open _ Hg).
      destruct (g +:+ ")") as [|o rest] eqn:E; [reflexivity|].
      cbn [allChars] in Hg. apply andb_true_iff in Hg as [Hg1 _].
      apply negb_true_iff in Hg1. rewrite (groupHere_second _ _ _ Hg1). reflexivity.
    - cbn [allChars] in Hn. apply andb_true_iff in Hn as [_ Hn].
      cbn [groupMatch]. rewrite (IH Hn).
      replace (pre +:+ String "]" (String "(" (g +:+ ")")))
        with ((pre +:+ String "]" EmptyString) +:+ String "(" (g +:+ ")"))
        by (rewrite append_assoc; reflexivity).
      destruct (pre +:+ String "]" EmptyString) as [|o u] eqn:E;
        [destruct pre; discriminate E|].
      assert (Hu : allChars notNewline (String o u) = true)
        by (rewrite <- E, allChars_append, Hn; reflexivity).
      cbn [allChars] in Hu. apply andb_true_iff in Hu as [_ Hu].
      rewrite append_cons, (groupHere_before a o u _ Hu). reflexivity. }
  unfold extractContributors. rewrite Hm. reflexivity.
Qed.

Lemma trailing_link_no_contributors_witness :
  extractContributors ("See the [release notes" +:+ "](" +:+ "release-16.html" +:+ ")")
  = [].
Proof.
  apply (trailing_link_no_contributors "See the [release notes" "release-16.html");
    reflexivity.
Defined.

Lemma stripTrailingGroup_prefix (s : string) :
  exists removed, s = stripTrailingGroup s +:+ removed.
Proof.
  induction s as [|c s IH].
  - exists EmptyString. reflexivity.
  - cbn [stripTrailingGroup]. destruct (trailingGroupHere (String c s)).
    + exists (String c s). reflexivity.
    + destruct IH as [removed Hr]. exists removed.
      rewrite append_cons, <- Hr. reflexivity.
Qed.

(** The title and the description are parts of the fragment: nothing is
    added to its text, whether it has a line break, none, or begins with
    one. *)
Theorem title_description_parts (item : string) :
  includes item (title (extractTitleDescription item)) = true /\
  includes item (description (extractTitleDescription item)) = true.
Proof.
  assert (Hstrip : forall s, includes s (stripTrailingGroup s) = true).
  { intros s. destruct (stripTrailingGroup_prefix s) as [removed Hr].
    apply includes_infix. exists EmptyString, removed. exact Hr. }
  unfold extractTitleDescription. cbn [title description].
  destruct (0 <? indexOf item newline)%Z; split.
  - apply (includes_trans _ (trim (sliceTo item (indexOf item newline))));
      [|apply Hstrip].
    apply (includes_trans _ (sliceTo item (indexOf item newline)));
      [apply includes_take|apply includes_trim].
  - apply (includes_trans _ (sliceFrom item (indexOf item newline + 1)));
      [apply includes_drop|apply includes_trim].
  - apply Hstrip.
  - apply includes_infix. exists EmptyString, item. reflexivity.
Qed.

Lemma cveHere_shape (s id : string) :
  cveHere s = Some id ->
  startsWith s id = true /\
  exists year number,
    id = "CVE-" +:+ year +:+ "-" +:+ number /\
    String.length year = 4%nat /\ allChars isDigit year = true /\
    number <> EmptyString /\ allChars isDigit number = true.
Proof.
  unfold cveHere. destruct (span isDigit (drop 9 s)) as [number r] eqn:Hs.
  remember (take 4 (drop 4 s)) as year eqn:Hy.
  remember (drop 8 s) as rest8 eqn:H8.
  destruct (startsWith s "CVE-") eqn:H1; [|discriminate].
  destruct (String.length year =? 4)%nat eqn:H2; [|discriminate].
  destruct (allChars isDigit year) eqn:H3; [|discriminate].
  destruct (startsWith rest8 "-") eqn:H4; [|discriminate].
  destruct (String.eqb number EmptyString) eqn:H5; [discriminate|].
  cbn [andb negb]. intros H. injection H as <-.
  apply span_spec in Hs as (Hd & Hn & _).
  pose proof (startsWith_take s "CVE-" H1) as E1. cbn [String.length] in E1.
  pose proof (take_drop 4 (drop 4 s)) as E2. rewrite drop_drop in E2.
  cbn [Nat.add] in E2. rewrite <- Hy, <- H8 in E2.
  pose proof (take_drop 1 rest8) as E3.
  rewrite (startsWith_take rest8 "-" H4 : take 1 rest8 = "-") in E3.
  rewrite H8, drop_drop in E3. cbn [Nat.add] in E3. rewrite <- H8 in E3.
  assert (Hs' : s = ("CVE-" +:+ year +:+ "-" +:+ number) +:+ r).
  { rewrite !append_assoc, <- Hd, E3, E2, <- E1. symmetry. apply take_drop. }
  split.
  - rewrite Hs' at 1. apply startsWith_append_self.
  - exists year, number. split; [reflexivity|]. split; [apply Nat.eqb_eq; exact H2|].
    split; [exact H3|]. split; [apply String.eqb_neq; exact H5|exact Hn].
Qed.

(** The identifier of a security item is a part of the fragment and has
    the form CVE-, four digits, a dash and one or more digits; a fragment
    that does not contain "CVE-" has no identifier. *)
Theorem cveMatch_shape (item : string) :
  (forall id : string,
     cveMatch item = Some id ->
     includes item id = true /\
     exists year number,
       id = "CVE-" +:+ year +:+ "-" +:+ number /\
       String.length year = 4%nat /\ allChars isDigit year = true /\
       number <> EmptyString /\ allChars isDigit number = true)
  /\ (includes item "CVE-" = false -> cveMatch item = None).
Proof.
  split; [|apply cveMatch_absent].
  induction item as [|a item IH]; intros id; cbn [cveMatch].
  - unfold cveHere. cbn. discriminate.
  - destruct (cveHere (String a item)) as [m|] eqn:E.
    + intros H. injection H as ->. destruct (cveHere_shape _ _ E) as [Hs Hx].
      split; [|exact Hx]. cbn [includes]. rewrite Hs. reflexivity.
    + intros H. destruct (IH id H) as [Hi Hx]. split; [|exact Hx].
      cbn [includes]. rewrite Hi. apply orb_true_r.
Qed.

Lemma cveMatch_shape_witness :
  includes "Fix overflow (CVE-2023-1234) in arrays" "CVE-2023-1234" = true.
Proof.
  apply (proj1 (cveMatch_shape "Fix overflow (CVE-2023-1234) in arrays")
           "CVE-2023-1234" eq_refl).
Defined.

End Parser.

(* ===================================================================== *)
(** ** The summary: [release_notes_formatted.json] *)
(* ===================================================================== *)

Module Summary.

(** The part of the advisory service's [metrics] object that [addCVE]
    reads: for each CVSS schema an optional array of entries.  A version 3
    entry has its severity in [cvssData], a version 2 entry has it at the
    top. *)
Record CvssData := mkCvssData { baseSeverity : string }.

Record CvssMetricV3 := mkCvssMetricV3 {
  cvssData : CvssData;
  impactScore : Q
}.

Record CvssMetricV2 := mkCvssMetricV2 {
  v2_baseSeverity : string;
  v2_impactScore : Q
}.

Record Metrics := mkMetrics {
  cvssMetricV30 : option (list CvssMetricV3);
  cvssMetricV31 : option (list CvssMetricV3);
  cvssMetricV2 : option (list CvssMetricV2)
}.

(** An element of [summary.security]: the object [parseSecurityItem]
    returns, and the three members [addCVE] may add to it. *)
Record SecurityItem := mkSecurityItem {
  s_cve : option string;
  s_title : string;
  s_description : string;
  s_fixedIn : string;
  s_contributors : list string;
  s_metrics : option Metrics;
  s_severity : option string;
  s_impactScore : option Q
}.

(** An element of [summary.bugs]. *)
Record BugItem := mkBugItem {
  b_title : string;
  b_description : string;
  b_fixedIn : string;
  b_significant : bool;
  b_contributors : list string
}.

(** An element of [summary.features] or of [summary.performance]:
    [parseFeatureItem] and [parsePerformanceItem] build the same object. *)
Record FeatureItem := mkFeatureItem {
  f_title : string;
  f_description : string;
  f_sinceVersion : string;
  f_significant : bool;
  f_contributors : list string
}.

Record Summary := mkSummary {
  versionDates : gmap string string;
  bugs : list BugItem;
  features : list FeatureItem;
  performance : list FeatureItem;
  security : list SecurityItem
}.

(** A JSON value, as [JSON.stringify] writes it: the members of an object
    in the order of its keys. *)
#[local] Unset Elimination Schemes.
Inductive JSON :=
  | JNull
  | JBool (b : bool)
  | JNumber (q : Q)
  | JString (s : string)
  | JArray (elements : list JSON)
  | JObject (members : list (string * JSON)).
#[local] Set Elimination Schemes.

Definition jsonStrings (l : list string) : JSON := JArray (List.map JString l).

Definition jsonOption {A} (f : A -> JSON) (key : string) (x : option A)
  : list (string * JSON) :=
  match x with
  | Some a => [(key, f a)]
  | None => []
  end.

Definition jsonV3 (e : CvssMetricV3) : JSON :=
  JObject [("cvssData", JObject [("baseSeverity", JString (baseSeverity (cvssData e)))]);
           ("impactScore", JNumber (impactScore e))].

Definition jsonV2 (e : CvssMetricV2) : JSON :=
  JObject [("baseSeverity", JString (v2_baseSeverity e));
           ("impactScore", JNumber (v2_impactScore e))].

Definition jsonMetrics (m : Metrics) : JSON :=
  JObject (jsonOption (fun l => JArray (List.map jsonV3 l)) "cvssMetricV31" (cvssMetricV31 m) ++
           jsonOption (fun l => JArray (List.map jsonV3 l)) "cvssMetricV30" (cvssMetricV30 m) ++
           jsonOption (fun l => JArray (List.map jsonV2 l)) "cvssMetricV2" (cvssMetricV2 m)).

Definition jsonSecurity (i : SecurityItem) : JSON :=
  JObject ([("cve", match s_cve i with Some c => JString c | None => JNull end);
            ("title", JString (s_title i));
            ("description", JString (s_description i));
            ("fixedIn", JString (s_fixedIn i));
            ("contributors", jsonStrings (s_contributors i))] ++
           jsonOption jsonMetrics "metrics" (s_metrics i) ++
           jsonOption JString "severity" (s_severity i) ++
           jsonOption JNumber "impactScore" (s_impactScore i)).

Definition jsonBug (i : BugItem) : JSON :=
  JObject [("title", JString (b_title i));
           ("description", JString (b_description i));
           ("fixedIn", JString (b_fixedIn i));
           ("significant", JBool (b_significant i));
           ("contributors", jsonStrings (b_contributors i))].

Definition jsonFeature (i : FeatureItem) : JSON :=
  JObject [("title", JString (f_title i));
           ("description", JString (f_description i));
           ("sinceVersion", JString (f_sinceVersion i));
           ("significant", JBool (f_significant i));
           ("contributors", jsonStrings (f_contributors i))].

(** The object [JSON.stringify(summary, null, 2)] writes: the keys of the
    object literal of [generateSummary], in its order. *)
Definition jsonSummary (s : Summary) : JSON :=
  JObject [("versionDates",
            JObject (List.map (fun kv => (fst kv, JString (snd kv)))
                              (map_to_list (versionDates s))));
           ("bugs", JArray (List.map jsonBug (bugs s)));
           ("features", JArray (List.map jsonFeature (features s)));
           ("performance", JArray (List.map jsonFeature (performance s)));
           ("security", JArray (List.map jsonSecurity (security s)))].

(** [object[key]] on a JSON value. *)
Fixpoint lookupMember (key : string) (members : list (string * JSON))
  : option JSON :=
  match members with
  | [] => None
  | (k, v) :: rest => if String.eqb k key then Some v else lookupMember key rest
  end.

Definition jsonMember (key : string) (j : JSON) : option JSON :=
  match j with
  | JObject members => lookupMember key members
  | _ => None
  end.

Definition jsonKeys (j : JSON) : list string :=
  match j with
  | JObject members => List.map fst members
  | _ => []
  end.

End Summary.

(* ===================================================================== *)
(** ** The Aggregator: [generateSummary] *)
(* ===================================================================== *)

Module Aggregator.
Import JS Parser Summary.

Definition parseSecurityItem (item version : string) : SecurityItem :=
  let td := extractTitleDescription item in
  let cve := cveMatch item in
  let contributors := extractContributors item in
  mkSecurityItem cve (title td) (description td) version contributors None None None.

Definition parseBugItem (item version : string) : BugItem :=
  let td := extractTitleDescription item in
  let contributors := extractContributors item in
  let significant := isSignificant item in
  mkBugItem (title td) (description td) version significant contributors.

Definition parseFeatureItem (item version : string) : FeatureItem :=
  let contributors := extractContributors item in
  let td := extractTitleDescription item in
  let significant := isSignificant item in
  mkFeatureItem (title td) (description td) version significant contributors.

Definition parsePerformanceItem (item version : string) : FeatureItem :=
  let contributors := extractContributors item in
  let td := extractTitleDescription item in
  let significant := isSignificant item in
  mkFeatureItem (title td) (description td) version significant contributors.

(** [items.forEach((item) => { const x = parse(item, version); if (x)
    target.push(x); })]: an object is always truthy. *)
Definition pushParsed {A} (parse : string -> string -> A) (version : string)
    (target : list A) (items : list string) : list A :=
  fold_left (fun acc item => acc ++ [parse item version]) items target.

(** The body of [releaseNotes.forEach]. *)
Definition addRelease (summary : Summary) (release : Classifier.ProcessedRelease)
  : Summary :=
  let version := Classifier.p_version release in
  let releaseDate := Classifier.p_releaseDate release in
  let categories := Classifier.categories release in
  let versionDates' := <[version := releaseDate]> (versionDates summary) in
  let security' :=
    pushParsed parseSecurityItem version (security summary)
               (Classifier.cat_security categories) in
  let features' :=
    pushParsed parseFeatureItem version (features summary)
               (Classifier.cat_features categories) in
  let performance' :=
    pushParsed parsePerformanceItem version (performance summary)
               (Classifier.cat_performance categories) in
  let bugs' :=
    pushParsed parseBugItem version (bugs summary)
               (Classifier.cat_bugs categories) in
  mkSummary versionDates' bugs' features' performance' security'.

Definition emptySummary : Summary := mkSummary ∅ [] [] [] [].

Definition generateSummary (releaseNotes : list Classifier.ProcessedRelease)
  : Summary :=
  fold_left addRelease releaseNotes emptySummary.

(** The release notes of one point release with two fixes by one author. *)
Definition notes_16_1 : list Classifier.ProcessedRelease :=
  Classifier.processReleaseNotes
    [Extractor.mkRelease "16.1" "2023-11-09"
       ["Fix crash in parser (Carol)"; "Fix typo in psql help (Carol)"]].

(** *** Properties of the aggregator *)

Lemma pushParsed_map {A} (parse : string -> string -> A) (version : string)
    (target : list A) (items : list string) :
  pushParsed parse version target items =
  target ++ List.map (fun item => parse item version) items.
Proof.
  unfold pushParsed. revert target.
  induction items as [|item items IH]; intros target; simpl.
  - rewrite app_nil_r. reflexivity.
  - rewrite IH, <- app_assoc. reflexivity.
Qed.

(** The items one release adds to each list of the summary. *)
Definition releaseBugs (r : Classifier.ProcessedRelease) : list BugItem :=
  List.map (fun item => parseBugItem item (Classifier.p_version r))
           (Classifier.cat_bugs (Classifier.categories r)).

Definition releaseFeatures (r : Classifier.ProcessedRelease) : list FeatureItem :=
  List.map (fun item => parseFeatureItem item (Classifier.p_version r))
           (Classifier.cat_features (Classifier.categories r)).

Definition releasePerformance (r : Classifier.ProcessedRelease) : list FeatureItem :=
  List.map (fun item => parsePerformanceItem item (Classifier.p_version r))
           (Classifier.cat_performance (Classifier.categories r)).

Definition releaseSecurity (r : Classifier.ProcessedRelease) : list SecurityItem :=
  List.map (fun item => parseSecurityItem item (Classifier.p_version r))
           (Classifier.cat_security (Classifier.categories r)).

Lemma fold_addRelease (releaseNotes : list Classifier.ProcessedRelease)
    (acc : Summary) :
  let summary := fold_left addRelease releaseNotes acc in
  bugs summary = bugs acc ++ List.flat_map releaseBugs releaseNotes /\
  features summary = features acc ++ List.flat_map releaseFeatures releaseNotes /\
  performance summary =
    performance acc ++ List.flat_map releasePerformance releaseNotes /\
  security summary = security acc ++ List.flat_map releaseSecurity releaseNotes.
Proof.
  revert acc. induction releaseNotes as [|r rest IH]; intros acc; cbn zeta.
  - simpl. rewrite !app_nil_r. repeat split.
  - cbn [fold_left List.flat_map].
    destruct (IH (addRelease acc r)) as (Hb & Hf & Hp & Hs).
    rewrite Hb, Hf, Hp, Hs. unfold addRelease. cbn [bugs features performance security].
    rewrite !pushParsed_map, <- !app_assoc. repeat split.
Qed.

(** C6 as stated fails: the summary of a release whose two fixes are both
    credited to Carol has no [contributors] member; her name is only in
    the items, once in each. *)
Lemma no_contributors_member_counterexample :
  jsonMember "contributors" (jsonSummary (generateSummary notes_16_1)) = None /\
  List.map b_contributors (bugs (generateSummary notes_16_1)) =
  [["Carol"]; ["Carol"]].
Proof. vm_compute. split; reflexivity. Qed.

(** C6, amended.  The summary [generateSummary] produces has exactly the
    members [versionDates], [bugs], [features], [performance] and
    [security], and no aggregate contributors set.  Each of the four lists
    holds, release after release and in the order of the release's bucket,
    the parsed items of that bucket; contributor names are kept per item
    only: the [contributors] of an item are the names extracted from its
    own text, and they are not deduplicated across items. *)
Theorem generateSummary_members (releaseNotes : list Classifier.ProcessedRelease) :
  let summary := generateSummary releaseNotes in
  jsonKeys (jsonSummary summary) =
    ["versionDates"; "bugs"; "features"; "performance"; "security"]
  /\ jsonMember "contributors" (jsonSummary summary) = None
  /\ bugs summary = List.flat_map releaseBugs releaseNotes
  /\ features summary = List.flat_map releaseFeatures releaseNotes
  /\ performance summary = List.flat_map releasePerformance releaseNotes
  /\ security summary = List.flat_map releaseSecurity releaseNotes
  /\ (forall item version : string,
        b_contributors (parseBugItem item version) = extractContributors item /\
        f_contributors (parseFeatureItem item version) = extractContributors item /\
        f_contributors (parsePerformanceItem item version) = extractContributors item /\
        s_contributors (parseSecurityItem item version) = extractContributors item).
Proof.
  intros summary.
  destruct (fold_addRelease releaseNotes emptySummary) as (Hb & Hf & Hp & Hs).
  split; [reflexivity|]. split; [reflexivity|].
  repeat split; assumption.
Qed.

(** *** The date index *)

(** The date index is written release after release: the date of the
    release processed last is the one kept for its version. *)
Theorem versionDates_last_writer (releaseNotes : list Classifier.ProcessedRelease)
    (release : Classifier.ProcessedRelease) :
  versionDates (generateSummary (releaseNotes ++ [release])) =
    <[Classifier.p_version release := Classifier.p_releaseDate release]>
      (versionDates (generateSummary releaseNotes))
  /\ versionDates (generateSummary (releaseNotes ++ [release]))
       !! Classifier.p_version release = Some (Classifier.p_releaseDate release).
Proof.
  assert (H : versionDates (generateSummary (releaseNotes ++ [release])) =
    <[Classifier.p_version release := Classifier.p_releaseDate release]>
      (versionDates (generateSummary releaseNotes))).
  { unfold generateSummary. rewrite fold_left_app. reflexivity. }
  split; [exact H|]. rewrite H. apply lookup_insert_eq.
Qed.

Lemma generateSummary_snoc (releaseNotes : list Classifier.ProcessedRelease)
    (release : Classifier.ProcessedRelease) :
  generateSummary (releaseNotes ++ [release]) =
  addRelease (generateSummary releaseNotes) release.
Proof. unfold generateSummary. rewrite fold_left_app. reflexivity. Qed.

(** The date index has a date exactly for the versions of the releases
    read, and for a version that several releases carry it keeps the date
    of the last of them. *)
Theorem versionDates_lookup (releaseNotes : list Classifier.ProcessedRelease)
    (v : string) :
  versionDates (generateSummary releaseNotes) !! v =
  Classifier.p_releaseDate <$>
    last (List.filter (fun r => String.eqb (Classifier.p_version r) v) releaseNotes).
Proof.
  induction releaseNotes as [|r rest IH] using rev_ind; [reflexivity|].
  rewrite generateSummary_snoc, List.filter_app. unfold addRelease.
  cbn [versionDates List.filter].
  destruct (String.eqb_spec (Classifier.p_version r) v) as [->|Hne].
  - rewrite lookup_insert_eq, last_snoc. reflexivity.
  - rewrite lookup_insert_ne by exact Hne. rewrite app_nil_r. exact IH.
Qed.

(** *** The [significant] flag *)

(** The item holds, in some letter case, one of the two words of the
    test. *)
Definition mentionsSignificance (item : string) : Prop :=
  exists word, includes item word = true /\
               (toLowerCase word = "significant" \/ toLowerCase word = "major").

Lemma isSignificant_mentions (item : string) :
  Parser.isSignificant item = true <-> mentionsSignificance item.
Proof.
  unfold Parser.isSignificant, mentionsSignificance. split.
  - intros H. apply orb_true_iff in H as [H|H];
      apply includes_toLowerCase_inv in H as (word & Hi & Hw);
      exists word; split; auto.
  - intros (word & Hi & Hw). apply includes_toLowerCase in Hi.
    destruct Hw as [Hw|Hw]; rewrite Hw in Hi; rewrite Hi;
      [reflexivity|apply orb_true_r].
Qed.

(** A bug, feature or performance item is flagged significant exactly
    when its text, title or description, holds "significant" or "major"
    in some letter case, as a word or inside one. *)
Theorem significant_any_case (item version : string) :
  (b_significant (parseBugItem item version) = true <->
   mentionsSignificance item) /\
  (f_significant (parseFeatureItem item version) = true <->
   mentionsSignificance item) /\
  (f_significant (parsePerformanceItem item version) = true <->
   mentionsSignificance item).
Proof. repeat split; apply isSignificant_mentions. Qed.

End Aggregator.

(* ===================================================================== *)
(** ** The Enricher: [addCVE] *)
(* ===================================================================== *)

Module Enricher.
Import JS Summary.

(** One element of [cveData.vulnerabilities], read through [.cve.metrics]. *)
Record Vulnerability := mkVulnerability { cve_metrics : Metrics }.

(** The parsed answer of the advisory service. *)
Record CveData := mkCveData {
  vulnerabilities : option (list Vulnerability);
  totalResults : Z
}.

Definition CVEAPI : string :=
  "https://services.nvd.nist.gov/rest/json/cves/2.0?cveId=".

(** The two conditional chains of the look-up branch.  [None] is the
    [TypeError] of reading a member of [array[0]] on an empty array. *)
Definition freshSeverity (m : Metrics) : option string :=
  match cvssMetricV30 m with
  | Some l => option_map (fun e => baseSeverity (cvssData e)) (head l)
  | None =>
      match cvssMetricV31 m with
      | Some l => option_map (fun e => baseSeverity (cvssData e)) (head l)
      | None =>
          match cvssMetricV2 m with
          | Some l => option_map v2_baseSeverity (head l)
          | None => Some "None"
          end
      end
  end.

Definition freshImpactScore (m : Metrics) : option Q :=
  match cvssMetricV30 m with
  | Some l => option_map impactScore (head l)
  | None =>
      match cvssMetricV31 m with
      | Some l => option_map impactScore (head l)
      | None =>
          match cvssMetricV2 m with
          | Some l => option_map v2_impactScore (head l)
          | None => Some 0%Q
          end
      end
  end.

(** The two conditional chains of the branch for an item that already
    carries [metrics]. *)
Definition storedSeverity (m : Metrics) : option string :=
  match cvssMetricV30 m with
  | Some l => option_map (fun e => baseSeverity (cvssData e)) (head l)
  | None =>
      match cvssMetricV31 m with
      | Some l => option_map (fun e => baseSeverity (cvssData e)) (head l)
      | None =>
          match cvssMetricV2 m with
          | Some l => option_map v2_baseSeverity (head l)
          | None => Some "None"
          end
      end
  end.

Definition storedImpactScore (m : Metrics) : option Q :=
  match cvssMetricV30 m with
  | Some l => option_map impactScore (head l)
  | None =>
      match cvssMetricV31 m with
      | Some l => option_map impactScore (head l)
      | None =>
          match cvssMetricV2 m with
          | Some l => option_map v2_impactScore (head l)
          | None => Some 0%Q
          end
      end
  end.

(** [security.metrics = m] *)
Definition withMetrics (security : SecurityItem) (m : Metrics) : SecurityItem :=
  mkSecurityItem (s_cve security) (s_title security) (s_description security)
    (s_fixedIn security) (s_contributors security)
    (Some m) (s_severity security) (s_impactScore security).

(** [security.severity = severity; security.impactScore = impact] *)
Definition withScores (security : SecurityItem) (severity : string) (impact : Q)
  : SecurityItem :=
  mkSecurityItem (s_cve security) (s_title security) (s_description security)
    (s_fixedIn security) (s_contributors security)
    (s_metrics security) (Some severity) (Some impact).

(** [CVEAPI + security.cve]: a [null] identifier is written "null". *)
Definition queryUrl (security : SecurityItem) : string :=
  CVEAPI +:+ match s_cve security with Some c => c | None => "null" end.

Section Enrich.

(** The advisory service: its state, and [fetchPage] followed by
    [JSON.parse].  [None] is a failed request or an answer that does not
    parse: the exception leaves the loop. *)
Variable World : Type.
Variable fetchCve : World -> string -> World * option CveData.

(** The body of the loop for one item: the state of the service, the
    requests made, and the item as it is when the body ends ([None] when
    the body throws). *)
Definition enrichItem (w : World) (security : SecurityItem)
  : World * list string * option SecurityItem :=
  match s_metrics security with
  | None =>
      let url := queryUrl security in
      let '(w', answer) := fetchCve w url in
      match answer with
      | None => (w', [url], None)
      | Some cveData =>
          match vulnerabilities cveData with
          | Some vs =>
              if (totalResults cveData =? 1)%Z then
                match vs with
                | v :: _ =>
                    let security' := withMetrics security (cve_metrics v) in
                    match freshSeverity (cve_metrics v),
                          freshImpactScore (cve_metrics v) with
                    | Some severity, Some impact =>
                        (w', [url], Some (withScores security' severity impact))
                    | _, _ => (w', [url], None)
                    end
                | [] => (w', [url], None)
                end
              else (w', [url], Some security)
          | None => (w', [url], Some security)
          end
      end
  | Some m =>
      match storedSeverity m, storedImpactScore m with
      | Some severity, Some impact => (w, [], Some (withScores security severity impact))
      | _, _ => (w, [], None)
      end
  end.

(** [for (const security of releaseNotesFormatted.security)].  The file is
    written at the end of every round, so when a round throws the file
    holds the items of the rounds before as they were enriched ([done])
    and the others as they were read.  The result is the state of the
    service, the requests made, the [security] array of the file, and
    whether the loop reached its end. *)
Fixpoint enrichLoop (w : World) (done todo : list SecurityItem)
  : World * list string * list SecurityItem * bool :=
  match todo with
  | [] => (w, [], done, true)
  | security :: rest =>
      match enrichItem w security with
      | (w', q, Some security') =>
          let '(w'', qs, out, ok) := enrichLoop w' (done ++ [security']) rest in
          (w'', q ++ qs, out, ok)
      | (w', q, None) => (w', q, done ++ security :: rest, false)
      end
  end.

Record Run := mkRun {
  world : World;
  queries : list string;
  stored : Summary;
  completed : bool
}.

Definition addCVE (w : World) (releaseNotesFormatted : Summary) : Run :=
  let '(w', qs, out, ok) := enrichLoop w [] (security releaseNotesFormatted) in
  mkRun w' qs
    (mkSummary (versionDates releaseNotesFormatted) (bugs releaseNotesFormatted)
       (features releaseNotesFormatted) (performance releaseNotesFormatted) out)
    ok.

End Enrich.

Arguments world {World} _.
Arguments queries {World} _.
Arguments stored {World} _.
Arguments completed {World} _.

(** An advisory service that knows one vulnerability, rated under the
    schemas 3.1 and 2. *)
Definition metrics_5868 : Metrics :=
  mkMetrics None
    (Some [mkCvssMetricV3 (mkCvssData "MEDIUM") (14 # 10)])
    (Some [mkCvssMetricV2 "LOW" (29 # 10)]).

Definition nvd (w : nat) (url : string) : nat * option CveData :=
  (S w,
   Some (if String.eqb url (CVEAPI +:+ "CVE-2023-5868")
         then mkCveData (Some [mkVulnerability metrics_5868]) 1
         else mkCveData (Some []) 0)).

Definition summary_5868 : Summary :=
  mkSummary ∅ [] [] []
    [Aggregator.parseSecurityItem
       "Fix handling of unknown-type arguments (Tom Lane) (CVE-2023-5868)" "16.1";
     mkSecurityItem (Some "CVE-2023-5869") "Detect integer overflow" "" "16.1"
       ["Tom Lane"]
       (Some (mkMetrics (Some [mkCvssMetricV3 (mkCvssData "HIGH") (59 # 10)]) None None))
       None None].

(** *** Properties of the enricher *)

Lemma fresh_stored (m : Metrics) :
  freshSeverity m = storedSeverity m /\ freshImpactScore m = storedImpactScore m.
Proof. split; reflexivity. Qed.

(** An item is scored when, if it carries metrics, its severity and its
    impact score are the ones derived from them. *)
Definition scored (security : SecurityItem) : Prop :=
  match s_metrics security with
  | Some m =>
      exists severity impact,
        storedSeverity m = Some severity /\ storedImpactScore m = Some impact /\
        s_severity security = Some severity /\ s_impactScore security = Some impact
  | None => True
  end.

Section EnrichFacts.

Variable World : Type.
Variable fetchCve : World -> string -> World * option CveData.

(** An item that carries metrics costs no request, and only its two
    derived members are assigned. *)
Lemma enrichItem_stored (w : World) (security : SecurityItem) (m : Metrics) :
  s_metrics security = Some m ->
  enrichItem World fetchCve w security =
  (w, [],
   match storedSeverity m, storedImpactScore m with
   | Some severity, Some impact => Some (withScores security severity impact)
   | _, _ => None
   end).
Proof.
  intros Hm. unfold enrichItem. rewrite Hm.
  destruct (storedSeverity m), (storedImpactScore m); reflexivity.
Qed.


(** Whatever a round of the loop stores is scored. *)
Lemma enrichItem_scored (w w' : World) (q : list string)
    (security security' : SecurityItem) :
  enrichItem World fetchCve w security = (w', q, Some security') ->
  scored security'.
Proof.
  unfold enrichItem.
  destruct (s_metrics security) as [m|] eqn:Hm.
  - destruct (storedSeverity m) as [sev|] eqn:H1;
      destruct (storedImpactScore m) as [imp|] eqn:H2; try discriminate.
    intros H. injection H as <- <- <-.
    unfold scored, withScores. cbn. rewrite Hm. exists sev, imp. tauto.
  - cbv zeta. destruct (fetchCve w (queryUrl security)) as [w1 [cveData|]];
      [|discriminate].
    destruct (vulnerabilities cveData) as [vs|].
    + destruct (totalResults cveData =? 1)%Z.
      * destruct vs as [|v vs]; [discriminate|].
        destruct (freshSeverity (cve_metrics v)) as [sev|] eqn:H1;
          destruct (freshImpactScore (cve_metrics v)) as [imp|] eqn:H2;
          try discriminate.
        intros H. injection H as <- <- <-.
        unfold scored, withScores, withMetrics. cbn. exists sev, imp. tauto.
      * intros H. injection H as <- <- <-. unfold scored. rewrite Hm. exact I.
    + intros H. injection H as <- <- <-. unfold scored. rewrite Hm. exact I.
Qed.

(** A scored item that carries metrics is left as it is, without a
    request. *)
Lemma enrichItem_fixed (w : World) (security : SecurityItem) :
  scored security -> s_metrics security <> None ->
  enrichItem World fetchCve w security = (w, [], Some security).
Proof.
  unfold scored. intros Hs Hm.
  destruct (s_metrics security) as [m|] eqn:E; [|congruence].
  destruct Hs as (sev & imp & H1 & H2 & H3 & H4).
  rewrite (enrichItem_stored w security m E), H1, H2.
  destruct security; cbn in *. subst. reflexivity.
Qed.

Lemma enrichLoop_scored (todo done out : list SecurityItem) (w w' : World)
    (qs : list string) :
  Forall scored done ->
  enrichLoop World fetchCve w done todo = (w', qs, out, true) ->
  Forall scored out.
Proof.
  revert done w qs. induction todo as [|security rest IH]; intros done w qs Hd.
  - cbn. intros H. injection H as <- <- <-. exact Hd.
  - cbn [enrichLoop].
    destruct (enrichItem World fetchCve w security) as [[w1 q] [security'|]] eqn:He;
      [|discriminate].
    destruct (enrichLoop World fetchCve w1 (done ++ [security']) rest)
      as [[[w2 qs'] out'] ok] eqn:Hl.
    intros H. injection H as <- <- <- ->.
    eapply (IH (done ++ [security']) w1 qs'); [|exact Hl].
    apply Forall_app. split; [exact Hd|]. constructor; [|constructor].
    eapply enrichItem_scored. exact He.
Qed.

End EnrichFacts.

Lemma enrichLoop_fixed (World : Type)
    (fetchCve : World -> string -> World * option CveData)
    (todo done : list SecurityItem) (w : World) :
  Forall scored todo ->
  Forall (fun security => s_metrics security <> None) todo ->
  enrichLoop World fetchCve w done todo = (w, [], done ++ todo, true).
Proof.
  revert done. induction todo as [|security rest IH]; intros done Hs Hm.
  - cbn. rewrite app_nil_r. reflexivity.
  - apply Forall_cons in Hs as [Hs Hs']. apply Forall_cons in Hm as [Hm Hm'].
    cbn [enrichLoop]. rewrite (enrichItem_fixed World fetchCve w security Hs Hm).
    rewrite (IH (done ++ [security]) Hs' Hm'), <- app_assoc. reflexivity.
Qed.

(** C7. The Enricher is idempotent.  A security item that already carries
    metrics costs no request to the advisory service (the request list of
    its round is empty and the state of the service is untouched), and the
    round assigns nothing but the severity and the impact score derived
    from the stored metrics.  So when a run has reached the end of the
    list and left every item with metrics, a second run on the file it
    stored, against whatever the service has become, makes no request and
    stores the same file: every severity and impact score is unchanged. *)
Theorem addCVE_idempotent (World : Type)
    (fetchCve fetchCve' : World -> string -> World * option CveData) :
  (forall (w : World) (security : SecurityItem) (m : Metrics),
     s_metrics security = Some m ->
     enrichItem World fetchCve w security =
     (w, [],
      match storedSeverity m, storedImpactScore m with
      | Some severity, Some impact => Some (withScores security severity impact)
      | _, _ => None
      end))
  /\ (forall (w1 w2 : World) (summary : Summary),
        completed (addCVE World fetchCve w1 summary) = true ->
        Forall (fun security => s_metrics security <> None)
               (security (stored (addCVE World fetchCve w1 summary))) ->
        addCVE World fetchCve' w2 (stored (addCVE World fetchCve w1 summary)) =
        mkRun World w2 [] (stored (addCVE World fetchCve w1 summary)) true).
Proof.
  split; [apply enrichItem_stored|].
  intros w1 w2 summary. unfold addCVE at 1 2 4 5.
  destruct (enrichLoop World fetchCve w1 [] (security summary))
    as [[[w' qs] out] ok] eqn:Hl.
  cbn [completed stored security]. intros -> Hm.
  pose proof (enrichLoop_scored World fetchCve _ _ _ _ _ _ (List.Forall_nil scored) Hl) as Hs.
  unfold addCVE. cbn [security versionDates bugs features performance].
  rewrite (enrichLoop_fixed World fetchCve' out [] w2 Hs Hm). reflexivity.
Qed.

(** The theorem at [summary_5868]: the first run asks the service once,
    the second run does not ask and stores the same file. *)
Lemma addCVE_idempotent_witness :
  queries (addCVE nat nvd 0%nat summary_5868) =
    [CVEAPI +:+ "CVE-2023-5868"] /\
  addCVE nat nvd 7%nat (stored (addCVE nat nvd 0%nat summary_5868)) =
  mkRun nat 7%nat [] (stored (addCVE nat nvd 0%nat summary_5868)) true.
Proof.
  split; [reflexivity|].
  apply (proj2 (addCVE_idempotent nat nvd nvd) 0%nat 7%nat summary_5868).
  - reflexivity.
  - repeat constructor; discriminate.
Defined.












(** *** What a run asks and what it leaves alone *)

(** The members of a security item that [addCVE] never assigns. *)
Definition sameEntry (a b : SecurityItem) : Prop :=
  s_cve a = s_cve b /\ s_title a = s_title b /\
  s_description a = s_description b /\ s_fixedIn a = s_fixedIn b /\
  s_contributors a = s_contributors b /\
  (forall m, s_metrics a = Some m -> s_metrics b = Some m).

Definition lacksMetrics (security : SecurityItem) : bool :=
  match s_metrics security with
  | Some _ => false
  | None => true
  end.

Section RunFacts.

Variable World : Type.
Variable fetchCve : World -> string -> World * option CveData.

Lemma enrichItem_sameEntry (w w' : World) (q : list string)
    (security security' : SecurityItem) :
  enrichItem World fetchCve w security = (w', q, Some security') ->
  sameEntry security security'.
Proof.
  unfold enrichItem, sameEntry. destruct (s_metrics security) as [m|] eqn:Hm.
  - destruct (storedSeverity m), (storedImpactScore m); try discriminate.
    intros H. injection H as <- <- <-. cbn. rewrite Hm. repeat split; auto.
  - cbv zeta. destruct (fetchCve w (queryUrl security)) as [w1 [cveData|]];
      [|discriminate].
    destruct (vulnerabilities cveData) as [vs|].
    + destruct (totalResults cveData =? 1)%Z.
      * destruct vs as [|v vs]; [discriminate|].
        destruct (freshSeverity (cve_metrics v)), (freshImpactScore (cve_metrics v));
          try discriminate.
        intros H. injection H as <- <- <-. cbn. repeat split; intros; discriminate.
      * intros H. injection H as <- <- <-. repeat split; intros; congruence.
    + intros H. injection H as <- <- <-. repeat split; intros; congruence.
Qed.

Lemma enrichItem_queries (w : World) (security : SecurityItem) :
  (enrichItem World fetchCve w security).1.2 =
  if lacksMetrics security then [queryUrl security] else [].
Proof.
  unfold enrichItem, lacksMetrics. destruct (s_metrics security) as [m|].
  - destruct (storedSeverity m), (storedImpactScore m); reflexivity.
  - cbv zeta. destruct (fetchCve w (queryUrl security)) as [w1 [cveData|]];
      [|reflexivity].
    destruct (vulnerabilities cveData) as [vs|]; [|reflexivity].
    destruct (totalResults cveData =? 1)%Z; [|reflexivity].
    destruct vs as [|v vs]; [reflexivity|].
    destruct (freshSeverity (cve_metrics v)), (freshImpactScore (cve_metrics v));
      reflexivity.
Qed.

Lemma sameEntry_refl (a : SecurityItem) : sameEntry a a.
Proof. unfold sameEntry. repeat split; auto. Qed.

Lemma enrichLoop_frame (todo done out : list SecurityItem) (w w' : World)
    (qs : list string) (ok : bool) :
  enrichLoop World fetchCve w done todo = (w', qs, out, ok) ->
  exists out', out = done ++ out' /\ Forall2 sameEntry todo out'.
Proof.
  revert done w qs. induction todo as [|security rest IH]; intros done w qs.
  - cbn. intros H. injection H as <- <- <- <-. exists []. rewrite app_nil_r.
    split; [reflexivity|constructor].
  - cbn [enrichLoop].
    destruct (enrichItem World fetchCve w security) as [[w1 q] [security'|]] eqn:He.
    + destruct (enrichLoop World fetchCve w1 (done ++ [security']) rest)
        as [[[w2 qs'] out2] ok2] eqn:Hl.
      intros H. injection H as <- <- <- <-.
      destruct (IH _ _ _ Hl) as (out' & -> & Hf).
      exists (security' :: out'). rewrite <- app_assoc. split; [reflexivity|].
      constructor; [|exact Hf]. eapply enrichItem_sameEntry. exact He.
    + intros H. injection H as <- <- <- <-. exists (security :: rest).
      split; [reflexivity|]. apply Forall2_same_length_lookup_2; [reflexivity|].
      intros i x y Hx Hy. rewrite Hx in Hy. injection Hy as <-. apply sameEntry_refl.
Qed.

Lemma enrichLoop_queries (todo done out : list SecurityItem) (w w' : World)
    (qs : list string) (ok : bool) :
  enrichLoop World fetchCve w done todo = (w', qs, out, ok) ->
  exists rest,
    List.map queryUrl (List.filter lacksMetrics todo) = qs ++ rest /\
    (ok = true -> rest = []).
Proof.
  revert done w qs. induction todo as [|security more IH]; intros done w qs.
  - cbn. intros H. injection H as <- <- <- <-. exists []. split; reflexivity.
  - cbn [enrichLoop List.filter].
    pose proof (enrichItem_queries w security) as Hq.
    destruct (enrichItem World fetchCve w security) as [[w1 q] [security'|]] eqn:He;
      cbn [fst snd] in Hq; subst q.
    + destruct (enrichLoop World fetchCve w1 (done ++ [security']) more)
        as [[[w2 qs'] out2] ok2] eqn:Hl.
      intros H. injection H as <- <- <- <-.
      destruct (IH _ _ _ Hl) as (rest & Hr & Hok). exists rest.
      split; [|exact Hok].
      destruct (lacksMetrics security); cbn [List.map app]; rewrite Hr; reflexivity.
    + intros H. injection H as <- <- <- <-.
      exists (List.map queryUrl (List.filter lacksMetrics more)).
      split; [|discriminate].
      destruct (lacksMetrics security); reflexivity.
Qed.

End RunFacts.

(** A run never touches the rest of the summary: the date index and the
    three other lists are stored as read, the security list keeps its
    length and its order, and every security item keeps its identifier,
    title, description, version and contributors, and the metrics it
    already had; this also holds for a run that an exception cuts short. *)
Theorem addCVE_frame (World : Type)
    (fetchCve : World -> string -> World * option CveData)
    (w : World) (summary : Summary) :
  versionDates (stored (addCVE World fetchCve w summary)) = versionDates summary /\
  bugs (stored (addCVE World fetchCve w summary)) = bugs summary /\
  features (stored (addCVE World fetchCve w summary)) = features summary /\
  performance (stored (addCVE World fetchCve w summary)) = performance summary /\
  Forall2 sameEntry (security summary)
          (security (stored (addCVE World fetchCve w summary))).
Proof.
  unfold addCVE.
  destruct (enrichLoop World fetchCve w [] (security summary))
    as [[[w' qs] out] ok] eqn:Hl.
  cbn [stored versionDates bugs features performance security].
  repeat split.
  destruct (enrichLoop_frame World fetchCve _ _ _ _ _ _ _ Hl) as (out' & -> & Hf).
  exact Hf.
Qed.

(** A run asks the service about the items without metrics only, once
    each and in the order of the list: the requests made are the first
    ones of that sequence, and all of it when the run reaches the end of
    the list. *)
Theorem addCVE_queries (World : Type)
    (fetchCve : World -> string -> World * option CveData)
    (w : World) (summary : Summary) :
  exists rest,
    List.map queryUrl (List.filter lacksMetrics (security summary)) =
    queries (addCVE World fetchCve w summary) ++ rest /\
    (completed (addCVE World fetchCve w summary) = true -> rest = []).
Proof.
  unfold addCVE.
  destruct (enrichLoop World fetchCve w [] (security summary))
    as [[[w' qs] out] ok] eqn:Hl.
  cbn [queries completed].
  apply (enrichLoop_queries World fetchCve _ _ _ _ _ _ _ Hl).
Qed.

End Enricher.

(* ===================================================================== *)
(** ** The Link Rewriter: [updateFormattedLinks] *)
(* ===================================================================== *)

Module LinkRewriter.
Import JS Summary.

Definition notClose (c : ascii) : bool := negb (Ascii.eqb c ")").

(** The pattern of [updateLinks] and [killLinks] tried at the start of
    [s]: an opening parenthesis, the group (one or more characters other
    than the closing parenthesis, then [.html], then any number of
    characters other than the closing parenthesis) and a closing
    parenthesis.  The group holds no closing parenthesis, so it is the
    text between the opening parenthesis and the first closing one, and
    the pattern matches when that text has [.html] after at least one
    character.  The result is the group [p1]. *)
Definition linkHere (s : string) : option string :=
  match s with
  | EmptyString => None
  | String o rest =>
      let '(p1, rest') := span notClose rest in
      if Ascii.eqb o "(" && startsWith rest' ")" && includes (drop 1 p1) ".html"
      then Some p1 else None
  end.

(** [text.replace(pattern, (match, p1) => replacer(p1))] with the [g]
    flag: every match, from left to right, none overlapping.  [skip]
    counts the characters of a match still to pass over. *)
Fixpoint replaceLinks (replacer : string -> string) (skip : nat) (text : string)
  : string :=
  match text with
  | EmptyString => EmptyString
  | String c t =>
      match skip with
      | S k => replaceLinks replacer k t
      | O =>
          match linkHere text with
          | Some p1 =>
              replacer p1 +:+ replaceLinks replacer (String.length p1 + 1) t
          | None => String c (replaceLinks replacer 0 t)
          end
      end
  end.

Definition baseUrlOf (version : string) : string :=
  let effectiveVersion := orElse version "0" in
  "https://www.postgresql.org/docs/" +:+
  List.hd EmptyString (split effectiveVersion ".") +:+ "/".

(** The replacer of [updateLinks]; [match] is the group in parentheses. *)
Definition absolute (baseUrl p1 : string) : string :=
  if negb (startsWith p1 "http") then "(" +:+ baseUrl +:+ p1 +:+ ")"
  else "(" +:+ p1 +:+ ")".

Definition updateLinks (text version : string) : string :=
  replaceLinks (absolute (baseUrlOf version)) 0 text.

(** The replacer of [killLinks]: [p1 ? '' : match]. *)
Definition killed (p1 : string) : string :=
  if String.eqb p1 EmptyString then "(" +:+ p1 +:+ ")" else EmptyString.

Definition killLinks (text : string) : string := replaceLinks killed 0 text.

(** [x || d] where [x] may be a member the object does not have. *)
Definition orUndefined (x : option string) (d : string) : string :=
  match x with
  | Some s => orElse s d
  | None => d
  end.

(** [item.fixedIn || item.sinceVersion || '0'] *)
Definition itemVersion (fixedIn sinceVersion : option string) : string :=
  orUndefined fixedIn (orUndefined sinceVersion "0").

(** [item.title ? killLinks(item.title) : item.title] *)
Definition newTitle (title : string) : string :=
  if String.eqb title EmptyString then title else killLinks title.

(** [item.description ? updateLinks(item.description, version) : item.description] *)
Definition newDescription (description version : string) : string :=
  if String.eqb description EmptyString then description
  else updateLinks description version.

Definition updateBug (item : BugItem) : BugItem :=
  let version := itemVersion (Some (b_fixedIn item)) None in
  mkBugItem (newTitle (b_title item)) (newDescription (b_description item) version)
    (b_fixedIn item) (b_significant item) (b_contributors item).

Definition updateFeature (item : FeatureItem) : FeatureItem :=
  let version := itemVersion None (Some (f_sinceVersion item)) in
  mkFeatureItem (newTitle (f_title item)) (newDescription (f_description item) version)
    (f_sinceVersion item) (f_significant item) (f_contributors item).

Definition updateSecurity (item : SecurityItem) : SecurityItem :=
  let version := itemVersion (Some (s_fixedIn item)) None in
  mkSecurityItem (s_cve item) (newTitle (s_title item))
    (newDescription (s_description item) version)
    (s_fixedIn item) (s_contributors item)
    (s_metrics item) (s_severity item) (s_impactScore item).

(** The [categories.forEach] of [updateFormattedLinks] on the parsed file. *)
Definition updateFormattedLinks (json : Summary) : Summary :=
  mkSummary (versionDates json)
    (List.map updateBug (bugs json))
    (List.map updateFeature (features json))
    (List.map updateFeature (performance json))
    (List.map updateSecurity (security json)).

(** The versions of a summary hold no closing parenthesis; every dotted
    numeric version is such. *)
Definition closedVersion (version : string) : Prop :=
  includes version ")" = false.

Definition closedVersions (json : Summary) : Prop :=
  Forall (fun item => closedVersion (b_fixedIn item)) (bugs json) /\
  Forall (fun item => closedVersion (f_sinceVersion item)) (features json) /\
  Forall (fun item => closedVersion (f_sinceVersion item)) (performance json) /\
  Forall (fun item => closedVersion (s_fixedIn item)) (security json).

Definition summary_links : Summary :=
  mkSummary ∅
    [mkBugItem "Fix [psql](app-psql.html) crash"
       "See [psql](app-psql.html) and (https://example.org/notes.html)."
       "16.1" false ["Carol"]]
    [mkFeatureItem "Add [MERGE](sql-merge.html)" "As in (sql-merge.html)" "15.0"
       true []]
    [] [].

(** *** Properties of the link rewriter *)

Lemma length_append (a b : string) :
  String.length (a +:+ b) = (String.length a + String.length b)%nat.
Proof.
  induction a as [|x a IH]; push_append; [reflexivity|].
  cbn [String.length]. rewrite IH. reflexivity.
Qed.

Lemma includes_drop1 (s w : string) :
  includes (drop 1 s) w = true -> includes s w = true.
Proof.
  destruct s as [|a s]; [exact (fun H => H)|].
  cbn [drop includes]. intros ->. apply orb_true_r.
Qed.

Lemma includes_tail_false (a : ascii) (s w : string) :
  includes (String a s) w = false -> includes s w = false.
Proof. cbn [includes]. intros H. apply orb_false_iff in H as [_ H]. exact H. Qed.

(** A group that the pattern accepts. *)
Definition validGroup (p1 : string) : Prop :=
  allChars notClose p1 = true /\ includes (drop 1 p1) ".html" = true.

Section Replace.

Variable replacer : string -> string.

Let R := replaceLinks replacer 0.

Lemma replaceLinks_skip (n : nat) (text : string) :
  replaceLinks replacer n text = R (drop n text).
Proof.
  revert n. induction text as [|c t IH]; intros n.
  - destruct n; reflexivity.
  - destruct n as [|k]; [reflexivity|]. cbn [replaceLinks drop]. apply IH.
Qed.

Lemma linkHere_valid (q rest : string) :
  validGroup q -> linkHere (String "(" (q +:+ String ")" rest)) = Some q.
Proof.
  intros [Hq Hh]. unfold linkHere.
  rewrite (span_append notClose q (String ")" rest) Hq eq_refl), Hh.
  reflexivity.
Qed.

Lemma linkHere_inv (c : ascii) (t p1 : string) :
  linkHere (String c t) = Some p1 ->
  exists after, c = "("%char /\ t = p1 +:+ String ")" after /\ validGroup p1.
Proof.
  unfold linkHere. destruct (span notClose t) as [p r] eqn:Hs.
  apply span_spec in Hs as (-> & Hp & _).
  destruct (Ascii.eqb_spec c "(") as [Hc|Hc]; [|discriminate].
  destruct r as [|e after]; [discriminate|]. cbn [startsWith andb].
  destruct (Ascii.eqb_spec ")" e) as [He|He]; [subst e|discriminate]. cbn [andb].
  destruct (includes (drop 1 p) ".html") eqn:Hh; [|discriminate].
  intros H. injection H as <-. exists after. repeat split; assumption.
Qed.

(** A match is replaced and the scan goes on after its closing
    parenthesis. *)
Lemma R_match (q rest : string) :
  validGroup q ->
  R (String "(" (q +:+ String ")" rest)) = replacer q +:+ R rest.
Proof.
  intros Hq. unfold R. cbn [replaceLinks]. rewrite (linkHere_valid q rest Hq).
  rewrite replaceLinks_skip.
  replace (String.length q + 1)%nat with (S (String.length q)) by lia.
  rewrite drop_append_S. reflexivity.
Qed.

Lemma R_none (c : ascii) (t : string) :
  linkHere (String c t) = None -> R (String c t) = String c (R t).
Proof. intros H. unfold R. cbn [replaceLinks]. rewrite H. reflexivity. Qed.

(** Where the text up to the next closing parenthesis has no [.html], no
    match starts in it: it is copied. *)
Lemma R_copy (t p r : string) :
  span notClose t = (p, r) ->
  (startsWith r ")" = true -> includes p ".html" = false) ->
  R t = p +:+ R r.
Proof.
  revert p r. induction t as [|a t IH]; intros p r Hs Hi.
  - cbn in Hs. injection Hs as <- <-. reflexivity.
  - cbn [span] in Hs. destruct (notClose a) eqn:Ha.
    + destruct (span notClose t) as [p' r'] eqn:Hs'. injection Hs as <- <-.
      assert (Hi' : startsWith r' ")" = true -> includes p' ".html" = false).
      { intros H. apply (includes_tail_false a). apply Hi. exact H. }
      rewrite R_none, (IH p' r' eq_refl Hi'); [reflexivity|].
      unfold linkHere. rewrite Hs'.
      destruct (startsWith r' ")") eqn:Hr; [|rewrite andb_false_r; reflexivity].
      destruct (includes (drop 1 p') ".html") eqn:Hd;
        [|rewrite andb_false_r; reflexivity].
      apply includes_drop1 in Hd. rewrite (Hi' eq_refl) in Hd. discriminate Hd.
    + injection Hs as <- <-. reflexivity.
Qed.

Lemma R_close (e : ascii) (r : string) :
  notClose e = false -> R (String e r) = String e (R r).
Proof.
  intros He. apply R_none. unfold linkHere.
  destruct (span notClose r) as [p r'].
  unfold notClose in He. apply negb_false_iff, Ascii.eqb_eq in He. subst e.
  reflexivity.
Qed.

(** Where the pattern does not match, it does not match after the rest of
    the text has been rewritten. *)
Lemma linkHere_none_stable (c : ascii) (t : string) :
  linkHere (String c t) = None -> linkHere (String c (R t)) = None.
Proof.
  unfold linkHere at 1. destruct (span notClose t) as [p r] eqn:Hs.
  destruct (Ascii.eqb c "(") eqn:Hc;
    [|intros _; unfold linkHere; destruct (span notClose (R t)); rewrite Hc;
      reflexivity].
  cbn [andb]. intros Hn.
  assert (Hi : startsWith r ")" = true -> includes (drop 1 p) ".html" = false).
  { intros Hr. rewrite Hr in Hn. cbn [andb] in Hn.
    destruct (includes (drop 1 p) ".html"); [discriminate|reflexivity]. }
  pose proof (span_spec notClose t p r Hs) as (Ht & Hp & Hstop).
  assert (HR : R t = p +:+ R r).
  { destruct t as [|a t']; [cbn in Hs; injection Hs as <- <-; reflexivity|].
    cbn [span] in Hs. destruct (notClose a) eqn:Ha.
    - destruct (span notClose t') as [p' r'] eqn:Hs'. injection Hs as <- <-.
      cbn [drop] in Hi. rewrite R_none, (R_copy t' p' r' Hs' Hi); [reflexivity|].
      unfold linkHere. rewrite Hs'.
      destruct (startsWith r' ")") eqn:Hr; [|rewrite andb_false_r; reflexivity].
      destruct (includes (drop 1 p') ".html") eqn:Hd;
        [|rewrite andb_false_r; reflexivity].
      apply includes_drop1 in Hd. rewrite (Hi eq_refl) in Hd. discriminate Hd.
    - injection Hs as <- <-. reflexivity. }
  unfold linkHere. rewrite HR, Hc.
  destruct r as [|e after].
  - change (R EmptyString) with EmptyString.
    rewrite (span_append notClose p EmptyString Hp I). reflexivity.
  - rewrite (R_close e after Hstop).
    rewrite (span_append notClose p (String e (R after)) Hp Hstop).
    cbn [andb]. cbn [startsWith] in Hi |- *.
    destruct (Ascii.eqb ")" e); [|reflexivity].
    cbn [andb] in Hi |- *. rewrite (Hi eq_refl). reflexivity.
Qed.

(** The replacer gives nothing, or a match in parentheses that it leaves
    as it is. *)
Definition stable : Prop :=
  forall p1, validGroup p1 ->
    replacer p1 = EmptyString \/
    exists q, replacer p1 = String "(" (q +:+ ")") /\ validGroup q /\
              replacer q = String "(" (q +:+ ")").

Lemma R_idempotent_bounded (n : nat) (text : string) :
  stable -> (String.length text <= n)%nat -> R (R text) = R text.
Proof.
  intros Hst. revert text. induction n as [|n IH]; intros text Hn.
  - destruct text; [reflexivity|cbn [String.length] in Hn; lia].
  - destruct text as [|c t]; [reflexivity|].
    cbn [String.length] in Hn.
    destruct (linkHere (String c t)) as [p1|] eqn:Hl.
    + destruct (linkHere_inv c t p1 Hl) as (after & -> & -> & Hv).
      rewrite (R_match p1 after Hv).
      assert (Ha : R (R after) = R after).
      { apply IH. rewrite length_append in Hn. cbn [String.length] in Hn. lia. }
      destruct (Hst p1 Hv) as [->|(q & -> & Hq & Hfix)].
      * rewrite append_nil_l. exact Ha.
      * push_append. rewrite append_assoc. push_append.
        rewrite (R_match q (R after) Hq), Hfix, Ha.
        push_append. rewrite append_assoc. reflexivity.
    + rewrite (R_none c t Hl).
      rewrite (R_none c (R t) (linkHere_none_stable c t Hl)).
      rewrite IH; [reflexivity|lia].
Qed.

Lemma R_idempotent (text : string) : stable -> R (R text) = R text.
Proof. intros Hst. apply (R_idempotent_bounded (String.length text)); auto. Qed.

End Replace.

Lemma killed_stable : stable killed.
Proof.
  intros p1 [_ Hh]. left. unfold killed.
  destruct p1 as [|a p1]; [discriminate Hh|reflexivity].
Qed.

Lemma absolute_stable (baseUrl : string) :
  allChars notClose baseUrl = true -> startsWith baseUrl "http" = true ->
  stable (absolute baseUrl).
Proof.
  intros Hb Hs p1 [Hp Hh]. right. unfold absolute at 1.
  destruct (startsWith p1 "http") eqn:H1; cbn [negb].
  - exists p1. push_append. split; [reflexivity|]. split; [split; assumption|].
    unfold absolute. rewrite H1. reflexivity.
  - exists (baseUrl +:+ p1). push_append. rewrite <- append_assoc.
    split; [reflexivity|].
    assert (Hq : startsWith (baseUrl +:+ p1) "http" = true)
      by (apply startsWith_append; exact Hs).
    split; [split|].
    + rewrite allChars_append, Hb, Hp. reflexivity.
    + destruct baseUrl as [|b bs]; [discriminate Hs|].
      rewrite append_cons. cbn [drop].
      apply includes_append_l, includes_drop1. exact Hh.
    + unfold absolute. rewrite Hq. reflexivity.
Qed.

Lemma splitFrom_allChars (p : ascii -> bool) (sep : string) (s : string) :
  forall (skip : nat) (cur : string),
    allChars p cur = true -> allChars p s = true ->
    Forall (fun piece => allChars p piece = true) (splitFrom sep skip cur s).
Proof.
  induction s as [|c t IH]; intros skip cur Hc Hs.
  - constructor; [exact Hc|constructor].
  - cbn [allChars] in Hs. apply andb_true_iff in Hs as [Hpc Ht].
    cbn [splitFrom]. destruct skip as [|k]; [|apply IH; assumption].
    destruct (startsWith (String c t) sep).
    + constructor; [exact Hc|]. apply IH; [reflexivity|exact Ht].
    + apply IH; [|exact Ht].
      rewrite allChars_append, Hc. cbn [allChars]. rewrite Hpc. reflexivity.
Qed.

Lemma closedVersion_allChars (version : string) :
  closedVersion version <-> allChars notClose version = true.
Proof. unfold closedVersion. apply includes_char_false. Qed.

(** The versions of the data model, dotted numeric strings, are closed. *)
Lemma dottedNumeric_closed (version : string) :
  allChars (fun c => Parser.isDigit c || Ascii.eqb c ".") version = true ->
  closedVersion version.
Proof.
  intros H. apply closedVersion_allChars.
  refine (allChars_impl _ notClose version _ H).
  intros c Hc. unfold notClose.
  destruct (Ascii.eqb_spec c ")") as [->|_]; [discriminate Hc|reflexivity].
Qed.

Lemma orElse_closed (version : string) :
  closedVersion version -> closedVersion (orElse version "0").
Proof.
  intros H. unfold orElse. destruct (String.eqb version EmptyString);
    [reflexivity|exact H].
Qed.

Lemma baseUrlOf_closed (version : string) :
  closedVersion version ->
  allChars notClose (baseUrlOf version) = true /\
  startsWith (baseUrlOf version) "http" = true.
Proof.
  intros H. apply orElse_closed, closedVersion_allChars in H.
  unfold baseUrlOf. split; [|apply startsWith_append; reflexivity].
  rewrite !allChars_append. 
  pose proof (splitFrom_allChars notClose "." (orElse version "0") 0 EmptyString
                eq_refl H) as Hf.
  fold (split (orElse version "0") ".") in Hf.
  destruct (split (orElse version "0") ".") as [|major rest]; [reflexivity|].
  apply Forall_cons in Hf as [Hm _]. cbn [List.hd]. rewrite Hm. reflexivity.
Qed.

Lemma killLinks_idempotent (text : string) :
  killLinks (killLinks text) = killLinks text.
Proof. apply R_idempotent, killed_stable. Qed.

Lemma updateLinks_idempotent (text version : string) :
  closedVersion version ->
  updateLinks (updateLinks text version) version = updateLinks text version.
Proof.
  intros H. destruct (baseUrlOf_closed version H) as [Hc Hs].
  apply R_idempotent, absolute_stable; assumption.
Qed.

Lemma newTitle_idempotent (title : string) :
  newTitle (newTitle title) = newTitle title.
Proof.
  unfold newTitle. destruct (String.eqb title EmptyString) eqn:Ht;
    [rewrite Ht; reflexivity|].
  destruct (String.eqb (killLinks title) EmptyString); [reflexivity|].
  apply killLinks_idempotent.
Qed.

Lemma newDescription_idempotent (description version : string) :
  closedVersion version ->
  newDescription (newDescription description version) version =
  newDescription description version.
Proof.
  intros H. unfold newDescription.
  destruct (String.eqb description EmptyString) eqn:Hd;
    [rewrite Hd; reflexivity|].
  destruct (String.eqb (updateLinks description version) EmptyString);
    [reflexivity|].
  apply updateLinks_idempotent. exact H.
Qed.

Lemma updateBug_idempotent (item : BugItem) :
  closedVersion (b_fixedIn item) -> updateBug (updateBug item) = updateBug item.
Proof.
  intros H. unfold updateBug. cbn.
  rewrite newTitle_idempotent, newDescription_idempotent;
    [reflexivity|apply orElse_closed; exact H].
Qed.

Lemma updateFeature_idempotent (item : FeatureItem) :
  closedVersion (f_sinceVersion item) ->
  updateFeature (updateFeature item) = updateFeature item.
Proof.
  intros H. unfold updateFeature. cbn.
  rewrite newTitle_idempotent, newDescription_idempotent;
    [reflexivity|apply orElse_closed; exact H].
Qed.

Lemma updateSecurity_idempotent (item : SecurityItem) :
  closedVersion (s_fixedIn item) ->
  updateSecurity (updateSecurity item) = updateSecurity item.
Proof.
  intros H. unfold updateSecurity. cbn.
  rewrite newTitle_idempotent, newDescription_idempotent;
    [reflexivity|apply orElse_closed; exact H].
Qed.

Lemma map_idempotent {A} (f : A -> A) (P : A -> Prop) (l : list A) :
  (forall x, P x -> f (f x) = f x) -> Forall P l ->
  List.map f (List.map f l) = List.map f l.
Proof.
  intros Hf Hl. induction Hl as [|x l Hx _ IH]; cbn; [reflexivity|].
  rewrite (Hf x Hx), IH. reflexivity.
Qed.

(** A summary with one bug whose version holds a closing parenthesis. *)
Definition summary_open_version : Summary :=
  mkSummary ∅ [mkBugItem "Fix crash" "(a.html)" ")(" false []] [] [] [].

(** C8 as stated fails: on a summary whose version holds a closing
    parenthesis the rewritten target is cut short at that parenthesis, so
    the second pass finds a new relative target and rewrites it: applying
    the rewriter twice is not applying it once. *)
Lemma updateFormattedLinks_twice_counterexample :
  (List.map b_description (bugs (updateFormattedLinks summary_open_version)) =
     ["(https://www.postgresql.org/docs/)(/a.html)"]) /\
  (List.map b_description
     (bugs (updateFormattedLinks (updateFormattedLinks summary_open_version))) =
     ["(https://www.postgresql.org/docs/)(https://www.postgresql.org/docs/)(//a.html)"]) /\
  updateFormattedLinks (updateFormattedLinks summary_open_version) <>
  updateFormattedLinks summary_open_version.
Proof.
  split; [reflexivity|]. split; [reflexivity|].
  intros H. apply (f_equal (fun json => List.map b_description (bugs json))) in H.
  vm_compute in H. discriminate H.
Qed.

(** C8, amended.  The Link Rewriter is idempotent on the summaries whose
    versions hold no closing parenthesis.  Stripping the link targets of a
    title twice is stripping them once.  In a description a target ending
    the pattern in [.html] is rewritten to an absolute URL only when it
    does not start with "http", and it is left as it is when it does; so,
    for a version without closing parenthesis (every dotted numeric
    version), rewriting a description twice is rewriting it once.  Hence
    applying the rewriter twice to a summary of such versions yields what
    applying it once yields. *)
Theorem updateFormattedLinks_idempotent :
  (forall title : string, killLinks (killLinks title) = killLinks title)
  /\ (forall target rest version : string,
        validGroup target ->
        updateLinks (String "(" (target +:+ String ")" rest)) version =
        (if startsWith target "http"
         then String "(" (target +:+ ")")
         else String "(" (baseUrlOf version +:+ target +:+ ")"))
        +:+ updateLinks rest version)
  /\ (forall text version : string,
        closedVersion version ->
        updateLinks (updateLinks text version) version = updateLinks text version)
  /\ (forall json : Summary,
        closedVersions json ->
        updateFormattedLinks (updateFormattedLinks json) = updateFormattedLinks json).
Proof.
  split; [exact killLinks_idempotent|].
  split; [|split; [exact updateLinks_idempotent|]].
  - intros target rest version Hv. unfold updateLinks.
    rewrite (R_match _ target rest Hv). unfold absolute at 1.
    destruct (startsWith target "http"); cbn [negb]; push_append; reflexivity.
  - intros json (Hb & Hf & Hp & Hs). unfold updateFormattedLinks.
    cbn [versionDates bugs features performance security].
    rewrite (map_idempotent updateBug _ _ updateBug_idempotent Hb).
    rewrite (map_idempotent updateFeature _ _ updateFeature_idempotent Hf).
    rewrite (map_idempotent updateFeature _ _ updateFeature_idempotent Hp).
    rewrite (map_idempotent updateSecurity _ _ updateSecurity_idempotent Hs).
    reflexivity.
Qed.

(** The theorem at [summary_links], whose versions are 16.1 and 15.0. *)
Lemma updateFormattedLinks_idempotent_witness :
  updateFormattedLinks (updateFormattedLinks summary_links) =
  updateFormattedLinks summary_links.
Proof.
  apply (proj2 (proj2 (proj2 updateFormattedLinks_idempotent)) summary_links).
  repeat split; repeat constructor.
Defined.

(** Why the versions matter: with a closing parenthesis in the version the
    rewritten target is cut short, and a second pass rewrites again. *)
Example updateLinks_open_version :
  updateLinks "(a.html)" ")(" = "(https://www.postgresql.org/docs/)(/a.html)" /\
  updateLinks (updateLinks "(a.html)" ")(") ")(" <> updateLinks "(a.html)" ")(".
Proof. split; [reflexivity|]. vm_compute. discriminate. Qed.

(** *** What the rewriter leaves in the texts *)

(** The groups of the matches of the pattern in [text], from left to
    right and none overlapping, as the [g] flag finds them. *)
Fixpoint linkTargetsFrom (skip : nat) (text : string) : list string :=
  match text with
  | EmptyString => []
  | String c t =>
      match skip with
      | S k => linkTargetsFrom k t
      | O =>
          match linkHere text with
          | Some p1 => p1 :: linkTargetsFrom (String.length p1 + 1) t
          | None => linkTargetsFrom 0 t
          end
      end
  end.

Definition linkTargets (text : string) : list string := linkTargetsFrom 0 text.

(** The group that [updateLinks] puts in the place of the group [p1]. *)
Definition absoluteTarget (baseUrl p1 : string) : string :=
  if startsWith p1 "http" then p1 else baseUrl +:+ p1.

Definition titles (json : Summary) : list string :=
  List.map b_title (bugs json) ++ List.map f_title (features json) ++
  List.map f_title (performance json) ++ List.map s_title (security json).

Definition descriptions (json : Summary) : list string :=
  List.map b_description (bugs json) ++ List.map f_description (features json) ++
  List.map f_description (performance json) ++
  List.map s_description (security json).

(** The pattern matches at no position of [text]. *)
Definition linkFree (text : string) : Prop :=
  forall n : nat, linkHere (drop n text) = None.

Lemma linkTargets_skip (n : nat) (text : string) :
  linkTargetsFrom n text = linkTargets (drop n text).
Proof.
  revert n. induction text as [|c t IH]; intros n.
  - destruct n; reflexivity.
  - destruct n as [|k]; [reflexivity|]. cbn [linkTargetsFrom drop]. apply IH.
Qed.

Lemma linkTargets_match (q rest : string) :
  validGroup q ->
  linkTargets (String "(" (q +:+ String ")" rest)) = q :: linkTargets rest.
Proof.
  intros Hq. unfold linkTargets at 1. cbn [linkTargetsFrom].
  rewrite (linkHere_valid q rest Hq), linkTargets_skip.
  replace (String.length q + 1)%nat with (S (String.length q)) by lia.
  rewrite drop_append_S. reflexivity.
Qed.

Lemma linkTargets_none (c : ascii) (t : string) :
  linkHere (String c t) = None -> linkTargets (String c t) = linkTargets t.
Proof. intros H. unfold linkTargets at 1. cbn [linkTargetsFrom]. rewrite H. reflexivity. Qed.

Lemma linkFree_empty : linkFree EmptyString.
Proof. intros [|n]; reflexivity. Qed.

Lemma linkFree_cons (c : ascii) (t : string) :
  linkHere (String c t) = None -> linkFree t -> linkFree (String c t).
Proof. intros Hc Ht [|n]; [exact Hc|exact (Ht n)]. Qed.

Lemma linkHere_html (text p1 : string) :
  linkHere text = Some p1 -> includes text ".html" = true.
Proof.
  destruct text as [|c t]; [discriminate|]. intros H.
  destruct (linkHere_inv c t p1 H) as (after & -> & -> & _ & Hh).
  change (String "(" (p1 +:+ String ")" after))
    with ("(" +:+ (p1 +:+ String ")" after)).
  apply includes_append_l, includes_append_r, includes_drop1. exact Hh.
Qed.

Section Rewritten.

Variable replacer : string -> string.

(** A replacer that removes every match leaves no match behind. *)
Lemma removed_linkFree_bounded (n : nat) (text : string) :
  (forall p1, validGroup p1 -> replacer p1 = EmptyString) ->
  (String.length text <= n)%nat -> linkFree (replaceLinks replacer 0 text).
Proof.
  intros Hr. revert text. induction n as [|n IH]; intros text Hn.
  - destruct text; [exact linkFree_empty|cbn [String.length] in Hn; lia].
  - destruct text as [|c t]; [exact linkFree_empty|].
    cbn [String.length] in Hn.
    destruct (linkHere (String c t)) as [p1|] eqn:Hl.
    + destruct (linkHere_inv c t p1 Hl) as (after & -> & -> & Hv).
      rewrite (R_match replacer p1 after Hv), (Hr p1 Hv), append_nil_l.
      apply IH. rewrite length_append in Hn. cbn [String.length] in Hn. lia.
    + rewrite (R_none replacer c t Hl). apply linkFree_cons.
      * apply linkHere_none_stable. exact Hl.
      * apply IH. lia.
Qed.

(** A replacer that puts a group in the place of each group leaves as many
    matches, with the new groups, in the same order. *)
Lemma rewritten_targets_bounded (f : string -> string) (n : nat) (text : string) :
  (forall p1, validGroup p1 ->
     validGroup (f p1) /\ replacer p1 = String "(" (f p1 +:+ ")")) ->
  (String.length text <= n)%nat ->
  linkTargets (replaceLinks replacer 0 text) = List.map f (linkTargets text).
Proof.
  intros Hr. revert text. induction n as [|n IH]; intros text Hn.
  - destruct text; [reflexivity|cbn [String.length] in Hn; lia].
  - destruct text as [|c t]; [reflexivity|].
    cbn [String.length] in Hn.
    destruct (linkHere (String c t)) as [p1|] eqn:Hl.
    + destruct (linkHere_inv c t p1 Hl) as (after & -> & -> & Hv).
      destruct (Hr p1 Hv) as [Hq Hf].
      rewrite (R_match replacer p1 after Hv), Hf, (linkTargets_match p1 after Hv).
      push_append. rewrite append_assoc. push_append.
      rewrite (linkTargets_match (f p1) _ Hq). cbn [List.map]. f_equal.
      apply IH. rewrite length_append in Hn. cbn [String.length] in Hn. lia.
    + rewrite (R_none replacer c t Hl), (linkTargets_none c t Hl).
      rewrite (linkTargets_none c _ (linkHere_none_stable replacer c t Hl)).
      apply IH. lia.
Qed.

(** A text without [.html] has no match, and is left as it is. *)
Lemma replaceLinks_no_html (text : string) :
  includes text ".html" = false -> replaceLinks replacer 0 text = text.
Proof.
  induction text as [|c t IH]; [reflexivity|]. intros H.
  rewrite R_none.
  - rewrite IH; [reflexivity|]. apply (includes_tail_false c). exact H.
  - destruct (linkHere (String c t)) as [p1|] eqn:Hl; [|reflexivity].
    apply linkHere_html in Hl. rewrite Hl in H. discriminate H.
Qed.

End Rewritten.

Lemma killLinks_linkFree (title : string) : linkFree (killLinks title).
Proof.
  apply (removed_linkFree_bounded killed (String.length title)); [|lia].
  intros p1 [_ Hh]. unfold killed.
  destruct p1 as [|a p1]; [discriminate Hh|reflexivity].
Qed.

Lemma newTitle_linkFree (title : string) : linkFree (newTitle title).
Proof.
  unfold newTitle. destruct (String.eqb_spec title EmptyString) as [->|_];
    [exact linkFree_empty|apply killLinks_linkFree].
Qed.

Lemma absoluteTarget_valid (baseUrl p1 : string) :
  allChars notClose baseUrl = true -> startsWith baseUrl "http" = true ->
  validGroup p1 ->
  validGroup (absoluteTarget baseUrl p1) /\
  absolute baseUrl p1 = String "(" (absoluteTarget baseUrl p1 +:+ ")").
Proof.
  intros Hb Hs [Hp Hh]. unfold absolute, absoluteTarget.
  destruct (startsWith p1 "http"); cbn [negb].
  - split; [split; assumption|]. push_append. reflexivity.
  - split.
    + split; [rewrite allChars_append, Hb, Hp; reflexivity|].
      destruct baseUrl as [|b bs]; [discriminate Hs|].
      rewrite append_cons. cbn [drop].
      apply includes_append_l, includes_drop1. exact Hh.
    + push_append. rewrite <- append_assoc. reflexivity.
Qed.

Lemma updateLinks_linkTargets (text version : string) :
  closedVersion version ->
  linkTargets (updateLinks text version) =
  List.map (absoluteTarget (baseUrlOf version)) (linkTargets text).
Proof.
  intros H. destruct (baseUrlOf_closed version H) as [Hc Hs].
  apply (rewritten_targets_bounded _ _ (String.length text)); [|lia].
  intros p1 Hv. apply absoluteTarget_valid; assumption.
Qed.

Lemma absoluteTarget_http (version p1 : string) :
  startsWith (absoluteTarget (baseUrlOf version) p1) "http" = true.
Proof.
  unfold absoluteTarget. destruct (startsWith p1 "http") eqn:Hp; [exact Hp|].
  unfold baseUrlOf. apply startsWith_append. reflexivity.
Qed.

Lemma updateLinks_http (text version : string) :
  closedVersion version ->
  Forall (fun p1 => startsWith p1 "http" = true)
         (linkTargets (updateLinks text version)).
Proof.
  intros H. rewrite (updateLinks_linkTargets text version H).
  apply Forall_forall. intros p Hin. apply list_elem_of_In, List.in_map_iff in Hin.
  destruct Hin as (p1 & <- & _). apply absoluteTarget_http.
Qed.

Lemma newDescription_http (description version : string) :
  closedVersion version ->
  Forall (fun p1 => startsWith p1 "http" = true)
         (linkTargets (newDescription description version)).
Proof.
  intros H. unfold newDescription.
  destruct (String.eqb_spec description EmptyString) as [->|_];
    [constructor|apply updateLinks_http; exact H].
Qed.

Lemma Forall_map_of {A B} (P : B -> Prop) (Q : A -> Prop) (f : A -> B)
    (l : list A) :
  (forall x, Q x -> P (f x)) -> Forall Q l -> Forall P (List.map f l).
Proof.
  intros H Hl. induction Hl as [|x l Hx _ IH]; cbn; constructor; auto.
Qed.

(** After the rewriter, the pattern of [killLinks] matches at no position
    of a title: of the result of [killLinks], and so of every title of
    the rewritten file. *)
Theorem titles_without_links :
  (forall title : string, linkFree (killLinks title)) /\
  (forall json : Summary, Forall linkFree (titles (updateFormattedLinks json))).
Proof.
  split; [exact killLinks_linkFree|].
  intros json. unfold titles, updateFormattedLinks.
  cbn [bugs features performance security].
  rewrite !List.map_map. repeat apply Forall_app_2;
    apply Forall_forall; intros t Hin; apply list_elem_of_In, List.in_map_iff in Hin;
    destruct Hin as (item & <- & _); apply newTitle_linkFree.
Qed.

(** [updateLinks] keeps the matches of a description, in number and in
    order, and rewrites the group of each: a group that starts with
    [http] stays, any other gets the base URL of the version in front.
    So every link target the pattern finds in a rewritten description is
    absolute, and so it is in every description of the rewritten file
    whose versions hold no closing parenthesis. *)
Theorem descriptions_absolute :
  (forall text version : string,
     closedVersion version ->
     linkTargets (updateLinks text version) =
     List.map (absoluteTarget (baseUrlOf version)) (linkTargets text)) /\
  (forall json : Summary,
     closedVersions json ->
     Forall (fun description =>
               Forall (fun p1 => startsWith p1 "http" = true)
                      (linkTargets description))
            (descriptions (updateFormattedLinks json))).
Proof.
  split; [exact updateLinks_linkTargets|].
  intros json (Hb & Hf & Hp & Hs). unfold descriptions, updateFormattedLinks.
  cbn [bugs features performance security].
  rewrite !List.map_map. repeat apply Forall_app_2.
  - refine (Forall_map_of _ _ _ _ _ Hb). intros item Hi. cbn.
    apply newDescription_http, orElse_closed, Hi.
  - refine (Forall_map_of _ _ _ _ _ Hf). intros item Hi. cbn.
    apply newDescription_http, orElse_closed, Hi.
  - refine (Forall_map_of _ _ _ _ _ Hp). intros item Hi. cbn.
    apply newDescription_http, orElse_closed, Hi.
  - refine (Forall_map_of _ _ _ _ _ Hs). intros item Hi. cbn.
    apply newDescription_http, orElse_closed, Hi.
Qed.

(** The theorem at [summary_links]: the two targets of the first
    description, one relative and one absolute, and the descriptions of
    the rewritten summary. *)
Lemma descriptions_absolute_witness :
  linkTargets
    (updateLinks "See [psql](app-psql.html) and (https://example.org/notes.html)."
                 "16.1") =
  ["https://www.postgresql.org/docs/16/app-psql.html";
   "https://example.org/notes.html"] /\
  Forall (fun description =>
            Forall (fun p1 => startsWith p1 "http" = true)
                   (linkTargets description))
         (descriptions (updateFormattedLinks summary_links)).
Proof.
  split.
  - rewrite (proj1 descriptions_absolute _ "16.1" eq_refl). reflexivity.
  - apply (proj2 descriptions_absolute summary_links).
    repeat split; repeat constructor.
Defined.

(** A text without [.html] has no link target: [killLinks] and
    [updateLinks] return it as it is. *)
Theorem text_without_html_unchanged (text version : string) :
  includes text ".html" = false ->
  killLinks text = text /\ updateLinks text version = text.
Proof.
  intros H. unfold killLinks, updateLinks.
  split; apply replaceLinks_no_html; exact H.
Qed.

Lemma text_without_html_unchanged_witness :
  killLinks "Fix crash in (rare) cases" = "Fix crash in (rare) cases" /\
  updateLinks "Fix crash in (rare) cases" "16.1" = "Fix crash in (rare) cases".
Proof. apply text_without_html_unchanged. reflexivity. Defined.

End LinkRewriter.

(* ===================================================================== *)
(** ** The scraper: [scrapeAllVersions] *)
(* ===================================================================== *)

Module Scraper.
Import JS.

Definition BASE_URL : string := "https://www.postgresql.org/docs/release/".

(** [saveToCacheFile]: the cache directory maps a file name to its
    content, and writing a file replaces what it held.  The calls of the
    file system ([mkdir], [writeFile]) are taken to succeed. *)
Definition saveToCacheFile (cache : gmap string string) (filename content : string)
  : gmap string string :=
  <[filename := content]> cache.

(** [`${BASE_URL}${version}/`] *)
Definition versionUrl (version : string) : string := BASE_URL +:+ version +:+ "/".

Section Scrape.

(** The site: its state and [fetchPage], [None] standing for the rejected
    promise of a failed request or of an answer that is not [ok]. *)
Variable Web : Type.
Variable fetchPage : Web -> string -> Web * option string.

(** cheerio's reading of the version list of the main page. *)
Variable extractVersions : string -> list string.

(** One version: its own [try]/[catch] keeps a failure to itself. *)
Definition scrapeSpecificVersion (state : Web * gmap string string)
    (version : string) : Web * gmap string string :=
  let '(w, cache) := state in
  let '(w', answer) := fetchPage w (versionUrl version) in
  match answer with
  | Some versionHtml => (w', saveToCacheFile cache (version +:+ ".html") versionHtml)
  | None => (w', cache)
  end.

Definition scrapeAllVersions (state : Web * gmap string string)
  : Web * gmap string string :=
  let '(w, cache) := state in
  let '(w', answer) := fetchPage w BASE_URL in
  match answer with
  | Some mainPageHtml =>
      fold_left scrapeSpecificVersion (extractVersions mainPageHtml)
                (w', saveToCacheFile cache "index.html" mainPageHtml)
  | None => (w', cache)
  end.

(** A page the site has served for the URL of [version]. *)
Definition served (version html : string) : Prop :=
  exists w w', fetchPage w (versionUrl version) = (w', Some html).

Lemma scrapeSpecificVersion_other (state : Web * gmap string string)
    (version file : string) :
  file <> version +:+ ".html" ->
  (scrapeSpecificVersion state version).2 !! file = state.2 !! file.
Proof.
  intros Hne. destruct state as [w cache]. unfold scrapeSpecificVersion.
  destruct (fetchPage w (versionUrl version)) as [w' [html|]]; cbn [snd];
    [|reflexivity].
  unfold saveToCacheFile. apply lookup_insert_ne. congruence.
Qed.

Lemma scrape_versions_other (versions : list string)
    (state : Web * gmap string string) (file : string) :
  (forall version, In version versions -> file <> version +:+ ".html") ->
  (fold_left scrapeSpecificVersion versions state).2 !! file = state.2 !! file.
Proof.
  revert state. induction versions as [|v rest IH]; intros state H; [reflexivity|].
  cbn [fold_left]. rewrite IH by (intros x Hx; apply H; right; exact Hx).
  apply scrapeSpecificVersion_other. apply H. left. reflexivity.
Qed.

Lemma scrape_versions_keep (versions : list string)
    (state : Web * gmap string string) (version : string) :
  (exists html, state.2 !! (version +:+ ".html") = Some html /\ served version html) ->
  exists html,
    (fold_left scrapeSpecificVersion versions state).2 !! (version +:+ ".html")
      = Some html /\ served version html.
Proof.
  revert state. induction versions as [|v rest IH]; intros state H; [exact H|].
  cbn [fold_left]. apply IH. destruct H as (html & Hl & Hs).
  destruct (String.eqb_spec v version) as [->|Hne].
  - destruct state as [w cache]. unfold scrapeSpecificVersion.
    destruct (fetchPage w (versionUrl version)) as [w' [html'|]] eqn:Hf; cbn [snd].
    + exists html'. split; [apply lookup_insert_eq|]. exists w, w'. exact Hf.
    + exists html. split; assumption.
  - exists html. split; [|exact Hs].
    rewrite scrapeSpecificVersion_other; [exact Hl|].
    intros E. apply Hne. symmetry. apply (append_inj_r _ _ ".html" E).
Qed.

Lemma scrape_versions_fresh (versions : list string)
    (state : Web * gmap string string) (version : string) :
  In version versions ->
  (forall w, exists w' html, fetchPage w (versionUrl version) = (w', Some html)) ->
  exists html,
    (fold_left scrapeSpecificVersion versions state).2 !! (version +:+ ".html")
      = Some html /\ served version html.
Proof.
  revert state. induction versions as [|v rest IH]; intros state Hin Hok;
    [destruct Hin|].
  cbn [fold_left]. destruct (String.eqb_spec v version) as [->|Hne].
  - apply scrape_versions_keep. destruct state as [w cache].
    unfold scrapeSpecificVersion. destruct (Hok w) as (w' & html & Hf).
    rewrite Hf. cbn [snd]. exists html. split; [apply lookup_insert_eq|].
    exists w, w'. exact Hf.
  - destruct Hin as [E|Hin]; [congruence|]. apply IH; assumption.
Qed.

End Scrape.

(** A site that serves the main page and every version but 16.1. *)
Definition flaky (w : nat) (url : string) : nat * option string :=
  (S w, if String.eqb url (versionUrl "16.1") then None else Some ("page of " +:+ url)).

(** A failed request does not stop the run: when the main page is fetched
    and lists [version], and the site answers the requests for the page of
    [version], the cache holds under [version.html] a page the site has
    served for it, whatever becomes of the requests for the other
    versions. *)
Theorem scrapeAllVersions_resilient (Web : Type)
    (fetchPage : Web -> string -> Web * option string)
    (extractVersions : string -> list string)
    (w w1 : Web) (cache : gmap string string) (mainPageHtml version : string) :
  fetchPage w BASE_URL = (w1, Some mainPageHtml) ->
  In version (extractVersions mainPageHtml) ->
  (forall w0, exists w' html, fetchPage w0 (versionUrl version) = (w', Some html)) ->
  exists html,
    (scrapeAllVersions Web fetchPage extractVersions (w, cache)).2
      !! (version +:+ ".html") = Some html /\
    served Web fetchPage version html.
Proof.
  intros Hm Hin Hok. unfold scrapeAllVersions. rewrite Hm.
  apply scrape_versions_fresh; assumption.
Qed.

Lemma scrapeAllVersions_resilient_witness :
  exists html,
    (scrapeAllVersions nat flaky (fun _ => ["16.0"; "16.1"; "16.2"]) (0%nat, ∅)).2
      !! ("16.2" +:+ ".html") = Some html /\
    served nat flaky "16.2" html.
Proof.
  apply (scrapeAllVersions_resilient nat flaky (fun _ => ["16.0"; "16.1"; "16.2"])
           0%nat 1%nat ∅ ("page of " +:+ BASE_URL) "16.2").
  - reflexivity.
  - right. right. left. reflexivity.
  - intros w0. exists (S w0), ("page of " +:+ versionUrl "16.2"). reflexivity.
Defined.

(** What a run writes: nothing when the main page cannot be fetched;
    otherwise only [index.html] and the files of the versions the main
    page lists, and [index.html] holds the main page unless a version
    named "index" is listed. *)
Theorem scrapeAllVersions_writes (Web : Type)
    (fetchPage : Web -> string -> Web * option string)
    (extractVersions : string -> list string)
    (w : Web) (cache : gmap string string) :
  (forall w1, fetchPage w BASE_URL = (w1, None) ->
     (scrapeAllVersions Web fetchPage extractVersions (w, cache)).2 = cache)
  /\ (forall w1 mainPageHtml file,
        fetchPage w BASE_URL = (w1, Some mainPageHtml) ->
        file <> "index.html" ->
        (forall version, In version (extractVersions mainPageHtml) ->
                         file <> version +:+ ".html") ->
        (scrapeAllVersions Web fetchPage extractVersions (w, cache)).2 !! file
        = cache !! file)
  /\ (forall w1 mainPageHtml,
        fetchPage w BASE_URL = (w1, Some mainPageHtml) ->
        ~ In "index" (extractVersions mainPageHtml) ->
        (scrapeAllVersions Web fetchPage extractVersions (w, cache)).2 !! "index.html"
        = Some mainPageHtml).
Proof.
  unfold scrapeAllVersions. split; [|split].
  - intros w1 ->. reflexivity.
  - intros w1 mainPageHtml file -> Hi Hv.
    rewrite scrape_versions_other by exact Hv. cbn [snd].
    unfold saveToCacheFile. apply lookup_insert_ne. congruence.
  - intros w1 mainPageHtml -> Hn.
    rewrite scrape_versions_other.
    + cbn [snd]. apply lookup_insert_eq.
    + intros version Hin E. apply Hn.
      change "index.html" with ("index" +:+ ".html") in E.
      apply append_inj_r in E. subst version. exact Hin.
Qed.

Lemma scrapeAllVersions_writes_witness :
  (scrapeAllVersions nat flaky (fun _ => ["16.0"; "16.1"; "16.2"])
     (0%nat, <["notes.txt" := "kept"]> ∅)).2 !! "notes.txt" = Some "kept".
Proof.
  rewrite (proj1 (proj2 (scrapeAllVersions_writes nat flaky
                           (fun _ => ["16.0"; "16.1"; "16.2"]) 0%nat
                           (<["notes.txt" := "kept"]> ∅)))
             1%nat ("page of " +:+ BASE_URL) "notes.txt").
  - reflexivity.
  - reflexivity.
  - discriminate.
  - intros version [<-|[<-|[<-|[]]]]; discriminate.
Defined.

End Scraper.

(* ===================================================================== *)
(** ** The pipeline: [process] then [format] *)
(* ===================================================================== *)

Module Pipeline.
Import JS Summary.

(** The commands [process] and [format] one after the other, from the
    listing of the cache directory to the summary. *)
Definition formatted (translate : string -> string)
    (readDocument : string -> Extractor.Document) (files : list string)
  : option Summary :=
  option_map
    (fun releaseData =>
       Aggregator.generateSummary (Classifier.processReleaseNotes releaseData))
    (Extractor.parseReleaseNotes translate readDocument files).

(** One cached document for version 16.1, dated 2023-11-09, with the
    single item "Fix crash in parser (Carol)", gives one [bugs] entry and
    the date of 16.1. *)
Theorem end_to_end_16_1 :
  exists summary,
    formatted (fun s => s) Extractor.cache_16 ["index.html"; "16.1.html"]
      = Some summary /\
    bugs summary = [mkBugItem "Fix crash in parser" EmptyString "16.1" false ["Carol"]] /\
    features summary = [] /\ performance summary = [] /\ security summary = [] /\
    versionDates summary !! "16.1" = Some "2023-11-09".
Proof. eexists. split; [reflexivity|]. vm_compute. repeat split. Qed.

(** *** What the stages keep *)

Definition processed (releaseData : list Extractor.Release) : Summary :=
  Aggregator.generateSummary (Classifier.processReleaseNotes releaseData).

Lemma processed_lists (releaseData : list Extractor.Release) :
  bugs (processed releaseData) =
    List.flat_map (fun r => Aggregator.releaseBugs (Classifier.processRelease r))
                  releaseData /\
  features (processed releaseData) =
    List.flat_map (fun r => Aggregator.releaseFeatures (Classifier.processRelease r))
                  releaseData /\
  performance (processed releaseData) =
    List.flat_map (fun r => Aggregator.releasePerformance (Classifier.processRelease r))
                  releaseData /\
  security (processed releaseData) =
    List.flat_map (fun r => Aggregator.releaseSecurity (Classifier.processRelease r))
                  releaseData.
Proof.
  unfold processed, Classifier.processReleaseNotes.
  destruct (Aggregator.fold_addRelease
              (List.map Classifier.processRelease releaseData)
              Aggregator.emptySummary) as (Hb & Hf & Hp & Hs).
  fold (Aggregator.generateSummary (List.map Classifier.processRelease releaseData))
    in Hb, Hf, Hp, Hs.
  rewrite Hb, Hf, Hp, Hs. cbn [bugs features performance security
    Aggregator.emptySummary app].
  rewrite !List.flat_map_concat_map, !List.map_map. repeat split.
Qed.

Lemma flat_map_lengths {A B C D E F} (l : list A)
    (fb : A -> list B) (ff : A -> list C) (fp : A -> list D) (fs : A -> list E)
    (fc : A -> list F) :
  (forall x, (length (fb x) + length (ff x) + length (fp x) + length (fs x)
              = length (fc x))%nat) ->
  (length (List.flat_map fb l) + length (List.flat_map ff l) +
   length (List.flat_map fp l) + length (List.flat_map fs l)
   = length (List.flat_map fc l))%nat.
Proof.
  intros H. induction l as [|x l IH]; [reflexivity|].
  cbn [List.flat_map]. rewrite !length_app. specialize (H x). lia.
Qed.

(** From the parsed releases to the summary no item is lost and none is
    added: the four lists of the summary hold together as many items as
    the releases have changes. *)
Theorem no_item_lost (releaseData : list Extractor.Release) :
  (length (bugs (processed releaseData)) +
   length (features (processed releaseData)) +
   length (performance (processed releaseData)) +
   length (security (processed releaseData)) =
   length (List.flat_map Extractor.changes releaseData))%nat.
Proof.
  destruct (processed_lists releaseData) as (Hb & Hf & Hp & Hs).
  rewrite Hb, Hf, Hp, Hs.
  apply flat_map_lengths. intros r.
  unfold Aggregator.releaseBugs, Aggregator.releaseFeatures,
    Aggregator.releasePerformance, Aggregator.releaseSecurity.
  rewrite !length_map. unfold Classifier.processRelease.
  cbn [Classifier.categories].
  pose proof (Classifier.bucket_lengths (Extractor.changes r)
                (endsWith (Extractor.version r) ".0")) as Hl.
  lia.
Qed.

(** Features and performance items come from major releases only: the
    [sinceVersion] of every one of them ends in [.0]. *)
Theorem since_major_release (releaseData : list Extractor.Release)
    (item : FeatureItem) :
  In item (features (processed releaseData)) \/
  In item (performance (processed releaseData)) ->
  endsWith (f_sinceVersion item) ".0" = true.
Proof.
  destruct (processed_lists releaseData) as (_ & Hf & Hp & _).
  rewrite Hf, Hp, !List.in_flat_map.
  assert (Hempty : forall r : Extractor.Release,
    endsWith (Extractor.version r) ".0" = false ->
    Aggregator.releaseFeatures (Classifier.processRelease r) = [] /\
    Aggregator.releasePerformance (Classifier.processRelease r) = []).
  { intros r Hv.
    unfold Aggregator.releaseFeatures, Aggregator.releasePerformance,
      Classifier.processRelease. cbn [Classifier.categories]. rewrite Hv.
    destruct (Classifier.point_release_buckets (Extractor.changes r)) as [-> ->].
    split; reflexivity. }
  intros [(r & _ & Hi)|(r & _ & Hi)];
    destruct (endsWith (Extractor.version r) ".0") eqn:Hv.
  - unfold Aggregator.releaseFeatures in Hi. apply List.in_map_iff in Hi
      as (change & <- & _). exact Hv.
  - rewrite (proj1 (Hempty r Hv)) in Hi. destruct Hi.
  - unfold Aggregator.releasePerformance in Hi. apply List.in_map_iff in Hi
      as (change & <- & _). exact Hv.
  - rewrite (proj2 (Hempty r Hv)) in Hi. destruct Hi.
Qed.

(** The theorem at a major release with one features item. *)
Lemma since_major_release_witness :
  endsWith (f_sinceVersion
    (Aggregator.parseFeatureItem "Support the new option" "16.0")) ".0" = true.
Proof.
  apply (since_major_release
           [Extractor.mkRelease "16.0" "2023-09-14" ["Support the new option"]]).
  left. left. reflexivity.
Defined.

(** A change in which a CVE identifier is found is classified as security
    whatever the release, so it reaches the security list of the summary
    with its identifier. *)
Theorem cve_reaches_security (releaseData : list Extractor.Release)
    (release : Extractor.Release) (change id : string) :
  In release releaseData -> In change (Extractor.changes release) ->
  Parser.cveMatch change = Some id ->
  In (Aggregator.parseSecurityItem change (Extractor.version release))
     (security (processed releaseData)) /\
  s_cve (Aggregator.parseSecurityItem change (Extractor.version release)) = Some id.
Proof.
  intros Hr Hc Hm. split; [|exact Hm].
  destruct (processed_lists releaseData) as (_ & _ & _ & ->).
  apply List.in_flat_map. exists release. split; [exact Hr|].
  unfold Aggregator.releaseSecurity, Classifier.processRelease.
  cbn [Classifier.p_version Classifier.categories].
  apply (List.in_map
           (fun item => Aggregator.parseSecurityItem item (Extractor.version release))).
  apply Classifier.security_bucket; [exact Hc|].
  apply Parser.cveMatch_includes, includes_toLowerCase in Hm.
  apply (includes_prefix _ "cve" "-"). exact Hm.
Qed.

Lemma cve_reaches_security_witness :
  In (Aggregator.parseSecurityItem "Faster vacuum (CVE-2024-0985)" "16.0")
     (security (processed
        [Extractor.mkRelease "16.0" "2023-09-14" ["Faster vacuum (CVE-2024-0985)"]])).
Proof.
  apply (cve_reaches_security
           [Extractor.mkRelease "16.0" "2023-09-14" ["Faster vacuum (CVE-2024-0985)"]]
           (Extractor.mkRelease "16.0" "2023-09-14" ["Faster vacuum (CVE-2024-0985)"])
           "Faster vacuum (CVE-2024-0985)" "CVE-2024-0985").
  - left. reflexivity.
  - left. reflexivity.
  - reflexivity.
Defined.

Lemma processed_lacks_metrics (releaseData : list Extractor.Release) :
  List.filter Enricher.lacksMetrics (security (processed releaseData)) =
  security (processed releaseData).
Proof.
  destruct (processed_lists releaseData) as (_ & _ & _ & ->).
  induction releaseData as [|r rest IH]; [reflexivity|].
  cbn [List.flat_map]. rewrite List.filter_app, IH. f_equal.
  unfold Aggregator.releaseSecurity.
  induction (Classifier.cat_security (Classifier.categories (Classifier.processRelease r)))
    as [|item items IHi]; [reflexivity|].
  cbn [List.map List.filter]. rewrite IHi. reflexivity.
Qed.

(** The security items of a summary that [format] has just written have
    no metrics: the first [cve] run asks the service about every one of
    them, once each and in the order of the list, up to the item at which
    it stops. *)
Theorem first_run_queries (World : Type)
    (fetchCve : World -> string -> World * option Enricher.CveData)
    (w : World) (releaseData : list Extractor.Release) :
  exists rest,
    List.map Enricher.queryUrl (security (processed releaseData)) =
    Enricher.queries (Enricher.addCVE World fetchCve w (processed releaseData))
      ++ rest /\
    (Enricher.completed
       (Enricher.addCVE World fetchCve w (processed releaseData)) = true ->
     rest = []).
Proof.
  rewrite <- (processed_lacks_metrics releaseData). unfold Enricher.addCVE.
  destruct (Enricher.enrichLoop World fetchCve w [] (security (processed releaseData)))
    as [[[w' qs] out] ok] eqn:Hl.
  cbn [Enricher.queries Enricher.completed].
  apply (Enricher.enrichLoop_queries World fetchCve _ _ _ _ _ _ _ Hl).
Qed.

End Pipeline.

(* ===================================================================== *)
(** ** The split of the summary: [version_dates.json] *)
(* ===================================================================== *)

Module Splitter.

Section Split.

(** [!isNaN(new Date(date).getTime())]: whether the engine reads a date
    in the text. *)
Variable validDate : string -> bool.

(** One round of the loop over [Object.entries(versionDates)]: the entry
    is deleted when its date is not valid. *)
Definition check (versionDates : gmap string string) (entry : string * string)
  : gmap string string :=
  if validDate entry.2 then versionDates else delete entry.1 versionDates.

(** The content of [version_dates.json]. *)
Definition splitVersionDates (versionDates : gmap string string)
  : gmap string string :=
  fold_left check (map_to_list versionDates) versionDates.

Definition rejected (version : string) (entry : string * string) : bool :=
  String.eqb entry.1 version && negb (validDate entry.2).

Lemma check_loop (entries : list (string * string))
    (versionDates : gmap string string) (version : string) :
  fold_left check entries versionDates !! version =
  if existsb (rejected version) entries then None else versionDates !! version.
Proof.
  revert versionDates. induction entries as [|entry rest IH]; intros versionDates;
    [reflexivity|].
  cbn [fold_left existsb]. rewrite IH. unfold check, rejected at 2.
  destruct (existsb (rejected version) rest); [rewrite orb_true_r; reflexivity|].
  rewrite orb_false_r.
  destruct (validDate entry.2); cbn [negb]; [rewrite andb_false_r; reflexivity|].
  rewrite andb_true_r.
  destruct (String.eqb_spec entry.1 version) as [<-|Hne].
  - apply lookup_delete_eq.
  - apply lookup_delete_ne. exact Hne.
Qed.

(** [version_dates.json] holds the entries of [versionDates] whose date
    is valid, with their dates, and no other entry. *)
Theorem splitVersionDates_lookup (versionDates : gmap string string)
    (version : string) :
  splitVersionDates versionDates !! version =
  match versionDates !! version with
  | Some date => if validDate date then Some date else None
  | None => None
  end.
Proof.
  unfold splitVersionDates. rewrite check_loop.
  destruct (versionDates !! version) as [date|] eqn:Hv.
  - destruct (validDate date) eqn:Hd.
    + destruct (existsb (rejected version) (map_to_list versionDates)) eqn:He;
        [|reflexivity].
      apply List.existsb_exists in He as ([v d] & Hin & Hr).
      unfold rejected in Hr. cbn [fst snd] in Hr.
      apply andb_true_iff in Hr as [Hv' Hd']. apply String.eqb_eq in Hv'. subst v.
      apply list_elem_of_In, elem_of_map_to_list in Hin.
      rewrite Hv in Hin. injection Hin as ->. rewrite Hd in Hd'. discriminate Hd'.
    + replace (existsb (rejected version) (map_to_list versionDates)) with true;
        [reflexivity|].
      symmetry. apply List.existsb_exists. exists (version, date). split.
      * apply list_elem_of_In, elem_of_map_to_list. exact Hv.
      * unfold rejected. cbn [fst snd]. rewrite String.eqb_refl, Hd. reflexivity.
  - destruct (existsb (rejected version) (map_to_list versionDates)); reflexivity.
Qed.

End Split.
End Splitter.

(* ===================================================================== *)
(** ** The version map of the report: the loop of [VersionMapCard] *)
(* ===================================================================== *)

Module VersionMap.

(** The two members of a [Semver] that the loop reads.  Version numbers
    are integers. *)
Record Semver := mkSemver { major : Z; minor : Z }.

Section Card.

(** The dates of the list are carried, never read. *)
Variable Date : Type.
(** [eolDates[String(semver.major)]], a member that may be missing. *)
Variable eolDates : Z -> option string.
(** [new Date(eolDate).getTime() < +new Date()] *)
Variable expired : string -> bool.

Record MinorVersionInfo := mkMinorVersionInfo {
  minorVersion : Z;
  releaseDate : Date
}.

Record VersionData := mkVersionData {
  majorVersion : Z;
  firstReleaseDate : Date;
  eolDate : string;
  isEol : bool;
  minorVersions : list MinorVersionInfo
}.

(** The three variables that the loop updates. *)
Record Loop := mkLoop {
  majorVersions : gmap Z VersionData;
  minorVersionsBehind : nat;
  majorVersionsBehind : nat
}.

(** [eolDate ? eolDate : "TBD"] *)
Definition eolText (e : option string) : string :=
  match e with
  | Some s => if String.eqb s EmptyString then "TBD" else s
  | None => "TBD"
  end.

(** [eolDate ? new Date(eolDate).getTime() < +new Date() : false] *)
Definition eolFlag (e : option string) : bool :=
  match e with
  | Some s => if String.eqb s EmptyString then false else expired s
  | None => false
  end.

(** The element pushed for an entry: its minor version and its date. *)
Definition info (entry : Semver * Date) : MinorVersionInfo :=
  mkMinorVersionInfo (minor entry.1) entry.2.

(** [majorVersionContainer.minorVersions.push(...)]: the container is the
    object held by the map, so the map sees the new element. *)
Definition pushMinor (container : VersionData) (l : list MinorVersionInfo)
  : VersionData :=
  mkVersionData (majorVersion container) (firstReleaseDate container)
    (eolDate container) (isEol container) (minorVersions container ++ l).

(** One round of [for (const [semver, date] of sortedVersions)];
    [current] is [data.version]. *)
Definition step (current : Semver) (st : Loop) (entry : Semver * Date) : Loop :=
  let semver := entry.1 in
  let date := entry.2 in
  match majorVersions st !! major semver with
  | None =>
      let eol := eolDates (major semver) in
      mkLoop
        (<[major semver :=
             mkVersionData (major semver) date (eolText eol) (eolFlag eol)
               [mkMinorVersionInfo (minor semver) date]]> (majorVersions st))
        (minorVersionsBehind st)
        (if (major semver >? major current)%Z then S (majorVersionsBehind st)
         else majorVersionsBehind st)
  | Some majorVersionContainer =>
      mkLoop
        (<[major semver :=
             pushMinor majorVersionContainer
               [mkMinorVersionInfo (minor semver) date]]> (majorVersions st))
        (if (major semver =? major current)%Z && (minor semver >? minor current)%Z
         then S (minorVersionsBehind st) else minorVersionsBehind st)
        (majorVersionsBehind st)
  end.

Definition versionMap (current : Semver) (sortedVersions : list (Semver * Date))
  : Loop :=
  fold_left (step current) sortedVersions (mkLoop ∅ 0 0).

(** The entries of the list with major version [m], in the order of the
    list. *)
Definition entriesOf (m : Z) (sortedVersions : list (Semver * Date))
  : list (Semver * Date) :=
  List.filter (fun entry => (major entry.1 =? m)%Z) sortedVersions.

(** [semver.minor > data.version.minor] *)
Definition newer (current : Semver) (entry : Semver * Date) : bool :=
  (minor entry.1 >? minor current)%Z.

(** The major versions of the list, each once. *)
Definition majorsOf (sortedVersions : list (Semver * Date)) : gset Z :=
  list_to_set (List.map (fun entry => major entry.1) sortedVersions).

Lemma majorVersions_from (current : Semver) (m : Z)
    (sortedVersions : list (Semver * Date)) (st : Loop) :
  majorVersions (fold_left (step current) sortedVersions st) !! m =
  match majorVersions st !! m with
  | Some container =>
      Some (pushMinor container (List.map info (entriesOf m sortedVersions)))
  | None =>
      match entriesOf m sortedVersions with
      | [] => None
      | first :: _ =>
          Some (mkVersionData m first.2 (eolText (eolDates m))
                  (eolFlag (eolDates m))
                  (List.map info (entriesOf m sortedVersions)))
      end
  end.
Proof.
  revert st. induction sortedVersions as [|entry rest IH]; intros st.
  - cbn. destruct (majorVersions st !! m) as [c|]; [|reflexivity].
    unfold pushMinor. rewrite app_nil_r. destruct c; reflexivity.
  - cbn [fold_left]. rewrite IH. unfold entriesOf. cbn [List.filter].
    fold (entriesOf m rest).
    destruct (Z.eqb_spec (major entry.1) m) as [He|He].
    + subst m. unfold step.
      destruct (majorVersions st !! major entry.1) as [c|] eqn:Hc;
        cbn [majorVersions]; rewrite lookup_insert_eq.
      * unfold pushMinor. cbn. rewrite <- app_assoc. reflexivity.
      * reflexivity.
    + assert (Hs : majorVersions (step current st entry) !! m =
                   majorVersions st !! m).
      { unfold step. destruct (majorVersions st !! major entry.1);
          cbn [majorVersions]; apply lookup_insert_ne; exact He. }
      rewrite Hs. reflexivity.
Qed.

Lemma step_known (current : Semver) (m : Z) (st : Loop) (entry : Semver * Date) :
  is_Some (majorVersions (step current st entry) !! m) <->
  major entry.1 = m \/ is_Some (majorVersions st !! m).
Proof.
  unfold step. destruct (majorVersions st !! major entry.1) as [c|] eqn:Hc;
    cbn [majorVersions]; rewrite lookup_insert_is_Some;
    destruct (Z.eq_dec (major entry.1) m); tauto.
Qed.

Lemma minorVersionsBehind_from (current : Semver)
    (sortedVersions : list (Semver * Date)) (st : Loop) :
  minorVersionsBehind (fold_left (step current) sortedVersions st) =
  (minorVersionsBehind st +
   length (List.filter (newer current)
             (match majorVersions st !! major current with
              | Some _ => entriesOf (major current) sortedVersions
              | None => List.tl (entriesOf (major current) sortedVersions)
              end)))%nat.
Proof.
  revert st. induction sortedVersions as [|entry rest IH]; intros st.
  - cbn. destruct (majorVersions st !! major current); cbn; lia.
  - cbn [fold_left]. rewrite IH. unfold entriesOf. cbn [List.filter].
    fold (entriesOf (major current) rest).
    destruct (Z.eqb_spec (major entry.1) (major current)) as [He|He].
    + assert (Hk : is_Some (majorVersions (step current st entry) !! major current))
        by (apply step_known; left; exact He).
      destruct Hk as [c' ->]. unfold step. rewrite He.
      destruct (majorVersions st !! major current) as [c|];
        cbn [minorVersionsBehind List.tl List.filter]; [|reflexivity].
      rewrite Z.eqb_refl. cbn [andb]. unfold newer at 2.
      destruct (minor entry.1 >? minor current)%Z; cbn [length]; lia.
    + assert (Hs : majorVersions (step current st entry) !! major current =
                   majorVersions st !! major current).
      { unfold step. destruct (majorVersions st !! major entry.1);
          cbn [majorVersions]; apply lookup_insert_ne; exact He. }
      rewrite Hs. f_equal. unfold step.
      destruct (majorVersions st !! major entry.1); cbn [minorVersionsBehind];
        [|reflexivity].
      destruct (Z.eqb_spec (major entry.1) (major current)); [contradiction|].
      reflexivity.
Qed.

Lemma step_dom (current : Semver) (st : Loop) (entry : Semver * Date) :
  dom (majorVersions (step current st entry)) =
  {[major entry.1]} ∪ dom (majorVersions st).
Proof.
  unfold step. destruct (majorVersions st !! major entry.1);
    cbn [majorVersions]; apply dom_insert_L.
Qed.

Lemma seen_major (m : Z) (rest seen : gset Z) :
  m ∈ seen -> ({[m]} ∪ rest) ∖ seen = rest ∖ ({[m]} ∪ seen).
Proof.
  intros Hin. apply set_eq. intros x.
  rewrite !elem_of_difference, !elem_of_union, elem_of_singleton.
  destruct (Z.eq_dec x m) as [->|Hne]; tauto.
Qed.

Lemma new_major (m : Z) (rest seen : gset Z) :
  m ∉ seen -> ({[m]} ∪ rest) ∖ seen = {[m]} ∪ rest ∖ ({[m]} ∪ seen).
Proof.
  intros Hout. apply set_eq. intros x.
  rewrite !elem_of_union, !elem_of_difference, !elem_of_union, elem_of_singleton.
  destruct (Z.eq_dec x m) as [->|Hne]; tauto.
Qed.

Lemma size_filter_new (c m : Z) (rest seen : gset Z) :
  m ∉ seen ->
  size (filter (fun x => (c < x)%Z) ({[m]} ∪ rest ∖ ({[m]} ∪ seen))) =
  ((if (m >? c)%Z then 1 else 0) +
   size (filter (fun x => (c < x)%Z) (rest ∖ ({[m]} ∪ seen))))%nat.
Proof.
  intros Hout.
  pose proof (filter_union_L (C := gset Z) (fun x => (c < x)%Z) {[m]}
                (rest ∖ ({[m]} ∪ seen))) as ->.
  rewrite size_union.
  - f_equal.
    pose proof (filter_singleton_L (C := gset Z) (fun x => (c < x)%Z) m) as ->.
    cbn beta. destruct (decide (c < m)%Z) as [Hd|Hd];
      destruct (Z.gtb_spec m c) as [Hg|Hg]; try lia;
      [apply size_singleton|apply size_empty].
  - intros x Hx Hx'. apply elem_of_filter in Hx as [_ Hx].
    apply elem_of_filter in Hx' as [_ Hx'].
    apply elem_of_difference in Hx' as [_ Hx']. apply Hx'.
    apply elem_of_union_l. exact Hx.
Qed.

Lemma majorVersionsBehind_from (current : Semver)
    (sortedVersions : list (Semver * Date)) (st : Loop) :
  majorVersionsBehind (fold_left (step current) sortedVersions st) =
  (majorVersionsBehind st +
   size (filter (fun m => (major current < m)%Z)
           (majorsOf sortedVersions ∖ dom (majorVersions st))))%nat.
Proof.
  revert st. induction sortedVersions as [|entry rest IH]; intros st.
  - cbn. unfold majorsOf. cbn.
    assert (He : (∅ : gset Z) ∖ dom (majorVersions st) = ∅)
      by (apply set_eq; intros m; rewrite elem_of_difference, elem_of_empty; tauto).
    rewrite He.
    pose proof (filter_empty_L (C := gset Z) (fun m => (major current < m)%Z)) as Hf.
    rewrite Hf, size_empty. lia.
  - cbn [fold_left]. rewrite IH, step_dom. unfold majorsOf. cbn [List.map list_to_set].
    fold (majorsOf rest).
    destruct (majorVersions st !! major entry.1) as [c|] eqn:Hc.
    + assert (Hin : major entry.1 ∈ dom (majorVersions st))
        by (apply elem_of_dom; eauto).
      rewrite (seen_major _ _ _ Hin).
      unfold step. rewrite Hc. reflexivity.
    + assert (Hout : major entry.1 ∉ dom (majorVersions st))
        by (apply not_elem_of_dom; exact Hc).
      rewrite (new_major _ _ _ Hout), (size_filter_new _ _ _ _ Hout).
      unfold step. rewrite Hc. cbn [majorVersionsBehind].
      destruct (major entry.1 >? major current)%Z; lia.
Qed.

(** The map that the loop builds has one container for every major
    version of the list and no other: it holds the date of the first
    entry of that major version, the end-of-life text and flag of that
    major version, and the minor versions of all its entries, in the
    order of the list. *)
Theorem majorVersions_grouped (current : Semver) (m : Z)
    (sortedVersions : list (Semver * Date)) :
  majorVersions (versionMap current sortedVersions) !! m =
  match entriesOf m sortedVersions with
  | [] => None
  | first :: _ =>
      Some (mkVersionData m first.2 (eolText (eolDates m)) (eolFlag (eolDates m))
              (List.map info (entriesOf m sortedVersions)))
  end.
Proof.
  unfold versionMap. rewrite majorVersions_from. cbn [majorVersions].
  rewrite lookup_empty. reflexivity.
Qed.

(** [majorVersionsBehind] is the number of distinct major versions of the
    list that are greater than the current one, whatever the order of the
    list and however many entries a major version has. *)
Theorem majorVersionsBehind_distinct (current : Semver)
    (sortedVersions : list (Semver * Date)) :
  majorVersionsBehind (versionMap current sortedVersions) =
  size (filter (fun m => (major current < m)%Z) (majorsOf sortedVersions)).
Proof.
  unfold versionMap. rewrite majorVersionsBehind_from.
  cbn [majorVersions majorVersionsBehind]. rewrite dom_empty_L.
  assert (He : majorsOf sortedVersions ∖ ∅ = majorsOf sortedVersions)
    by (apply set_eq; intros m; rewrite elem_of_difference, elem_of_empty; tauto).
  rewrite He. reflexivity.
Qed.

(** [minorVersionsBehind] counts the entries of the current major version
    with a greater minor version, the first entry of that major version
    in the list excepted: that one is never counted.  So the count is
    that of all the newer entries of the major version when the first of
    them in the list is not newer than the current version. *)
Theorem minorVersionsBehind_after_first (current : Semver)
    (sortedVersions : list (Semver * Date)) :
  minorVersionsBehind (versionMap current sortedVersions) =
  length (List.filter (newer current)
            (List.tl (entriesOf (major current) sortedVersions))) /\
  (forall first rest,
     entriesOf (major current) sortedVersions = first :: rest ->
     newer current first = false ->
     minorVersionsBehind (versionMap current sortedVersions) =
     length (List.filter (newer current)
               (entriesOf (major current) sortedVersions))).
Proof.
  assert (H : minorVersionsBehind (versionMap current sortedVersions) =
              length (List.filter (newer current)
                        (List.tl (entriesOf (major current) sortedVersions)))).
  { unfold versionMap. rewrite minorVersionsBehind_from.
    cbn [majorVersions minorVersionsBehind]. rewrite lookup_empty. reflexivity. }
  split; [exact H|]. intros first rest He Hn. rewrite H, He.
  cbn [List.tl List.filter]. rewrite Hn. reflexivity.
Qed.

End Card.

(** Releases of two major versions, the list in the order of the dates. *)
Definition releases : list (Semver * string) :=
  [(mkSemver 16 0, "2023-09-14"); (mkSemver 16 1, "2023-11-09");
   (mkSemver 16 2, "2024-02-08"); (mkSemver 17 0, "2024-09-26");
   (mkSemver 16 5, "2024-11-14"); (mkSemver 17 1, "2024-11-14")].

Lemma minorVersionsBehind_after_first_witness :
  minorVersionsBehind string
    (versionMap string (fun _ => None) (fun _ => false) (mkSemver 16 1) releases) = 2%nat.
Proof.
  rewrite (proj2 (minorVersionsBehind_after_first string (fun _ => None)
                    (fun _ => false) (mkSemver 16 1) releases)
             (mkSemver 16 0, "2023-09-14")
             [(mkSemver 16 1, "2023-11-09"); (mkSemver 16 2, "2024-02-08");
              (mkSemver 16 5, "2024-11-14")] eq_refl eq_refl).
  reflexivity.
Defined.

(** With the newest release first, the newest minor version is not
    counted. *)
Example minorVersionsBehind_newest_first :
  minorVersionsBehind string
    (versionMap string (fun _ => None) (fun _ => false) (mkSemver 16 1)
       [(mkSemver 16 2, "2024-02-08"); (mkSemver 16 1, "2023-11-09");
        (mkSemver 16 0, "2023-09-14")]) = 0%nat.
Proof. reflexivity. Qed.
End VersionMap.
